(** * The thread scheduler of the Pintos threads project

    A model of [src/threads/fixed_point.h] and [src/threads/thread.c]: the
    17.14 fixed-point macros, the thread control blocks and the scheduler's
    global variables as an explicit kernel state, and the functions of
    [thread.c] as computations over that state that either return, stop on
    a failed [ASSERT], or never leave a loop. *)

From stdpp Require Import gmap list strings.
From Stdlib Require Import ZArith Lia QArith Qabs Sorted.
Local Open Scope Z_scope.

(** ** Machine integers *)

(** [int] and [int32_t] hold 32 bits and [int64_t] and [long long] 64, in
    two's complement; [unsigned] holds 32 bits. An arithmetic result is
    reduced to its type. *)
Definition int32 (z : Z) : Z := (z + 2 ^ 31) mod 2 ^ 32 - 2 ^ 31.
Definition int64 (z : Z) : Z := (z + 2 ^ 63) mod 2 ^ 64 - 2 ^ 63.
Definition uint32 (z : Z) : Z := z mod 2 ^ 32.

Definition INT_MAX : Z := 2 ^ 31 - 1.
Definition INT_MIN : Z := - 2 ^ 31.

(** ** fixed_point.h *)

Module FixedPoint.

Definition Q : Z := 14.
Definition F : Z := Z.shiftl 1 Q.

(** [typedef int32_t fixed_point]: a value is the integer it is stored
    as. C's [/] on integers truncates toward zero: [Z.quot]. *)

Definition convert_to_fixed_point (n : Z) : Z := int32 (n * F).

Definition convert_to_int_round_down (x : Z) : Z := int32 (Z.quot x F).

Definition convert_to_int_round_nearest (x : Z) : Z :=
  if x >=? 0
  then int32 (Z.quot (int32 (x + Z.quot F 2)) F)
  else int32 (Z.quot (int32 (x - Z.quot F 2)) F).

Definition add_fixed_to_fixed (x y : Z) : Z := int32 (x + y).
Definition add_fixed_to_int (x n : Z) : Z := int32 (x + int32 (n * F)).

Definition fixed_subtract_fixed (x y : Z) : Z := int32 (x - y).
Definition fixed_subtract_int (x n : Z) : Z := int32 (x - int32 (n * F)).

(** The two widening macros compute in [int64_t]; their result has that
    type until the caller stores it in a [fixed_point]. *)
Definition multiply_fixed_by_fixed (x y : Z) : Z :=
  int64 (Z.quot (int64 (x * y)) F).
Definition multiply_fixed_by_int (x n : Z) : Z := int32 (x * n).

Definition div_fixed_by_fixed (x y : Z) : Z :=
  int64 (Z.quot (int64 (x * F)) y).
Definition div_fixed_by_int (x n : Z) : Z := int32 (Z.quot x n).

End FixedPoint.

Import FixedPoint.

(** ** Constants *)

(** Modelled from the spec: [threads/thread.h], [devices/timer.h] and
    [threads/vaddr.h] are not among the sources. The priority and nice
    bounds are the spec's bit-exact constants; [TID_ERROR] is the header's
    [((tid_t) -1)], [TIMER_FREQ] its 100 ticks per second and [PGSIZE] the
    4 kB page. *)
Definition PRI_MIN : Z := 0.
Definition PRI_DEFAULT : Z := 31.
Definition PRI_MAX : Z := 63.
Definition NICE_MIN : Z := -20.
Definition NICE_DEFAULT : Z := 0.
Definition NICE_MAX : Z := 20.
Definition TID_ERROR : Z := -1.
Definition TIMER_FREQ : Z := 100.
Definition PGSIZE : Z := 4096.

(** From [thread.c] itself. *)
Definition THREAD_MAGIC : Z := 0xcd6abf4b.
Definition TIME_SLICE : Z := 4.

(** ** The ordered list *)

(** Modelled from the spec: [lib/kernel/list.c] is not among the sources.
    An intrusive list is the sequence of the elements linked into it, front
    first. [list_insert_ordered] scans front to back and inserts before the
    first element for which [less new existing] holds; [list_remove]
    unlinks the element; [list_sort] is stable. *)
Section ordered_list.
Context {A : Type} `{EqDecision A}.
Variable less : A → A → bool.

Fixpoint list_insert_ordered (elem : A) (l : list A) : list A :=
  match l with
  | [] => [elem]
  | e :: l' =>
      if less elem e then elem :: e :: l'
      else e :: list_insert_ordered elem l'
  end.

Fixpoint list_remove (elem : A) (l : list A) : list A :=
  match l with
  | [] => []
  | e :: l' =>
      if decide (e = elem) then list_remove elem l'
      else e :: list_remove elem l'
  end.

Definition list_sort (l : list A) : list A :=
  fold_left (λ sorted e, list_insert_ordered e sorted) l [].

Definition list_push_back (l : list A) (elem : A) : list A := l ++ [elem].

Definition list_empty (l : list A) : bool :=
  match l with [] => true | _ => false end.

Definition list_size (l : list A) : Z := Z.of_nat (length l).
End ordered_list.

(** ** Thread control blocks *)

(** A pointer is an address; [NULL] is address 0. A [struct thread *] is
    the address of the thread's page. *)
Abbreviation ptr := N (only parsing).
Definition NULL : ptr := 0%N.

Inductive thread_status : Set :=
| THREAD_RUNNING
| THREAD_READY
| THREAD_BLOCKED
| THREAD_DYING.

#[global] Instance thread_status_eq_dec : EqDecision thread_status.
Proof. solve_decision. Defined.

(** What [thread.c] reads from and writes to [dona_elem.next]: it tests the
    pointer against [NULL] and stores [NULL]; the list library stores the
    address of the following list element when it links the hook. *)
Inductive hook_next : Set :=
| NEXT_NULL
| NEXT_ELEM.

#[global] Instance hook_next_eq_dec : EqDecision hook_next.
Proof. solve_decision. Defined.

(** Modelled from the spec: [struct thread] is declared in
    [threads/thread.h]; the fields are those [thread.c] uses. The hooks
    [elem] and [allelem] are represented by the thread's membership in
    [ready_list] and [all_list]; [donations] lists the donors whose
    [dona_elem] is linked into it, front first. *)
Record thread : Type := mk_thread {
  tid : Z;
  status : thread_status;
  name : string;
  stack : Z;
  priority : Z;
  base_priority : Z;
  donations : list ptr;
  dona_elem_next : hook_next;
  required_lock : ptr;
  nice : Z;
  recent_cpu : Z;
  magic : Z
}.

(** Modelled from the spec: of [struct lock] ([threads/synch.h])
    [thread.c] reads the holder only. *)
Record lock : Type := mk_lock {
  holder : ptr
}.

Inductive intr_level : Set :=
| INTR_OFF
| INTR_ON.

#[global] Instance intr_level_eq_dec : EqDecision intr_level.
Proof. solve_decision. Defined.

(** The file-scope variables of [thread.c], the memory that holds thread
    pages and locks, and what the scheduler sees of its collaborators: the
    page [running_thread] finds from the stack pointer, the interrupt
    level, whether an external interrupt is being handled, the
    yield-on-return request, the timer's tick count and the pages the
    allocator can still hand out. *)
Record kernel : Type := mk_kernel {
  threads : gmap N thread;
  locks : gmap N lock;
  ready_list : list ptr;
  all_list : list ptr;
  idle_thread : ptr;
  initial_thread : ptr;
  load_avg : Z;
  idle_ticks : Z;
  kernel_ticks : Z;
  user_ticks : Z;
  thread_ticks : Z;
  thread_mlfqs : bool;
  next_tid : Z;
  running : ptr;
  level : intr_level;
  in_external_intr : bool;
  yield_on_return : bool;
  ticks : Z;
  free_pages : list ptr
}.

(** *** Field updates *)

Definition set_tid (v : Z) (t : thread) : thread :=
  mk_thread v (status t) (name t) (stack t) (priority t) (base_priority t)
    (donations t) (dona_elem_next t) (required_lock t) (nice t)
    (recent_cpu t) (magic t).
Definition set_status (v : thread_status) (t : thread) : thread :=
  mk_thread (tid t) v (name t) (stack t) (priority t) (base_priority t)
    (donations t) (dona_elem_next t) (required_lock t) (nice t)
    (recent_cpu t) (magic t).
Definition set_stack (v : Z) (t : thread) : thread :=
  mk_thread (tid t) (status t) (name t) v (priority t) (base_priority t)
    (donations t) (dona_elem_next t) (required_lock t) (nice t)
    (recent_cpu t) (magic t).
Definition set_priority (v : Z) (t : thread) : thread :=
  mk_thread (tid t) (status t) (name t) (stack t) v (base_priority t)
    (donations t) (dona_elem_next t) (required_lock t) (nice t)
    (recent_cpu t) (magic t).
Definition set_base_priority (v : Z) (t : thread) : thread :=
  mk_thread (tid t) (status t) (name t) (stack t) (priority t) v
    (donations t) (dona_elem_next t) (required_lock t) (nice t)
    (recent_cpu t) (magic t).
Definition set_donations (v : list ptr) (t : thread) : thread :=
  mk_thread (tid t) (status t) (name t) (stack t) (priority t)
    (base_priority t) v (dona_elem_next t) (required_lock t) (nice t)
    (recent_cpu t) (magic t).
Definition set_dona_elem_next (v : hook_next) (t : thread) : thread :=
  mk_thread (tid t) (status t) (name t) (stack t) (priority t)
    (base_priority t) (donations t) v (required_lock t) (nice t)
    (recent_cpu t) (magic t).
Definition set_nice (v : Z) (t : thread) : thread :=
  mk_thread (tid t) (status t) (name t) (stack t) (priority t)
    (base_priority t) (donations t) (dona_elem_next t) (required_lock t) v
    (recent_cpu t) (magic t).
Definition set_recent_cpu (v : Z) (t : thread) : thread :=
  mk_thread (tid t) (status t) (name t) (stack t) (priority t)
    (base_priority t) (donations t) (dona_elem_next t) (required_lock t)
    (nice t) v (magic t).

Definition set_threads (v : gmap N thread) (k : kernel) : kernel :=
  mk_kernel v (locks k) (ready_list k) (all_list k) (idle_thread k)
    (initial_thread k) (load_avg k) (idle_ticks k) (kernel_ticks k)
    (user_ticks k) (thread_ticks k) (thread_mlfqs k) (next_tid k)
    (running k) (level k) (in_external_intr k) (yield_on_return k)
    (ticks k) (free_pages k).
Definition set_ready_list (v : list ptr) (k : kernel) : kernel :=
  mk_kernel (threads k) (locks k) v (all_list k) (idle_thread k)
    (initial_thread k) (load_avg k) (idle_ticks k) (kernel_ticks k)
    (user_ticks k) (thread_ticks k) (thread_mlfqs k) (next_tid k)
    (running k) (level k) (in_external_intr k) (yield_on_return k)
    (ticks k) (free_pages k).
Definition set_all_list (v : list ptr) (k : kernel) : kernel :=
  mk_kernel (threads k) (locks k) (ready_list k) v (idle_thread k)
    (initial_thread k) (load_avg k) (idle_ticks k) (kernel_ticks k)
    (user_ticks k) (thread_ticks k) (thread_mlfqs k) (next_tid k)
    (running k) (level k) (in_external_intr k) (yield_on_return k)
    (ticks k) (free_pages k).
Definition set_load_avg (v : Z) (k : kernel) : kernel :=
  mk_kernel (threads k) (locks k) (ready_list k) (all_list k)
    (idle_thread k) (initial_thread k) v (idle_ticks k) (kernel_ticks k)
    (user_ticks k) (thread_ticks k) (thread_mlfqs k) (next_tid k)
    (running k) (level k) (in_external_intr k) (yield_on_return k)
    (ticks k) (free_pages k).
Definition set_idle_ticks (v : Z) (k : kernel) : kernel :=
  mk_kernel (threads k) (locks k) (ready_list k) (all_list k)
    (idle_thread k) (initial_thread k) (load_avg k) v (kernel_ticks k)
    (user_ticks k) (thread_ticks k) (thread_mlfqs k) (next_tid k)
    (running k) (level k) (in_external_intr k) (yield_on_return k)
    (ticks k) (free_pages k).
Definition set_kernel_ticks (v : Z) (k : kernel) : kernel :=
  mk_kernel (threads k) (locks k) (ready_list k) (all_list k)
    (idle_thread k) (initial_thread k) (load_avg k) (idle_ticks k) v
    (user_ticks k) (thread_ticks k) (thread_mlfqs k) (next_tid k)
    (running k) (level k) (in_external_intr k) (yield_on_return k)
    (ticks k) (free_pages k).
Definition set_thread_ticks (v : Z) (k : kernel) : kernel :=
  mk_kernel (threads k) (locks k) (ready_list k) (all_list k)
    (idle_thread k) (initial_thread k) (load_avg k) (idle_ticks k)
    (kernel_ticks k) (user_ticks k) v (thread_mlfqs k) (next_tid k)
    (running k) (level k) (in_external_intr k) (yield_on_return k)
    (ticks k) (free_pages k).
Definition set_next_tid (v : Z) (k : kernel) : kernel :=
  mk_kernel (threads k) (locks k) (ready_list k) (all_list k)
    (idle_thread k) (initial_thread k) (load_avg k) (idle_ticks k)
    (kernel_ticks k) (user_ticks k) (thread_ticks k) (thread_mlfqs k) v
    (running k) (level k) (in_external_intr k) (yield_on_return k)
    (ticks k) (free_pages k).
Definition set_running (v : ptr) (k : kernel) : kernel :=
  mk_kernel (threads k) (locks k) (ready_list k) (all_list k)
    (idle_thread k) (initial_thread k) (load_avg k) (idle_ticks k)
    (kernel_ticks k) (user_ticks k) (thread_ticks k) (thread_mlfqs k)
    (next_tid k) v (level k) (in_external_intr k) (yield_on_return k)
    (ticks k) (free_pages k).
Definition set_level (v : intr_level) (k : kernel) : kernel :=
  mk_kernel (threads k) (locks k) (ready_list k) (all_list k)
    (idle_thread k) (initial_thread k) (load_avg k) (idle_ticks k)
    (kernel_ticks k) (user_ticks k) (thread_ticks k) (thread_mlfqs k)
    (next_tid k) (running k) v (in_external_intr k) (yield_on_return k)
    (ticks k) (free_pages k).
Definition set_yield_on_return (v : bool) (k : kernel) : kernel :=
  mk_kernel (threads k) (locks k) (ready_list k) (all_list k)
    (idle_thread k) (initial_thread k) (load_avg k) (idle_ticks k)
    (kernel_ticks k) (user_ticks k) (thread_ticks k) (thread_mlfqs k)
    (next_tid k) (running k) (level k) (in_external_intr k) v
    (ticks k) (free_pages k).
Definition set_free_pages (v : list ptr) (k : kernel) : kernel :=
  mk_kernel (threads k) (locks k) (ready_list k) (all_list k)
    (idle_thread k) (initial_thread k) (load_avg k) (idle_ticks k)
    (kernel_ticks k) (user_ticks k) (thread_ticks k) (thread_mlfqs k)
    (next_tid k) (running k) (level k) (in_external_intr k)
    (yield_on_return k) (ticks k) v.

(** ** Computations over the kernel state *)

(** A function of [thread.c] run from a kernel state returns a value and a
    new state ([Done]), halts the kernel on a failed assertion or on an
    access through a pointer that addresses no thread or lock ([Panic]),
    or is still inside a loop when the steps it was allowed are used up
    ([Spin]). *)
Inductive outcome (A : Type) : Type :=
| Done (a : A) (k : kernel)
| Panic
| Spin.

Arguments Done {A} a k.
Arguments Panic {A}.
Arguments Spin {A}.

Definition kern (A : Type) : Type := kernel → outcome A.

#[global] Instance kern_ret : MRet kern := λ A a k, Done a k.

#[global] Instance kern_bind : MBind kern := λ A B f m k,
  match m k with
  | Done a k' => f a k'
  | Panic => Panic
  | Spin => Spin
  end.

Definition gets {A : Type} (f : kernel → A) : kern A := λ k, Done (f k) k.

Definition modify (f : kernel → kernel) : kern unit := λ k, Done tt (f k).

Definition panic {A : Type} : kern A := λ _, Panic.

Definition ASSERT (b : bool) : kern unit :=
  if b then mret tt else panic.

(** [t->field] *)
Definition load (t : ptr) : kern thread := λ k,
  match threads k !! t with
  | Some th => Done th k
  | None => Panic
  end.

(** [t->field = v] *)
Definition store (t : ptr) (f : thread → thread) : kern unit := λ k,
  match threads k !! t with
  | Some th => Done tt (set_threads (<[t := f th]> (threads k)) k)
  | None => Panic
  end.

Definition load_lock (l : ptr) : kern lock := λ k,
  match locks k !! l with
  | Some lk => Done lk k
  | None => Panic
  end.

(** ** Collaborators *)

(** Modelled from the spec: [threads/interrupt.c], [devices/timer.c] and
    [threads/palloc.c] are not among the sources. The interrupt subsystem
    reads and sets the level, tells whether an external interrupt is being
    handled and records a yield request; the timer returns its tick count;
    the allocator returns a zeroed page, or null when none is left. *)
Definition intr_get_level : kern intr_level := gets level.

Definition intr_set_level (l : intr_level) : kern intr_level :=
  old ← gets level; modify (set_level l);; mret old.

Definition intr_disable : kern intr_level := intr_set_level INTR_OFF.

Definition intr_context : kern bool := gets in_external_intr.

Definition intr_yield_on_return : kern unit :=
  modify (set_yield_on_return true).

Definition timer_ticks : kern Z := gets ticks.

Definition zero_page : thread :=
  mk_thread 0 THREAD_RUNNING EmptyString 0 0 0 [] NEXT_NULL NULL 0 0 0.

Definition palloc_get_page : kern ptr := λ k,
  match free_pages k with
  | [] => Done NULL k
  | p :: rest =>
      Done p (set_free_pages rest
                (set_threads (<[p := zero_page]> (threads k)) k))
  end.

Definition palloc_free_page (p : ptr) : kern unit :=
  modify (λ k, set_free_pages (p :: free_pages k)
                 (set_threads (delete p (threads k)) k)).

(** ** thread.c *)

(** The build is the threads project: [USERPROG] is not defined. *)

(** [pg_round_down (esp)]: the page of the stack the processor runs on. *)
Definition running_thread : kern ptr := gets running.

Definition is_thread (t : ptr) : kern bool :=
  if (t =? NULL)%N then mret false
  else th ← load t; mret (magic th =? THREAD_MAGIC).

Definition thread_current : kern ptr :=
  t ← running_thread;
  b ← is_thread t; ASSERT b;;
  th ← load t; ASSERT (bool_decide (status th = THREAD_RUNNING));;
  mret t.

Definition thread_get_priority : kern Z :=
  t ← thread_current; th ← load t; mret (priority th).

(** The comparison callbacks read the priorities of the two threads from
    memory as it is when the list function runs. The lists they are used
    on link thread pages only; an address that holds no thread reads
    as 0. *)
Definition priority_at (k : kernel) (t : ptr) : Z :=
  match threads k !! t with
  | Some th => priority th
  | None => 0
  end.

Definition thread_compare_priority (k : kernel) (a b : ptr) : bool :=
  priority_at k a >? priority_at k b.

Definition thread_compare_donation (k : kernel) (a b : ptr) : bool :=
  priority_at k a >? priority_at k b.

(** [list_insert_ordered (&ready_list, &t->elem, thread_compare_priority,
    NULL)] *)
Definition ready_list_insert_ordered (t : ptr) : kern unit :=
  modify (λ k, set_ready_list
                 (list_insert_ordered (thread_compare_priority k) t
                    (ready_list k)) k).

(** [list_insert_ordered (&holder->donations, &t->dona_elem,
    thread_compare_donation, NULL)]: the holder's list gains [t], and the
    library makes [t->dona_elem.next] point at the element [t] was put in
    front of. *)
Definition donations_insert_ordered (h t : ptr) : kern unit :=
  (λ k, store h (λ th, set_donations
                         (list_insert_ordered (thread_compare_donation k) t
                            (donations th)) th) k);;
  store t (set_dona_elem_next NEXT_ELEM).

(** [list_remove (&t->dona_elem)]: the hook leaves the donations list it is
    linked into; the library leaves the hook's own pointers as they are. *)
Definition donations_remove (t : ptr) : kern unit :=
  modify (λ k, set_threads
                 ((λ th, set_donations (list_remove t (donations th)) th)
                    <$> threads k) k).

(** *** Creation *)

(** [tid_lock] is taken and released around the increment; it is free
    whenever a thread reaches it here, and the two calls leave the
    scheduler's variables as they are. The counter is the static local
    [next_tid] of the function; its initialiser, 1, is the value the field
    has at boot ([booted] below). *)
Definition allocate_tid : kern Z :=
  tid ← gets next_tid;
  modify (set_next_tid (int32 (tid + 1)));;
  mret tid.

(** [name] is never null here. [memset] zeroes the page, [strlcpy] keeps
    what fits in [char name[16]] with its terminator, and [list_init]
    leaves [donations] empty. *)
Definition init_thread (t : ptr) (name : string) (priority : Z) : kern unit :=
  ASSERT (negb (t =? NULL)%N);;
  ASSERT ((PRI_MIN <=? priority) && (priority <=? PRI_MAX));;
  store t (λ _, mk_thread 0 THREAD_BLOCKED (String.substring 0 15 name)
                  (Z.of_N t + PGSIZE) priority priority [] NEXT_NULL NULL
                  0 0 THREAD_MAGIC);;
  old_level ← intr_disable;
  modify (λ k, set_all_list (list_push_back (all_list k) t) k);;
  intr_set_level old_level;;
  mret tt.

Definition alloc_frame (t : ptr) (size : Z) : kern Z :=
  b ← is_thread t; ASSERT b;;
  ASSERT (Z.rem size 4 =? 0);;
  th ← load t;
  store t (set_stack (stack th - size));;
  mret (stack th - size).

(** [sizeof (struct kernel_thread_frame)]: three 32-bit pointers. The
    other two frames are declared in [threads/switch.h]: one and seven
    32-bit words. *)
Definition sizeof_kernel_thread_frame : Z := 12.
Definition sizeof_switch_entry_frame : Z := 4.
Definition sizeof_switch_threads_frame : Z := 28.

Definition thread_unblock (t : ptr) : kern unit :=
  b ← is_thread t; ASSERT b;;
  old_level ← intr_disable;
  th ← load t; ASSERT (bool_decide (status th = THREAD_BLOCKED));;
  ready_list_insert_ordered t;;
  store t (set_status THREAD_READY);;
  intr_set_level old_level;;
  mret tt.

(** *** Choosing and switching *)

Definition next_thread_to_run : kern ptr :=
  rl ← gets ready_list;
  match rl with
  | [] => gets idle_thread
  | t :: rest => modify (set_ready_list rest);; mret t
  end.

(** The raw switch: from its return on, the processor runs on the stack of
    [next], and the value returned there is the thread switched from. *)
Definition switch_threads (cur next : ptr) : kern ptr :=
  modify (set_running next);; mret cur.

Definition thread_schedule_tail (prev : ptr) : kern unit :=
  cur ← running_thread;
  lvl ← intr_get_level; ASSERT (bool_decide (lvl = INTR_OFF));;
  store cur (set_status THREAD_RUNNING);;
  modify (set_thread_ticks 0);;
  if (prev =? NULL)%N then mret tt
  else
    p ← load prev;
    init ← gets initial_thread;
    if bool_decide (status p = THREAD_DYING) && negb (prev =? init)%N
    then ASSERT (negb (prev =? cur)%N);; palloc_free_page prev
    else mret tt.

Fixpoint foreach (func : ptr → kern unit) (l : list ptr) : kern unit :=
  match l with
  | [] => mret tt
  | t :: rest => func t;; foreach func rest
  end.

Definition thread_foreach (func : ptr → kern unit) : kern unit :=
  lvl ← intr_get_level; ASSERT (bool_decide (lvl = INTR_OFF));;
  al ← gets all_list;
  foreach func al.

(** *** The multi-level feedback queue formulas *)

(** The arithmetic of [thread_calculate_bsd_priority] on the thread's
    [recent_cpu] and [nice]. *)
Definition bsd_priority (recent_cpu nice : Z) : Z :=
  let fp_priority_max := convert_to_fixed_point PRI_MAX in
  let temp_recent_cpu := div_fixed_by_int recent_cpu 4 in
  let temp_nice := convert_to_fixed_point (int32 (nice * 2)) in
  let result := fixed_subtract_fixed fp_priority_max temp_recent_cpu in
  let result := fixed_subtract_fixed result temp_nice in
  let new_priority := convert_to_int_round_down result in
  if new_priority <? PRI_MIN then PRI_MIN
  else if new_priority >? PRI_MAX then PRI_MAX
  else new_priority.

Definition thread_calculate_bsd_priority (t : ptr) : kern unit :=
  m ← gets thread_mlfqs; ASSERT m;;
  b ← is_thread t; ASSERT b;;
  th ← load t;
  store t (set_priority (bsd_priority (recent_cpu th) (nice th))).

Definition get_ready_threads_size : kern Z :=
  m ← gets thread_mlfqs; ASSERT m;;
  rl ← gets ready_list;
  let size := int32 (list_size rl) in
  cur ← thread_current;
  idle ← gets idle_thread;
  if negb (cur =? idle)%N then mret (int32 (size + 1)) else mret size.

(** The arithmetic of [thread_calculate_load_avg] on the old [load_avg]
    and the value of [get_ready_threads_size ()]. *)
Definition next_load_avg (load_avg ready_threads : Z) : Z :=
  let fp_59 := convert_to_fixed_point 59 in
  let fp_1 := convert_to_fixed_point 1 in
  let temp_load_avg := div_fixed_by_int fp_59 60 in
  let temp_ready_coeff := div_fixed_by_int fp_1 60 in
  let temp_load_avg := int32 (multiply_fixed_by_fixed temp_load_avg load_avg) in
  let temp_ready_coeff := multiply_fixed_by_int temp_ready_coeff ready_threads in
  add_fixed_to_fixed temp_load_avg temp_ready_coeff.

Definition thread_calculate_load_avg : kern unit :=
  m ← gets thread_mlfqs; ASSERT m;;
  la ← gets load_avg;
  n ← get_ready_threads_size;
  modify (set_load_avg (next_load_avg la n)).

(** A division by zero traps. *)
Definition thread_calculate_recent_cpu (t : ptr) : kern unit :=
  m ← gets thread_mlfqs; ASSERT m;;
  th ← load t;
  la ← gets load_avg;
  let recent_cpu := recent_cpu th in
  let temp_load_avg := multiply_fixed_by_int la 2 in
  let temp_sum := add_fixed_to_int temp_load_avg 1 in
  if temp_sum =? 0 then panic
  else
    let coefficient := int32 (div_fixed_by_fixed temp_load_avg temp_sum) in
    let recent_cpu := int32 (multiply_fixed_by_fixed coefficient recent_cpu) in
    let recent_cpu := add_fixed_to_int recent_cpu (nice th) in
    store t (set_recent_cpu recent_cpu).

Definition thread_recalculate_bsd_variables : kern unit :=
  m ← gets thread_mlfqs; ASSERT m;;
  t ← thread_current;
  idle ← gets idle_thread;
  (if negb (t =? idle)%N
   then th ← load t;
        ASSERT (bool_decide (status th = THREAD_RUNNING));;
        store t (set_recent_cpu (add_fixed_to_int (recent_cpu th) 1))
   else mret tt);;
  now ← timer_ticks;
  if Z.rem now TIMER_FREQ =? 0
  then thread_calculate_load_avg;;
       thread_foreach thread_calculate_recent_cpu
  else mret tt.

Definition thread_get_nice : kern Z :=
  m ← gets thread_mlfqs; ASSERT m;;
  t ← thread_current; th ← load t; mret (nice th).

Definition thread_get_load_avg : kern Z :=
  m ← gets thread_mlfqs; ASSERT m;;
  la ← gets load_avg;
  mret (convert_to_int_round_nearest (multiply_fixed_by_int la 100)).

Definition thread_get_recent_cpu : kern Z :=
  m ← gets thread_mlfqs; ASSERT m;;
  t ← thread_current; th ← load t;
  mret (convert_to_int_round_nearest
          (multiply_fixed_by_int (recent_cpu th) 100)).

(** *** Scheduling *)

Definition schedule : kern unit :=
  cur ← running_thread;
  next ← next_thread_to_run;
  lvl ← intr_get_level; ASSERT (bool_decide (lvl = INTR_OFF));;
  c ← load cur; ASSERT (bool_decide (status c ≠ THREAD_RUNNING));;
  b ← is_thread next; ASSERT b;;
  m ← gets thread_mlfqs;
  (if m : bool
   then thread_foreach thread_calculate_bsd_priority;;
        modify (λ k, set_ready_list
                       (list_sort (thread_compare_priority k) (ready_list k))
                       k)
   else mret tt);;
  prev ← (if negb (cur =? next)%N then switch_threads cur next
          else mret NULL);
  thread_schedule_tail prev.

Definition thread_block : kern unit :=
  c ← intr_context; ASSERT (negb c);;
  lvl ← intr_get_level; ASSERT (bool_decide (lvl = INTR_OFF));;
  cur ← thread_current;
  store cur (set_status THREAD_BLOCKED);;
  schedule.

(** [schedule ()] returns on the stack of the thread it dispatched. When
    that is the caller itself, nothing was switched and the caller goes
    on: it restores its interrupt level and returns. When it is another
    thread, the caller's [intr_set_level (old_level)] runs only once the
    caller is dispatched again; the computation below then follows the
    processor up to the return of [schedule ()]. *)
Definition thread_yield : kern unit :=
  cur ← thread_current;
  c ← intr_context; ASSERT (negb c);;
  old_level ← intr_disable;
  idle ← gets idle_thread;
  (if negb (cur =? idle)%N then ready_list_insert_ordered cur
   else mret tt);;
  store cur (set_status THREAD_READY);;
  schedule;;
  now ← running_thread;
  if (now =? cur)%N then intr_set_level old_level;; mret tt
  else mret tt.

(** [NOT_REACHED ()] follows [schedule ()]: the thread is never dispatched
    again. *)
Definition thread_exit : kern unit :=
  c ← intr_context; ASSERT (negb c);;
  intr_disable;;
  cur ← thread_current;
  modify (λ k, set_all_list (list_remove cur (all_list k)) k);;
  cur ← thread_current;
  store cur (set_status THREAD_DYING);;
  schedule.

Definition thread_get_max_priority : kern Z :=
  let return_val := PRI_MIN - 1 in
  old_level ← intr_disable;
  rl ← gets ready_list;
  return_val ← match rl with
               | [] => mret return_val
               | t :: _ => th ← load t; mret (priority th)
               end;
  intr_set_level old_level;;
  mret return_val.

Definition thread_max_yield : kern unit :=
  m ← thread_get_max_priority;
  p ← thread_get_priority;
  if m >? p
  then c ← intr_context;
       if c : bool then intr_yield_on_return else thread_yield
  else mret tt.

Definition thread_tick : kern unit :=
  t ← thread_current;
  idle ← gets idle_thread;
  (if (t =? idle)%N
   then modify (λ k, set_idle_ticks (int64 (idle_ticks k + 1)) k)
   else modify (λ k, set_kernel_ticks (int64 (kernel_ticks k + 1)) k));;
  m ← gets thread_mlfqs;
  (if m : bool then thread_recalculate_bsd_variables else mret tt);;
  modify (λ k, set_thread_ticks (uint32 (thread_ticks k + 1)) k);;
  tt' ← gets thread_ticks;
  if tt' >=? TIME_SLICE then intr_yield_on_return else mret tt.

(** [function] and [aux] are addresses; the three frames are laid on the
    new stack, and of them the scheduler state keeps the stack pointer.
    When [thread_max_yield] switches to another thread, [return tid] is
    executed once the creating thread is dispatched again; the value is
    fixed before the switch. *)
Definition thread_create (name : string) (priority : Z) (function aux : ptr)
  : kern Z :=
  ASSERT (negb (function =? NULL)%N);;
  t ← palloc_get_page;
  if (t =? NULL)%N then mret TID_ERROR
  else
    init_thread t name priority;;
    tid ← allocate_tid;
    store t (set_tid tid);;
    old_level ← intr_disable;
    alloc_frame t sizeof_kernel_thread_frame;;
    alloc_frame t sizeof_switch_entry_frame;;
    alloc_frame t sizeof_switch_threads_frame;;
    intr_set_level old_level;;
    thread_unblock t;;
    thread_max_yield;;
    mret tid.

(** *** Priorities and donation *)

Definition thread_get_donated_priority (t : ptr) : kern Z :=
  b ← is_thread t; ASSERT b;;
  old_level ← intr_disable;
  let donated_priority := PRI_MIN - 1 in
  th ← load t;
  donated_priority ← match donations th with
                     | [] => mret donated_priority
                     | doner :: _ => d ← load doner; mret (priority d)
                     end;
  intr_set_level old_level;;
  mret donated_priority.

Definition thread_reinsert_ready_list (t : ptr) : kern unit :=
  th ← load t;
  if bool_decide (status th = THREAD_READY)
  then
    lvl ← intr_get_level; ASSERT (bool_decide (lvl = INTR_OFF));;
    modify (λ k, set_ready_list (list_remove t (ready_list k)) k);;
    ready_list_insert_ordered t
  else mret tt.

Definition thread_reset_priority (t : ptr) : kern unit :=
  b ← is_thread t; ASSERT b;;
  old_level ← intr_disable;
  donated_priority ← thread_get_donated_priority t;
  th ← load t;
  (if donated_priority >? base_priority th
   then store t (set_priority donated_priority)
   else store t (set_priority (base_priority th)));;
  thread_reinsert_ready_list t;;
  intr_set_level old_level;;
  mret tt.

Definition thread_set_priority (new_priority : Z) : kern unit :=
  ASSERT ((PRI_MIN <=? new_priority) && (new_priority <=? PRI_MAX));;
  m ← gets thread_mlfqs;
  if negb m
  then
    cur ← thread_current;
    store cur (set_base_priority new_priority);;
    cur ← thread_current;
    thread_reset_priority cur;;
    thread_max_yield
  else mret tt.

Definition thread_remove_donation (t : ptr) : kern unit :=
  lvl ← intr_get_level; ASSERT (bool_decide (lvl = INTR_OFF));;
  b ← is_thread t; ASSERT b;;
  th ← load t;
  if bool_decide (dona_elem_next th ≠ NEXT_NULL)
  then donations_remove t;;
       store t (set_dona_elem_next NEXT_NULL)
  else mret tt.

(** The [while] of [thread_donate_priority], run for at most [steps]
    evaluations of its condition; it returns the thread the walk ends
    at. *)
Fixpoint donate_walk (steps : nat) (t : ptr) : kern ptr :=
  match steps with
  | O => λ _, Spin
  | S steps' =>
      th ← load t;
      if negb (required_lock th =? NULL)%N
      then
        thread_reset_priority t;;
        th ← load t;
        lk ← load_lock (required_lock th);
        let h := holder lk in
        ASSERT (negb (h =? t)%N);;
        cur ← thread_current;
        (if negb (cur =? t)%N then thread_remove_donation t else mret tt);;
        if negb (h =? NULL)%N
        then
          b ← is_thread h; ASSERT b;;
          donations_insert_ordered h t;;
          donate_walk steps' h
        else donate_walk steps' t
      else mret t
  end.

Definition thread_donate_priority (steps : nat) (t : ptr) : kern unit :=
  lvl ← intr_get_level; ASSERT (bool_decide (lvl = INTR_OFF));;
  b ← is_thread t; ASSERT b;;
  t ← donate_walk steps t;
  thread_reset_priority t.

Definition thread_set_nice (nice : Z) : kern unit :=
  m ← gets thread_mlfqs; ASSERT m;;
  ASSERT ((nice >=? NICE_MIN) && (nice <=? NICE_MAX));;
  t ← thread_current;
  store t (set_nice nice);;
  thread_calculate_bsd_priority t;;
  thread_reinsert_ready_list t;;
  thread_max_yield.

(** ** Vocabulary of the properties *)

(** [valid k t th]: [t] addresses the thread [th], which [is_thread]
    accepts. *)
Definition valid (k : kernel) (t : ptr) (th : thread) : Prop :=
  t ≠ NULL ∧ threads k !! t = Some th ∧ magic th = THREAD_MAGIC.

Definition thread_ok (k : kernel) (t : ptr) : Prop :=
  ∃ th, valid k t th.

(** The running thread is a thread in state [THREAD_RUNNING], and the two
    lists link threads. *)
Record well_formed (k : kernel) : Prop := mk_well_formed {
  wf_running : ∃ cur, valid k (running k) cur ∧ status cur = THREAD_RUNNING;
  wf_ready : Forall (thread_ok k) (ready_list k);
  wf_all : Forall (thread_ok k) (all_list k)
}.

(** [returns m k post]: run from [k], [m] returns, with a value and a
    state that satisfy [post]. *)
Definition returns {A : Type} (m : kern A) (k : kernel)
    (post : A → kernel → Prop) : Prop :=
  ∃ a k', m k = Done a k' ∧ post a k'.

(** [preserves R m]: whenever [m] returns, the states before and after
    are related by [R]. *)
Definition preserves {A : Type} (R : relation kernel) (m : kern A) : Prop :=
  ∀ k a k', m k = Done a k' → R k k'.

(** [halts m]: [m] has no loop to stay in. *)
Definition halts {A : Type} (m : kern A) : Prop :=
  ∀ k, m k ≠ Spin.

(** What [thread_get_donated_priority] returns. *)
Definition donated_priority (k : kernel) (th : thread) : Z :=
  match donations th with
  | [] => PRI_MIN - 1
  | doner :: _ => priority_at k doner
  end.

Definition reset_priority_value (k : kernel) (th : thread) : Z :=
  if donated_priority k th >? base_priority th
  then donated_priority k th
  else base_priority th.

(** The state [thread_reset_priority (t)] leaves. *)
Definition after_reset (k : kernel) (t : ptr) (th : thread) : kernel :=
  let k1 :=
    set_threads (<[t := set_priority (reset_priority_value k th) th]>
                   (threads k)) k in
  if bool_decide (status th = THREAD_READY)
  then set_ready_list
         (list_insert_ordered (thread_compare_priority k1) t
            (list_remove t (ready_list k))) k1
  else k1.

(** The spec's [ready_thread_count]. *)
Definition ready_thread_count (k : kernel) : Z :=
  list_size (ready_list k)
  + (if (running k =? idle_thread k)%N then 0 else 1).

(** The spec's recurrence [(59/60)·load_avg + (1/60)·ready_thread_count]
    evaluated exactly, in units of [1/F] like the stored value. *)
Definition exact_next_load_avg (la n : Z) : QArith_base.Q :=
  ((59 # 60) * inject_Z la + (1 # 60) * inject_Z (n * F))%Q.

(** The stored fixed-point value is within one unit in the last place of
    the exact one. *)
Definition within_one_ulp (stored : Z) (exact : QArith_base.Q) : Prop :=
  (Qabs (inject_Z stored - exact) <= 1)%Q.

(** [repriced k k']: the two states differ in [priority] fields only. *)
Definition repriced (k k' : kernel) : Prop :=
  k' = set_threads (threads k') k ∧
  ∀ t, set_priority 0 <$> threads k' !! t = set_priority 0 <$> threads k !! t.

(** [rescheduled k k']: the two states differ in [priority] fields and in
    the order of the ready list only. *)
Definition rescheduled (k k' : kernel) : Prop :=
  ∃ k1, repriced k k1 ∧ k' = set_ready_list (ready_list k') k1.

(** What [thread_get_max_priority] returns. *)
Definition max_ready_priority (k : kernel) : Z :=
  match ready_list k with
  | [] => PRI_MIN - 1
  | t :: _ => priority_at k t
  end.

#[global] Arguments int32 : simpl never.
#[global] Arguments int64 : simpl never.
#[global] Arguments uint32 : simpl never.
#[global] Arguments bsd_priority : simpl never.
#[global] Arguments next_load_avg : simpl never.

(** [same_priorities k k']: every [priority] field and the ready list are
    as they were. *)
Definition same_priorities (k k' : kernel) : Prop :=
  ready_list k' = ready_list k ∧ ∀ t, priority_at k' t = priority_at k t.

(** [same_chain k k']: every lock and every [required_lock] field are as
    they were. *)
Definition same_chain (k k' : kernel) : Prop :=
  locks k' = locks k ∧
  ∀ t, required_lock <$> threads k' !! t = required_lock <$> threads k !! t.

(** [donation_chain k t n]: following [required_lock] and [holder] from
    [t] reaches, after [n] locks that all have a holder, a thread that
    waits for no lock. *)
Inductive donation_chain (k : kernel) : ptr → nat → Prop :=
| chain_end t th :
    threads k !! t = Some th →
    required_lock th = NULL →
    donation_chain k t 0
| chain_step t th lk n :
    threads k !! t = Some th →
    required_lock th ≠ NULL →
    locks k !! required_lock th = Some lk →
    holder lk ≠ NULL →
    donation_chain k (holder lk) n →
    donation_chain k t (S n).

(** ** Example states *)

(** A thread that runs with priority 31 and holds lock 9, for which the
    threads 2 and 3 wait: both are linked into its donations list, the
    higher priority in front. *)
Definition priority_kernel : kernel :=
  mk_kernel
    {[ 1%N := mk_thread 1 THREAD_RUNNING "main" 4096 31 31 [2%N; 3%N]
                NEXT_NULL NULL 0 0 THREAD_MAGIC;
       2%N := mk_thread 2 THREAD_BLOCKED "high" 8192 40 40 []
                NEXT_ELEM 9%N 0 0 THREAD_MAGIC;
       3%N := mk_thread 3 THREAD_BLOCKED "mid" 12288 35 35 []
                NEXT_ELEM 9%N 0 0 THREAD_MAGIC ]}
    {[ 9%N := mk_lock 1%N ]}
    [] [1%N; 2%N; 3%N] NULL 1%N 0 0 0 0 0 false 4 1%N INTR_OFF false false 0
    [8%N].

(** The running thread is about to wait for lock 9, which has been
    released in the meantime: its holder is null. *)
Definition free_lock_kernel : kernel :=
  mk_kernel
    {[ 1%N := mk_thread 1 THREAD_RUNNING "main" 4096 31 31 []
                NEXT_NULL 9%N 0 0 THREAD_MAGIC ]}
    {[ 9%N := mk_lock NULL ]}
    [] [1%N] NULL 1%N 0 0 0 0 0 false 2 1%N INTR_OFF false false 0 [].

(** The feedback-queue scheduler at the fourth timer tick: thread 1 runs,
    with [recent_cpu] 40 and a priority of 63 computed when it had none;
    threads 2 and 3 are ready, with [recent_cpu] 200 and 0 and the stored
    priorities 20 and 10; thread 4 is the idle thread; [load_avg] is 3. *)
Definition mlfqs_kernel (lvl : intr_level) (external : bool) : kernel :=
  mk_kernel
    {[ 1%N := mk_thread 1 THREAD_RUNNING "main" 4096 63 63 []
                NEXT_NULL NULL 0 (40 * F) THREAD_MAGIC;
       2%N := mk_thread 2 THREAD_READY "a" 8192 20 20 []
                NEXT_NULL NULL 0 (200 * F) THREAD_MAGIC;
       3%N := mk_thread 3 THREAD_READY "b" 12288 10 10 []
                NEXT_NULL NULL 0 0 THREAD_MAGIC;
       4%N := mk_thread 4 THREAD_BLOCKED "idle" 16384 0 0 []
                NEXT_NULL NULL 0 0 THREAD_MAGIC ]}
    ∅
    [2%N; 3%N] [1%N; 2%N; 3%N; 4%N] 4%N 1%N (3 * F) 0 3 0 3 true 5 1%N
    lvl external false 4 [].

(** ** Start-up and identity *)

Definition set_initial_thread (v : ptr) (k : kernel) : kernel :=
  mk_kernel (threads k) (locks k) (ready_list k) (all_list k) (idle_thread k)
    v (load_avg k) (idle_ticks k) (kernel_ticks k) (user_ticks k)
    (thread_ticks k) (thread_mlfqs k) (next_tid k) (running k) (level k)
    (in_external_intr k) (yield_on_return k) (ticks k) (free_pages k).

(** [lock_init (&tid_lock)] leaves the scheduler's variables as they are;
    [list_init] empties a list. *)
Definition thread_init : kern unit :=
  lvl ← intr_get_level; ASSERT (bool_decide (lvl = INTR_OFF));;
  modify (set_ready_list []);;
  modify (set_all_list []);;
  modify (set_load_avg 0);;
  t ← running_thread;
  modify (set_initial_thread t);;
  init_thread t "main" PRI_DEFAULT;;
  store t (set_status THREAD_RUNNING);;
  tid ← allocate_tid;
  store t (set_tid tid).

Definition thread_name : kern string :=
  t ← thread_current; th ← load t; mret (name th).

Definition thread_tid : kern Z :=
  t ← thread_current; th ← load t; mret (tid th).

(** ** Vocabulary of the further properties *)


(** The ready list is in descending order of priority. *)
Definition ready_sorted (k : kernel) : Prop :=
  Sorted Z.ge (map (priority_at k) (ready_list k)).

(** The state after [palloc_free_page (p)]. *)
Definition release_page (p : ptr) (k : kernel) : kernel :=
  set_free_pages (p :: free_pages k) (set_threads (delete p (threads k)) k).

(** The state in which [schedule] leaves [k2], the state after its
    bookkeeping, once [next] has been dispatched. *)
Definition dispatch (next : ptr) (nth : thread) (k2 : kernel) : kernel :=
  set_thread_ticks 0
    (set_threads (<[next := set_status THREAD_RUNNING nth]> (threads k2))
       (set_running next k2)).

(** [recomputed k k']: in [k'] every thread on the list of all threads
    has the priority the feedback-queue formula gives it, and the ready
    list of [k] has been sorted by the new priorities. *)
Definition recomputed (k k' : kernel) : Prop :=
  (∀ t th, t ∈ all_list k → threads k !! t = Some th →
           threads k' !! t
           = Some (set_priority (bsd_priority (recent_cpu th) (nice th)) th)) ∧
  (∀ t, t ∉ all_list k → threads k' !! t = threads k !! t) ∧
  ready_list k' ≡ₚ ready_list k ∧
  ready_sorted k'.

(** The arithmetic of [thread_calculate_recent_cpu] on [load_avg] and the
    thread's [recent_cpu] and [nice]. *)
Definition next_recent_cpu (load_avg recent_cpu nice : Z) : Z :=
  let temp_load_avg := multiply_fixed_by_int load_avg 2 in
  let temp_sum := add_fixed_to_int temp_load_avg 1 in
  let coefficient := int32 (div_fixed_by_fixed temp_load_avg temp_sum) in
  let recent_cpu := int32 (multiply_fixed_by_fixed coefficient recent_cpu) in
  add_fixed_to_int recent_cpu nice.

#[global] Arguments next_recent_cpu : simpl never.

(** The timer advances its tick count between two interrupts. *)
Definition set_ticks (v : Z) (k : kernel) : kernel :=
  mk_kernel (threads k) (locks k) (ready_list k) (all_list k) (idle_thread k)
    (initial_thread k) (load_avg k) (idle_ticks k) (kernel_ticks k)
    (user_ticks k) (thread_ticks k) (thread_mlfqs k) (next_tid k) (running k)
    (level k) (in_external_intr k) (yield_on_return k) v (free_pages k).

(** [same_slice k k']: the length of the time slice and the yield request
    are as they were. *)
Definition same_slice (k k' : kernel) : Prop :=
  thread_ticks k' = thread_ticks k ∧ yield_on_return k' = yield_on_return k.

(** ** The tid counter *)

(** [same_next_tid k k']: the tid counter is as it was. *)
Definition same_next_tid (k k' : kernel) : Prop := next_tid k' = next_tid k.

(** [tid_step k k']: the tid counter is as it was or has been incremented
    once. *)
Definition tid_step (k k' : kernel) : Prop :=
  next_tid k' = next_tid k ∨ next_tid k' = int32 (next_tid k + 1).

(** The variables of [thread.c] when the kernel starts: [next_tid] has the
    initialiser of [static tid_t next_tid = 1]; the other scalars have
    static storage and no initialiser, so they are zero. The two lists
    are of no use before the [list_init] of [thread_init], and nothing is
    said of them. *)
Definition booted (k : kernel) : Prop :=
  next_tid k = 1 ∧
  idle_thread k = NULL ∧ initial_thread k = NULL ∧
  load_avg k = 0 ∧
  idle_ticks k = 0 ∧ kernel_ticks k = 0 ∧ user_ticks k = 0 ∧
  thread_ticks k = 0.

(** The states the kernel can be in. [next_tid] is a static local of
    [allocate_tid], which [thread_init] and [thread_create] call and no
    other function does: any other code, of [thread.c] or not, leaves the
    counter alone, whatever else it changes ([reach_elsewhere]). A call of
    the two is followed only while the counter can be incremented: signed
    overflow has no defined behaviour in C. *)
Inductive reachable : kernel → Prop :=
| reach_boot k :
    booted k → reachable k
| reach_thread_init k k' :
    reachable k → next_tid k < INT_MAX →
    thread_init k = Done tt k' →
    reachable k'
| reach_thread_create k name priority function aux tid k' :
    reachable k → next_tid k < INT_MAX →
    thread_create name priority function aux k = Done tid k' →
    reachable k'
| reach_elsewhere k k' :
    reachable k → same_next_tid k k' →
    reachable k'.

(** The kernel at boot, on the page 1 of the loader's stack, with
    interrupts off and the pages 8 and 9 free. *)
Definition boot_kernel : kernel :=
  mk_kernel {[ 1%N := zero_page ]} ∅ [] [] NULL NULL 0 0 0 0 0 false 1 1%N
    INTR_OFF false false 0 [8%N; 9%N].

(** The kernel after [thread_init] at boot. *)
Definition started_kernel : kernel :=
  match thread_init boot_kernel with
  | Done _ k => k
  | _ => boot_kernel
  end.

(** The priority scheduler with interrupts at level [lvl]: thread 1 runs
    with priority [prio]; threads 2 and 3 are ready with priorities 31 and
    20; thread 4 is the idle thread; page 8 is free. *)
Definition ready_kernel (prio : Z) (lvl : intr_level) : kernel :=
  mk_kernel
    {[ 1%N := mk_thread 1 THREAD_RUNNING "main" 4096 prio prio []
                NEXT_NULL NULL 0 0 THREAD_MAGIC;
       2%N := mk_thread 2 THREAD_READY "a" 8192 31 31 []
                NEXT_NULL NULL 0 0 THREAD_MAGIC;
       3%N := mk_thread 3 THREAD_READY "b" 12288 20 20 []
                NEXT_NULL NULL 0 0 THREAD_MAGIC;
       4%N := mk_thread 4 THREAD_BLOCKED "idle" 16384 0 0 []
                NEXT_NULL NULL 0 0 THREAD_MAGIC ]}
    ∅
    [2%N; 3%N] [1%N; 2%N; 3%N; 4%N] 4%N 1%N 0 0 3 0 3 false 5 1%N
    lvl false false 7 [8%N].


(** ** Vocabulary of donation *)

(** Every page in memory holds a thread. *)
Definition all_threads (k : kernel) : Prop :=
  ∀ t th, threads k !! t = Some th → magic th = THREAD_MAGIC.

(** Every donations list links threads that are in memory. *)
Definition donors_mapped (k : kernel) : Prop :=
  ∀ t th, threads k !! t = Some th →
          Forall (λ d, is_Some (threads k !! d)) (donations th).

(** [same_links k k']: the locks, the running thread, the interrupt level
    and, of every thread, the lock it waits for, its magic and its status
    are as they were. *)
Definition same_links (k k' : kernel) : Prop :=
  locks k' = locks k ∧ running k' = running k ∧ level k' = level k ∧
  ∀ t, (λ th, (required_lock th, magic th, status th)) <$> threads k' !! t
       = (λ th, (required_lock th, magic th, status th)) <$> threads k !! t.

(** [donation_path k t n e]: following [required_lock] and [holder] from
    [t] through [n] locks, all of which have a holder, ends at [e], which
    waits for no lock. *)
Inductive donation_path (k : kernel) : ptr → nat → ptr → Prop :=
| path_end t th :
    threads k !! t = Some th →
    required_lock th = NULL →
    donation_path k t 0 t
| path_step t th lk n e :
    threads k !! t = Some th →
    required_lock th ≠ NULL →
    locks k !! required_lock th = Some lk →
    holder lk ≠ NULL →
    donation_path k (holder lk) n e →
    donation_path k t (S n) e.

(** Nested donation: thread 1 runs with priority 50 and is about to wait
    for lock 9; thread 2, of priority 20, holds it and waits for lock 10,
    which thread 3, of priority 10, holds. *)
Definition nested_kernel : kernel :=
  mk_kernel
    {[ 1%N := mk_thread 1 THREAD_RUNNING "high" 4096 50 50 []
                NEXT_NULL 9%N 0 0 THREAD_MAGIC;
       2%N := mk_thread 2 THREAD_BLOCKED "mid" 8192 20 20 []
                NEXT_NULL 10%N 0 0 THREAD_MAGIC;
       3%N := mk_thread 3 THREAD_READY "low" 12288 10 10 []
                NEXT_NULL NULL 0 0 THREAD_MAGIC ]}
    {[ 9%N := mk_lock 2%N; 10%N := mk_lock 3%N ]}
    [3%N] [1%N; 2%N; 3%N] NULL 1%N 0 0 0 0 0 false 4 1%N INTR_OFF false false
    0 [].
(** * Properties *)

(** ** Machine integers and fixed point *)

Lemma int32_small z : - 2 ^ 31 <= z < 2 ^ 31 → int32 z = z.
Proof. intros Hz. unfold int32. rewrite Z.mod_small; lia. Qed.

Lemma int64_small z : - 2 ^ 63 <= z < 2 ^ 63 → int64 z = z.
Proof. intros Hz. unfold int64. rewrite Z.mod_small; lia. Qed.

Lemma int32_range z : - 2 ^ 31 <= int32 z < 2 ^ 31.
Proof.
  unfold int32.
  pose proof (Z.mod_pos_bound (z + 2 ^ 31) (2 ^ 32)). lia.
Qed.





Lemma bsd_priority_range rc n : PRI_MIN <= bsd_priority rc n <= PRI_MAX.
Proof.
  unfold bsd_priority.
  destruct (Z.ltb_spec
    (convert_to_int_round_down
       (fixed_subtract_fixed
          (fixed_subtract_fixed (convert_to_fixed_point PRI_MAX)
             (div_fixed_by_int rc 4))
          (convert_to_fixed_point (int32 (n * 2))))) PRI_MIN) as [|Hlo];
    [unfold PRI_MIN, PRI_MAX; lia|].
  destruct (Z.gtb_spec
    (convert_to_int_round_down
       (fixed_subtract_fixed
          (fixed_subtract_fixed (convert_to_fixed_point PRI_MAX)
             (div_fixed_by_int rc 4))
          (convert_to_fixed_point (int32 (n * 2))))) PRI_MAX) as [|Hhi];
    [unfold PRI_MIN, PRI_MAX; lia|].
  lia.
Qed.

(** Inside the 32-bit range nothing wraps: [bsd_priority] is
    [PRI_MAX - recent_cpu / 4 - 2 * nice] in fixed point, truncated to an
    integer and clamped. *)
Lemma bsd_priority_formula rc n :
  - 2 ^ 31 <= rc < 2 ^ 31 → NICE_MIN <= n <= NICE_MAX →
  bsd_priority rc n
  = Z.max PRI_MIN
      (Z.min PRI_MAX (Z.quot (PRI_MAX * F - Z.quot rc 4 - 2 * n * F) F)).
Proof.
  intros Hrc Hn. unfold bsd_priority, convert_to_fixed_point,
    div_fixed_by_int, fixed_subtract_fixed, convert_to_int_round_down.
  unfold NICE_MIN, NICE_MAX, PRI_MAX, PRI_MIN in *. change F with 16384.
  assert (Hq : - 2 ^ 29 <= rc ÷ 4 <= 2 ^ 29).
  { split.
    - apply Z.quot_le_lower_bound; lia.
    - apply Z.quot_le_upper_bound; lia. }
  rewrite (int32_small (63 * 16384)) by lia.
  rewrite (int32_small (rc ÷ 4)) by lia.
  rewrite (int32_small (n * 2)) by lia.
  rewrite (int32_small (n * 2 * 16384)) by lia.
  rewrite (int32_small (63 * 16384 - rc ÷ 4)) by lia.
  rewrite (int32_small (63 * 16384 - rc ÷ 4 - n * 2 * 16384)) by lia.
  replace (63 * 16384 - rc ÷ 4 - n * 2 * 16384)
    with (63 * 16384 - rc ÷ 4 - 2 * n * 16384) by lia.
  set (x := 63 * 16384 - rc ÷ 4 - 2 * n * 16384).
  assert (Hx : - 2 ^ 31 < x ÷ 16384 < 2 ^ 31).
  { assert (- 2 ^ 30 <= x <= 2 ^ 30) by (unfold x; lia). split.
    - apply Z.lt_le_trans with (- 2 ^ 30); [lia|].
      apply Z.quot_le_lower_bound; lia.
    - apply Z.le_lt_trans with (2 ^ 30); [|lia].
      apply Z.quot_le_upper_bound; lia. }
  rewrite (int32_small (x ÷ 16384)) by lia.
  destruct (Z.ltb_spec (x ÷ 16384) 0); [lia|].
  destruct (Z.gtb_spec (x ÷ 16384) 63); lia.
Qed.

Lemma next_load_avg_truncated la n :
  0 <= la → 0 <= n → la + 273 * n < 2 ^ 31 →
  next_load_avg la n = Z.quot (16110 * la) F + 273 * n.
Proof.
  intros Hla Hn Hb. unfold next_load_avg.
  change (div_fixed_by_int (convert_to_fixed_point 59) 60) with 16110.
  change (div_fixed_by_int (convert_to_fixed_point 1) 60) with 273.
  unfold multiply_fixed_by_fixed, multiply_fixed_by_int, add_fixed_to_fixed.
  change F with 16384.
  assert (0 <= 16110 * la ÷ 16384 <= la).
  { rewrite Z.quot_div_nonneg by lia. split.
    - apply Z.div_pos; lia.
    - apply Z.div_le_upper_bound; lia. }
  rewrite (int64_small (16110 * la)) by lia.
  rewrite (int64_small (16110 * la ÷ 16384)) by lia.
  rewrite (int32_small (16110 * la ÷ 16384)) by lia.
  rewrite (int32_small (273 * n)) by lia.
  apply int32_small. lia.
Qed.

Lemma next_load_avg_error la n :
  0 <= la → 0 <= n → la + 273 * n < 2 ^ 31 →
  (inject_Z (next_load_avg la n) <= exact_next_load_avg la n)%Q ∧
  (exact_next_load_avg la n - inject_Z (next_load_avg la n)
   < 1 + (7 # 122880) * inject_Z la + (1 # 15) * inject_Z n)%Q.
Proof.
  intros Hla Hn Hb. rewrite next_load_avg_truncated by done.
  change F with 16384. rewrite Z.quot_div_nonneg by lia.
  pose proof (Z.div_mod (16110 * la) 16384 ltac:(lia)) as Hdm.
  pose proof (Z.mod_pos_bound (16110 * la) 16384 ltac:(lia)) as Hr.
  unfold exact_next_load_avg, Qle, Qlt, Qminus, Qplus, Qmult, Qopp, inject_Z.
  change F with 16384. simpl. split; lia.
Qed.

(** ** Running computations *)

Lemma bind_Done {A B : Type} (m : kern A) (f : A → kern B) k a k' :
  m k = Done a k' → (m ≫= f) k = f a k'.
Proof. intros Hm. unfold mbind, kern_bind. by rewrite Hm. Qed.

Lemma ASSERT_true b k : b = true → ASSERT b k = Done tt k.
Proof. by intros ->. Qed.

Lemma load_Some k t th : threads k !! t = Some th → load t k = Done th k.
Proof. intros Ht. unfold load. by rewrite Ht. Qed.

Lemma store_Some k t th f :
  threads k !! t = Some th →
  store t f k = Done tt (set_threads (<[t := f th]> (threads k)) k).
Proof. intros Ht. unfold store. by rewrite Ht. Qed.

Lemma is_thread_valid k t th : valid k t th → is_thread t k = Done true k.
Proof.
  intros (Hnull & Ht & Hm). unfold is_thread.
  destruct (N.eqb_spec t NULL) as [->|_]; [done|].
  rewrite (bind_Done _ _ _ _ _ (load_Some _ _ _ Ht)).
  unfold mret, kern_ret. by rewrite Hm.
Qed.

Ltac kbind H := rewrite (bind_Done _ _ _ _ _ H).

Ltac kred :=
  unfold mbind, kern_bind, mret, kern_ret, gets, modify, ASSERT, panic,
    intr_disable, intr_set_level, intr_get_level, intr_context,
    running_thread; simpl.

Lemma thread_current_eq k cur :
  valid k (running k) cur → status cur = THREAD_RUNNING →
  thread_current k = Done (running k) k.
Proof.
  intros Hv Hs. unfold thread_current. kred.
  rewrite (is_thread_valid _ _ _ Hv). simpl.
  destruct Hv as (_ & Ht & _). unfold load. rewrite Ht.
  by rewrite bool_decide_true.
Qed.

(** ** Rules for [returns] *)

Lemma returns_bind {A B : Type} (m : kern A) (f : A → kern B) k post :
  returns m k (λ a k1, returns (f a) k1 post) → returns (m ≫= f) k post.
Proof.
  intros (a & k1 & Hm & b & k2 & Hf & Hpost).
  exists b, k2. split; [|done]. by rewrite (bind_Done _ _ _ _ _ Hm).
Qed.

Lemma returns_mono {A : Type} (m : kern A) k (post post' : A → kernel → Prop) :
  returns m k post → (∀ a k', post a k' → post' a k') → returns m k post'.
Proof. intros (a & k' & Hm & Hp) Himp. exists a, k'. eauto. Qed.

Lemma returns_Done {A : Type} (m : kern A) k a k' (post : A → kernel → Prop) :
  m k = Done a k' → post a k' → returns m k post.
Proof. intros Hm Hp. by exists a, k'. Qed.

Lemma returns_mret {A : Type} (a : A) k (post : A → kernel → Prop) :
  post a k → returns (mret a) k post.
Proof. by apply returns_Done. Qed.

Lemma returns_gets {A : Type} (f : kernel → A) k (post : A → kernel → Prop) :
  post (f k) k → returns (gets f) k post.
Proof. by apply returns_Done. Qed.

Lemma returns_modify f k (post : unit → kernel → Prop) :
  post tt (f k) → returns (modify f) k post.
Proof. by apply returns_Done. Qed.

Lemma returns_ASSERT b k (post : unit → kernel → Prop) :
  b = true → post tt k → returns (ASSERT b) k post.
Proof. intros ->. by apply returns_Done. Qed.

Lemma returns_load t th k (post : thread → kernel → Prop) :
  threads k !! t = Some th → post th k → returns (load t) k post.
Proof. intros Ht. apply returns_Done. by apply load_Some. Qed.

Lemma returns_store t th f k (post : unit → kernel → Prop) :
  threads k !! t = Some th →
  post tt (set_threads (<[t := f th]> (threads k)) k) →
  returns (store t f) k post.
Proof. intros Ht. apply returns_Done. by apply store_Some. Qed.

Lemma returns_is_thread t th k (post : bool → kernel → Prop) :
  valid k t th → post true k → returns (is_thread t) k post.
Proof. intros Hv. apply returns_Done. by eapply is_thread_valid. Qed.

Lemma returns_intr_set_level l k (post : intr_level → kernel → Prop) :
  post (level k) (set_level l k) → returns (intr_set_level l) k post.
Proof. by apply returns_Done. Qed.

Lemma returns_thread_current k cur (post : ptr → kernel → Prop) :
  valid k (running k) cur → status cur = THREAD_RUNNING →
  post (running k) k → returns thread_current k post.
Proof. intros Hv Hs. apply returns_Done. by eapply thread_current_eq. Qed.

Ltac kstep :=
  cbv beta;
  lazymatch goal with
  | |- returns (mbind _ _) _ _ => apply returns_bind
  | |- returns (mret _) _ _ => apply returns_mret
  | |- returns (gets _) _ _ => apply returns_gets
  | |- returns (modify _) _ _ => apply returns_modify
  | |- returns intr_disable _ _ => apply returns_intr_set_level
  | |- returns (intr_set_level _) _ _ => apply returns_intr_set_level
  | |- returns intr_get_level _ _ => apply returns_gets
  | |- returns intr_context _ _ => apply returns_gets
  | |- returns running_thread _ _ => apply returns_gets
  | |- returns timer_ticks _ _ => apply returns_gets
  | |- returns intr_yield_on_return _ _ => apply returns_modify
  | |- returns (ready_list_insert_ordered _) _ _ => apply returns_modify
  end;
  cbv beta.

Ltac ksteps := repeat kstep.

(** ** Rules for [preserves] and [halts] *)

Section preservation.
Context (R : relation kernel) `{!PreOrder R}.

Lemma preserves_mret {A : Type} (a : A) : preserves R (mret a).
Proof. intros k a' k' [= _ <-]. reflexivity. Qed.

Lemma preserves_bind {A B : Type} (m : kern A) (f : A → kern B) :
  preserves R m → (∀ a, preserves R (f a)) → preserves R (m ≫= f).
Proof.
  intros Hm Hf k b k'. unfold mbind, kern_bind.
  destruct (m k) as [a k1| |] eqn:Hmk; [|done..].
  intros Hfk. etrans; [by eapply Hm|by eapply Hf].
Qed.

Lemma preserves_gets {A : Type} (f : kernel → A) : preserves R (gets f).
Proof. intros k a' k' [= _ <-]. reflexivity. Qed.

Lemma preserves_panic {A : Type} : preserves R (@panic A).
Proof. by intros k a k'. Qed.

Lemma preserves_ASSERT b : preserves R (ASSERT b).
Proof. destruct b; [apply preserves_mret|apply preserves_panic]. Qed.

Lemma preserves_load t : preserves R (load t).
Proof.
  intros k a k'. unfold load. destruct (threads k !! t); [|done].
  intros [= _ <-]. reflexivity.
Qed.

Lemma preserves_load_lock l : preserves R (load_lock l).
Proof.
  intros k a k'. unfold load_lock. destruct (locks k !! l); [|done].
  intros [= _ <-]. reflexivity.
Qed.

Lemma preserves_modify f : (∀ k, R k (f k)) → preserves R (modify f).
Proof. intros Hf k a k' [= _ <-]. apply Hf. Qed.

Lemma preserves_store t f :
  (∀ k th, threads k !! t = Some th →
           R k (set_threads (<[t := f th]> (threads k)) k)) →
  preserves R (store t f).
Proof.
  intros Hf k a k'. unfold store.
  destruct (threads k !! t) as [th|] eqn:Ht; [|done].
  intros [= _ <-]. by apply Hf.
Qed.

Lemma preserves_is_thread t : preserves R (is_thread t).
Proof.
  unfold is_thread. destruct (t =? NULL)%N; [apply preserves_mret|].
  apply preserves_bind; [apply preserves_load|].
  intros th. apply preserves_mret.
Qed.

Lemma preserves_thread_current : preserves R thread_current.
Proof.
  unfold thread_current, running_thread.
  repeat (apply preserves_bind; [|intros ?]);
    auto using preserves_gets, preserves_is_thread, preserves_ASSERT,
      preserves_load, preserves_mret.
Qed.

Lemma preserves_foreach func l :
  (∀ t, preserves R (func t)) → preserves R (foreach func l).
Proof.
  intros Hfunc. induction l as [|t l IH]; simpl.
  - apply preserves_mret.
  - apply preserves_bind; [apply Hfunc|done].
Qed.
End preservation.

Ltac preorder := try (match goal with |- PreOrder _ => apply _ end).

Ltac preserving :=
  repeat match goal with
    | |- PreOrder _ => apply _
    | |- preserves _ (mbind _ _) => apply preserves_bind; [..|intros ?]
    | |- preserves _ (mret _) => apply preserves_mret
    | |- preserves _ (gets _) => apply preserves_gets
    | |- preserves _ panic => apply preserves_panic
    | |- preserves _ (ASSERT _) => apply preserves_ASSERT
    | |- preserves _ (load _) => apply preserves_load
    | |- preserves _ (load_lock _) => apply preserves_load_lock
    | |- preserves _ (is_thread _) => apply preserves_is_thread
    | |- preserves _ thread_current => apply preserves_thread_current
    | |- preserves _ (if ?b then _ else _) => destruct b
    | |- preserves _ (match ?l with [] => _ | _ :: _ => _ end) =>
        destruct l
    end.

Lemma halts_mret {A : Type} (a : A) : halts (mret a).
Proof. by intros k. Qed.

Lemma halts_bind {A B : Type} (m : kern A) (f : A → kern B) :
  halts m → (∀ a, halts (f a)) → halts (m ≫= f).
Proof.
  intros Hm Hf k. unfold mbind, kern_bind.
  destruct (m k) as [a k1| |] eqn:Hmk; [apply Hf|done|]. by destruct (Hm k).
Qed.

Lemma halts_gets {A : Type} (f : kernel → A) : halts (gets f).
Proof. by intros k. Qed.

Lemma halts_modify f : halts (modify f).
Proof. by intros k. Qed.

Lemma halts_panic {A : Type} : halts (@panic A).
Proof. by intros k. Qed.

Lemma halts_ASSERT b : halts (ASSERT b).
Proof. by destruct b. Qed.

Lemma halts_load t : halts (load t).
Proof. intros k. unfold load. by destruct (threads k !! t). Qed.

Lemma halts_load_lock l : halts (load_lock l).
Proof. intros k. unfold load_lock. by destruct (locks k !! l). Qed.

Lemma halts_store t f : halts (store t f).
Proof. intros k. unfold store. by destruct (threads k !! t). Qed.

Ltac halting :=
  repeat match goal with
    | |- halts (mbind _ _) => apply halts_bind; [|intros ?]
    | |- halts (mret _) => apply halts_mret
    | |- halts (gets _) => apply halts_gets
    | |- halts (modify _) => apply halts_modify
    | |- halts panic => apply halts_panic
    | |- halts (ASSERT _) => apply halts_ASSERT
    | |- halts (load _) => apply halts_load
    | |- halts (load_lock _) => apply halts_load_lock
    | |- halts (store _ _) => apply halts_store
    | |- halts (if ?b then _ else _) => destruct b
    | |- halts (match ?l with [] => _ | _ :: _ => _ end) => destruct l
    end.

Lemma halts_is_thread t : halts (is_thread t).
Proof. unfold is_thread. halting. Qed.

Lemma halts_thread_current : halts thread_current.
Proof.
  unfold thread_current, running_thread. halting. apply halts_is_thread.
Qed.

Lemma not_Done_bind {A B : Type} (m : kern A) (f : A → kern B) k :
  (∀ a k1, m k = Done a k1 → ∀ r k', f a k1 ≠ Done r k') →
  ∀ r k', (m ≫= f) k ≠ Done r k'.
Proof.
  intros Hf r k'. unfold mbind, kern_bind.
  destruct (m k) as [a k1| |] eqn:Hm; [by apply Hf|done..].
Qed.

Lemma not_Spin_bind {A B : Type} (m : kern A) (f : A → kern B) k :
  m k ≠ Spin →
  (∀ a k1, m k = Done a k1 → f a k1 ≠ Spin) →
  (m ≫= f) k ≠ Spin.
Proof.
  intros Hm Hf. unfold mbind, kern_bind.
  destruct (m k) as [a k1| |]; [by apply Hf|done..].
Qed.

(** ** The example states *)

Ltac solve_valid := split; [done|split; [reflexivity|reflexivity]].

Ltac solve_thread_ok := eexists; solve_valid.

Ltac solve_well_formed :=
  split;
  [ eexists; split; [solve_valid|reflexivity]
  | repeat (constructor; [solve_thread_ok|]); constructor
  | repeat (constructor; [solve_thread_ok|]); constructor ].

Lemma priority_kernel_well_formed : well_formed priority_kernel.
Proof. solve_well_formed. Qed.

Lemma mlfqs_kernel_well_formed lvl external :
  well_formed (mlfqs_kernel lvl external).
Proof. solve_well_formed. Qed.

(** ** Effective priority *)

Lemma thread_get_donated_priority_eq k t th :
  valid k t th →
  Forall (λ d, is_Some (threads k !! d)) (donations th) →
  thread_get_donated_priority t k = Done (donated_priority k th) k.
Proof.
  intros Hv Hd. unfold thread_get_donated_priority.
  kbind (is_thread_valid _ _ _ Hv). destruct Hv as (Hn & Ht & Hm).
  kred. unfold load; simpl. rewrite Ht. unfold donated_priority, priority_at.
  destruct (donations th) as [|d ds]; simpl.
  - by destruct k.
  - apply Forall_cons in Hd as [[dth Hdth] _]. rewrite Hdth.
    by destruct k.
Qed.

Lemma thread_reset_priority_eq k t th :
  valid k t th →
  Forall (λ d, is_Some (threads k !! d)) (donations th) →
  thread_reset_priority t k = Done tt (after_reset k t th).
Proof.
  intros Hv Hd. unfold thread_reset_priority.
  kbind (is_thread_valid _ _ _ Hv). kred.
  rewrite (thread_get_donated_priority_eq (set_level INTR_OFF k) t th Hv Hd).
  destruct Hv as (Hn & Ht & Hm).
  unfold load at 1; simpl. rewrite Ht.
  change (donated_priority (set_level INTR_OFF k) th)
    with (donated_priority k th).
  unfold after_reset, reset_priority_value.
  destruct (donated_priority k th >? base_priority th);
    unfold store, thread_reinsert_ready_list, load; kred;
    rewrite Ht; simpl; rewrite lookup_insert_eq; simpl;
    unfold ready_list_insert_ordered; kred;
    destruct (bool_decide (status th = THREAD_READY)); simpl;
    by destruct k.
Qed.

Lemma foldr_max_bounded (m b : Z) (ps : list Z) :
  Forall (λ p, m >= p) ps → Z.max m (foldr Z.max b ps) = Z.max m b.
Proof.
  induction 1 as [|p ps Hp _ IH]; simpl; [done|].
  rewrite (Z.max_comm p), Z.max_assoc, IH. lia.
Qed.

Lemma reset_priority_value_max k th :
  Sorted Z.ge (map (priority_at k) (donations th)) →
  PRI_MIN <= base_priority th →
  reset_priority_value k th
  = foldr Z.max (base_priority th) (map (priority_at k) (donations th)).
Proof.
  intros Hs Hb. unfold reset_priority_value, donated_priority.
  destruct (donations th) as [|d ds]; simpl in *.
  - unfold PRI_MIN in *. destruct (Z.gtb_spec (0 - 1) (base_priority th)); lia.
  - apply Sorted_StronglySorted in Hs; [|intros x y z; lia].
    apply StronglySorted_inv in Hs as [_ Hall].
    rewrite (foldr_max_bounded _ _ _ Hall).
    destruct (Z.gtb_spec (priority_at k d) (base_priority th)); lia.
Qed.

(** C1: with the donations sorted by descending donor priority,
    [thread_reset_priority] returns and leaves in [t->priority] the largest
    of the base priority and the donors' priorities, which is the base
    priority when nobody donates. *)
Theorem thread_reset_priority_max k t th :
  valid k t th →
  Forall (λ d, is_Some (threads k !! d)) (donations th) →
  Sorted Z.ge (map (priority_at k) (donations th)) →
  PRI_MIN <= base_priority th →
  ∃ k' th',
    thread_reset_priority t k = Done tt k' ∧
    threads k' !! t = Some th' ∧
    priority th'
    = foldr Z.max (base_priority th) (map (priority_at k) (donations th)) ∧
    (donations th = [] → priority th' = base_priority th).
Proof.
  intros Hv Hd Hs Hb.
  exists (after_reset k t th), (set_priority (reset_priority_value k th) th).
  split; [by apply thread_reset_priority_eq|].
  split.
  - unfold after_reset. destruct (bool_decide _); simpl;
      apply lookup_insert_eq.
  - simpl. rewrite (reset_priority_value_max _ _ Hs Hb).
    split; [done|]. by intros ->.
Qed.

Lemma thread_reset_priority_max_witness :
  ∃ k' th', thread_reset_priority 1%N priority_kernel = Done tt k' ∧
            threads k' !! 1%N = Some th' ∧ priority th' = 40.
Proof.
  destruct (thread_reset_priority_max priority_kernel 1%N
              (mk_thread 1 THREAD_RUNNING "main" 4096 31 31 [2%N; 3%N]
                 NEXT_NULL NULL 0 0 THREAD_MAGIC))
    as (k' & th' & Hrun & Hth' & Hmax & _).
  - solve_valid.
  - repeat (constructor; [eexists; reflexivity|]). constructor.
  - repeat constructor; vm_compute; discriminate.
  - vm_compute. discriminate.
  - exists k', th'. split; [exact Hrun|]. split; [exact Hth'|].
    rewrite Hmax. reflexivity.
Defined.

(** C9: with the feedback-queue scheduler on, [thread_set_priority] with a
    priority in [[PRI_MIN, PRI_MAX]] returns and leaves the whole kernel
    state as it was. *)
Theorem thread_set_priority_mlfqs_noop k new_priority :
  thread_mlfqs k = true →
  PRI_MIN <= new_priority <= PRI_MAX →
  thread_set_priority new_priority k = Done tt k.
Proof.
  intros Hm [Hlo Hhi]. unfold thread_set_priority.
  rewrite (bind_Done _ _ k tt k).
  2:{ apply ASSERT_true. apply andb_true_intro. split; lia. }
  unfold mbind, kern_bind, gets. by rewrite Hm.
Qed.

Lemma thread_set_priority_mlfqs_noop_witness :
  thread_set_priority 20 (mlfqs_kernel INTR_ON false)
  = Done tt (mlfqs_kernel INTR_ON false).
Proof.
  apply (thread_set_priority_mlfqs_noop (mlfqs_kernel INTR_ON false) 20).
  - reflexivity.
  - split; vm_compute; discriminate.
Defined.

(** ** Donation *)

(** C10: after [thread_remove_donation] the hook's next pointer is null,
    a further call returns the state it is given, and so does the first
    call when the pointer was null already. *)
Theorem thread_remove_donation_idempotent k t th :
  level k = INTR_OFF →
  valid k t th →
  ∃ k' th',
    thread_remove_donation t k = Done tt k' ∧
    threads k' !! t = Some th' ∧
    dona_elem_next th' = NEXT_NULL ∧
    thread_remove_donation t k' = Done tt k' ∧
    (dona_elem_next th = NEXT_NULL → k' = k).
Proof.
  intros Hl Hv.
  assert (Hnull : ∀ k0 th0, level k0 = INTR_OFF → valid k0 t th0 →
            dona_elem_next th0 = NEXT_NULL →
            thread_remove_donation t k0 = Done tt k0).
  { intros k0 th0 Hl0 Hv0 Hnext. unfold thread_remove_donation. kred.
    rewrite Hl0. simpl. pose proof (is_thread_valid _ _ _ Hv0) as ->.
    destruct Hv0 as (_ & Ht0 & _). simpl. unfold load.
    rewrite Ht0, Hnext. done. }
  destruct (decide (dona_elem_next th = NEXT_NULL)) as [Hnext|Hnext].
  - exists k, th. destruct Hv as (Hn & Ht & Hm).
    repeat split; eauto using Hnull. all: eapply Hnull; done.
  - set (unlinked := λ th0, set_donations (list_remove t (donations th0)) th0).
    set (th' := set_dona_elem_next NEXT_NULL (unlinked th)).
    set (k1 := set_threads (unlinked <$> threads k) k).
    exists (set_threads (<[t := th']> (threads k1)) k1), th'.
    destruct Hv as (Hn & Ht & Hm).
    split; [|split; [apply lookup_insert_eq|split; [done|split; [|done]]]].
    + unfold thread_remove_donation. kred. rewrite Hl. simpl.
      pose proof (is_thread_valid k t th) as ->; [|done].
      simpl. unfold load. rewrite Ht. rewrite bool_decide_true by done.
      unfold donations_remove, store. kred.
      by rewrite lookup_fmap, Ht.
    + apply (Hnull _ th'); [done| |done].
      split; [done|]. split; [apply lookup_insert_eq|done].
Qed.

Lemma thread_remove_donation_idempotent_witness :
  ∃ k' th',
    thread_remove_donation 2%N priority_kernel = Done tt k' ∧
    threads k' !! 2%N = Some th' ∧
    dona_elem_next th' = NEXT_NULL ∧
    thread_remove_donation 2%N k' = Done tt k'.
Proof.
  destruct (thread_remove_donation_idempotent priority_kernel 2%N
              (mk_thread 2 THREAD_BLOCKED "high" 8192 40 40 []
                 NEXT_ELEM 9%N 0 0 THREAD_MAGIC))
    as (k' & th' & Hrun & Hth' & Hnull & Hagain & _).
  - reflexivity.
  - solve_valid.
  - exists k', th'. split; [exact Hrun|]. split; [exact Hth'|].
    split; [exact Hnull|exact Hagain].
Defined.

#[global] Instance same_chain_preorder : PreOrder same_chain.
Proof.
  split.
  - by intros k.
  - intros k1 k2 k3 [E1 H1] [E2 H2]. split; [congruence|].
    intros t. by rewrite H2, H1.
Qed.

Lemma same_chain_store k t th f :
  threads k !! t = Some th → required_lock (f th) = required_lock th →
  same_chain k (set_threads (<[t := f th]> (threads k)) k).
Proof.
  intros Ht Hf. split; [done|]. intros t'. simpl.
  destruct (decide (t = t')) as [->|Hne].
  - by rewrite lookup_insert_eq, Ht; simpl; rewrite Hf.
  - by rewrite lookup_insert_ne.
Qed.

Lemma same_chain_lookup k k' t th :
  same_chain k k' → threads k !! t = Some th →
  ∃ th', threads k' !! t = Some th' ∧ required_lock th' = required_lock th.
Proof.
  intros [_ H] Ht. specialize (H t). rewrite Ht in H.
  destruct (threads k' !! t) as [th'|]; [|done].
  exists th'. split; [done|]. by injection H.
Qed.

Lemma thread_reset_priority_same_chain t :
  preserves same_chain (thread_reset_priority t).
Proof.
  unfold thread_reset_priority, thread_get_donated_priority,
    thread_reinsert_ready_list, ready_list_insert_ordered,
    intr_disable, intr_set_level, intr_get_level.
  preserving.
  all: try (apply preserves_modify; preorder; by intros k).
  all: apply preserves_store; preorder; intros k th Ht;
    by apply same_chain_store.
Qed.

Lemma thread_remove_donation_same_chain t :
  preserves same_chain (thread_remove_donation t).
Proof.
  unfold thread_remove_donation, donations_remove, intr_get_level.
  preserving.
  - apply preserves_modify; preorder. intros k. split; [done|].
    intros t'. simpl. rewrite lookup_fmap. by destruct (threads k !! t').
  - apply preserves_store; preorder. intros k th Ht.
    by apply same_chain_store.
Qed.

Lemma donations_insert_ordered_same_chain h t :
  preserves same_chain (donations_insert_ordered h t).
Proof.
  unfold donations_insert_ordered. apply preserves_bind; preorder.
  - intros k a k'.
    apply (preserves_store same_chain h
             (λ th, set_donations
                      (list_insert_ordered (thread_compare_donation k) t
                         (donations th)) th)).
    intros k0 th Ht. by apply same_chain_store.
  - intros _. apply preserves_store; preorder. intros k th Ht.
    by apply same_chain_store.
Qed.

(** With a lock whose holder is null at its head, the walk stays at the
    same thread: however many steps it is given, it does not return. *)
Lemma donate_walk_null_holder steps : ∀ k t th lk,
  threads k !! t = Some th →
  required_lock th ≠ NULL →
  locks k !! required_lock th = Some lk →
  holder lk = NULL →
  ∀ r k', donate_walk steps t k ≠ Done r k'.
Proof.
  induction steps as [|steps IH]; intros k t th lk Ht Hrl Hlk Hh; [done|].
  simpl. apply not_Done_bind. intros th0 k0 Hload.
  unfold load in Hload. rewrite Ht in Hload. injection Hload as <- <-.
  destruct (N.eqb_spec (required_lock th) NULL) as [|_]; [done|]. simpl.
  apply not_Done_bind. intros [] k1 Hreset.
  apply thread_reset_priority_same_chain in Hreset as Hc1.
  apply not_Done_bind. intros th1 k1' Hload1.
  destruct (same_chain_lookup _ _ _ _ Hc1 Ht) as (th1' & Ht1 & Hrl1).
  unfold load in Hload1. rewrite Ht1 in Hload1. injection Hload1 as <- <-.
  rewrite Hrl1.
  apply not_Done_bind. intros lk1 k1' Hll.
  unfold load_lock in Hll. rewrite (proj1 Hc1), Hlk in Hll.
  injection Hll as <- <-. rewrite Hh.
  apply not_Done_bind. intros [] k2 Hassert.
  apply (preserves_ASSERT same_chain) in Hassert as Hc2.
  apply not_Done_bind. intros cur k3 Hcur.
  apply (preserves_thread_current same_chain) in Hcur as Hc3.
  apply not_Done_bind. intros [] k4 Hrem.
  assert (Hc4 : same_chain k3 k4).
  { destruct (negb (cur =? t)%N).
    - by apply thread_remove_donation_same_chain in Hrem.
    - injection Hrem as <-. reflexivity. }
  simpl.
  assert (Hc : same_chain k k4) by (do 3 (etrans; [done|]); done).
  destruct (same_chain_lookup _ _ _ _ Hc Ht) as (th4 & Ht4 & Hrl4).
  apply (IH k4 t th4 lk); [done|by rewrite Hrl4| |done].
  by rewrite (proj1 Hc), Hrl4.
Qed.

Lemma donation_chain_same k k' t n :
  same_chain k k' → donation_chain k t n → donation_chain k' t n.
Proof.
  intros Hc. induction 1 as [t th Ht Hrl|t th lk n Ht Hrl Hlk Hh _ IH].
  - destruct (same_chain_lookup _ _ _ _ Hc Ht) as (th' & Ht' & Hrl').
    apply (chain_end _ t th'); [done|congruence].
  - destruct (same_chain_lookup _ _ _ _ Hc Ht) as (th' & Ht' & Hrl').
    apply (chain_step _ t th' lk); [done|congruence| |done..].
    by rewrite (proj1 Hc), Hrl'.
Qed.

Lemma halts_thread_reset_priority t : halts (thread_reset_priority t).
Proof.
  unfold thread_reset_priority, thread_get_donated_priority,
    thread_reinsert_ready_list, ready_list_insert_ordered,
    intr_disable, intr_set_level, intr_get_level.
  halting. all: apply halts_is_thread.
Qed.

Lemma halts_thread_remove_donation t : halts (thread_remove_donation t).
Proof.
  unfold thread_remove_donation, donations_remove, intr_get_level.
  halting. apply halts_is_thread.
Qed.

Lemma halts_donations_insert_ordered h t :
  halts (donations_insert_ordered h t).
Proof.
  unfold donations_insert_ordered. apply halts_bind.
  - intros k. apply halts_store.
  - intros _. apply halts_store.
Qed.

(** Along a chain of [n] locks that all have a holder, the walk leaves
    its loop within [n + 1] evaluations of the condition. *)
Lemma donate_walk_halts steps : ∀ k t n,
  donation_chain k t n → (n < steps)%nat → donate_walk steps t k ≠ Spin.
Proof.
  induction steps as [|steps IH]; intros k t n Hchain Hn; [lia|].
  simpl. apply not_Spin_bind; [apply halts_load|]. intros th0 k0 Hload.
  unfold load in Hload.
  destruct Hchain as [t th Ht Hrl|t th lk n Ht Hrl Hlk Hh Hchain];
    rewrite Ht in Hload; injection Hload as <- <-.
  { by rewrite Hrl. }
  destruct (N.eqb_spec (required_lock th) NULL) as [|_]; [done|]. simpl.
  apply not_Spin_bind; [apply halts_thread_reset_priority|].
  intros [] k1 Hreset.
  apply thread_reset_priority_same_chain in Hreset as Hc1.
  apply not_Spin_bind; [apply halts_load|]. intros th1 k1' Hload1.
  destruct (same_chain_lookup _ _ _ _ Hc1 Ht) as (th1' & Ht1 & Hrl1).
  unfold load in Hload1. rewrite Ht1 in Hload1. injection Hload1 as <- <-.
  rewrite Hrl1.
  apply not_Spin_bind; [apply halts_load_lock|]. intros lk1 k1' Hll.
  unfold load_lock in Hll. rewrite (proj1 Hc1), Hlk in Hll.
  injection Hll as <- <-.
  apply not_Spin_bind; [apply halts_ASSERT|]. intros [] k2 Hassert.
  apply (preserves_ASSERT same_chain) in Hassert as Hc2.
  apply not_Spin_bind; [apply halts_thread_current|]. intros cur k3 Hcur.
  apply (preserves_thread_current same_chain) in Hcur as Hc3.
  apply not_Spin_bind.
  { destruct (negb (cur =? t)%N);
      [apply halts_thread_remove_donation|apply halts_mret]. }
  intros [] k4 Hrem.
  assert (Hc4 : same_chain k3 k4).
  { destruct (negb (cur =? t)%N).
    - by apply thread_remove_donation_same_chain in Hrem.
    - injection Hrem as <-. reflexivity. }
  destruct (N.eqb_spec (holder lk) NULL) as [|_]; [done|]. simpl.
  apply not_Spin_bind; [apply halts_is_thread|]. intros b k5 Hit.
  apply (preserves_is_thread same_chain) in Hit as Hc5.
  apply not_Spin_bind; [apply halts_ASSERT|]. intros [] k6 Hassert'.
  apply (preserves_ASSERT same_chain) in Hassert' as Hc6.
  apply not_Spin_bind; [apply halts_donations_insert_ordered|].
  intros [] k7 Hins.
  apply donations_insert_ordered_same_chain in Hins as Hc7.
  apply (IH k7 (holder lk) n); [|lia].
  eapply donation_chain_same; [|exact Hchain].
  do 6 (etrans; [done|]). done.
Qed.

(** [thread_donate_priority] leaves its loop when every lock of the chain
    has a holder. *)
Lemma thread_donate_priority_halts k t n steps :
  donation_chain k t n → (n < steps)%nat →
  thread_donate_priority steps t k ≠ Spin.
Proof.
  intros Hchain Hn. unfold thread_donate_priority, intr_get_level.
  apply not_Spin_bind; [apply halts_gets|]. intros lvl k1 [= <- <-].
  apply not_Spin_bind; [apply halts_ASSERT|]. intros [] k2 Hassert.
  apply (preserves_ASSERT eq) in Hassert as <-.
  apply not_Spin_bind; [apply halts_is_thread|]. intros b k3 Hit.
  apply (preserves_is_thread eq) in Hit as <-.
  apply not_Spin_bind; [apply halts_ASSERT|]. intros [] k4 Hassert'.
  apply (preserves_ASSERT eq) in Hassert' as <-.
  apply not_Spin_bind; [by eapply donate_walk_halts|].
  intros t' k5 _. apply halts_thread_reset_priority.
Qed.

Lemma donate_walk_free_lock steps :
  donate_walk steps 1%N free_lock_kernel = Spin.
Proof.
  induction steps as [|steps IH]; [reflexivity|].
  rewrite <- IH. vm_compute. reflexivity.
Qed.

(** C2: a thread whose required lock has a null holder; the lock chain is
    finite and acyclic, and the walk does not complete with any number of
    steps. *)
Theorem thread_donate_priority_null_holder_spins :
  (∃ th lk, threads free_lock_kernel !! 1%N = Some th ∧
            locks free_lock_kernel !! required_lock th = Some lk ∧
            holder lk = NULL) ∧
  ∀ steps, thread_donate_priority steps 1%N free_lock_kernel = Spin.
Proof.
  split.
  - eexists _, _. split; [reflexivity|]. split; reflexivity.
  - intros steps. unfold thread_donate_priority.
    assert (Hl : intr_get_level free_lock_kernel
                 = Done INTR_OFF free_lock_kernel) by reflexivity.
    assert (Ht : is_thread 1%N free_lock_kernel
                 = Done true free_lock_kernel) by reflexivity.
    kbind Hl. kbind (ASSERT_true _ free_lock_kernel eq_refl).
    kbind Ht. kbind (ASSERT_true _ free_lock_kernel eq_refl).
    unfold mbind, kern_bind. by rewrite donate_walk_free_lock.
Qed.

(** ** The feedback-queue formulas *)

Lemma thread_calculate_bsd_priority_eq k t th :
  thread_mlfqs k = true → valid k t th →
  thread_calculate_bsd_priority t k
  = Done tt (set_threads
               (<[t := set_priority (bsd_priority (recent_cpu th) (nice th))
                         th]> (threads k)) k).
Proof.
  intros Hm Hv. unfold thread_calculate_bsd_priority. kred. rewrite Hm. simpl.
  rewrite (is_thread_valid _ _ _ Hv).
  destruct Hv as (_ & Ht & _). simpl. unfold load, store. by rewrite !Ht.
Qed.

(** C4: [thread_calculate_bsd_priority] returns and leaves a priority in
    [[PRI_MIN, PRI_MAX]] in the thread, whatever its [recent_cpu], for every
    [nice] in [[NICE_MIN, NICE_MAX]]. *)
Theorem thread_calculate_bsd_priority_in_range k t th :
  thread_mlfqs k = true →
  valid k t th →
  NICE_MIN <= nice th <= NICE_MAX →
  ∃ k' th',
    thread_calculate_bsd_priority t k = Done tt k' ∧
    threads k' !! t = Some th' ∧
    recent_cpu th' = recent_cpu th ∧ nice th' = nice th ∧
    PRI_MIN <= priority th' <= PRI_MAX.
Proof.
  intros Hm Hv _.
  exists (set_threads
            (<[t := set_priority (bsd_priority (recent_cpu th) (nice th)) th]>
               (threads k)) k),
    (set_priority (bsd_priority (recent_cpu th) (nice th)) th).
  split; [|split; [apply lookup_insert_eq|]].
  - unfold thread_calculate_bsd_priority. kred. rewrite Hm. simpl.
    pose proof (is_thread_valid _ _ _ Hv) as ->.
    destruct Hv as (_ & Ht & _). simpl. unfold load, store. by rewrite !Ht.
  - simpl. split; [done|]. split; [done|]. apply bsd_priority_range.
Qed.

Lemma thread_calculate_bsd_priority_in_range_witness :
  ∃ k' th',
    thread_calculate_bsd_priority 1%N (mlfqs_kernel INTR_OFF true)
    = Done tt k' ∧
    threads k' !! 1%N = Some th' ∧ PRI_MIN <= priority th' <= PRI_MAX.
Proof.
  destruct (thread_calculate_bsd_priority_in_range
              (mlfqs_kernel INTR_OFF true) 1%N
              (mk_thread 1 THREAD_RUNNING "main" 4096 63 63 []
                 NEXT_NULL NULL 0 (40 * F) THREAD_MAGIC))
    as (k' & th' & Hrun & Hth' & _ & _ & Hrange).
  - reflexivity.
  - solve_valid.
  - split; vm_compute; discriminate.
  - exists k', th'. split; [exact Hrun|]. split; [exact Hth'|exact Hrange].
Defined.

Lemma get_ready_threads_size_eq k cur :
  thread_mlfqs k = true →
  valid k (running k) cur → status cur = THREAD_RUNNING →
  ready_thread_count k < 2 ^ 31 →
  get_ready_threads_size k = Done (ready_thread_count k) k.
Proof.
  intros Hm Hv Hs Hsmall. unfold get_ready_threads_size.
  rewrite (bind_Done _ _ k true k) by (unfold gets; by rewrite Hm).
  kbind (ASSERT_true true k eq_refl).
  rewrite (bind_Done (gets ready_list) _ k (ready_list k) k eq_refl).
  kbind (thread_current_eq _ _ Hv Hs).
  rewrite (bind_Done (gets idle_thread) _ k (idle_thread k) k eq_refl).
  unfold ready_thread_count, list_size in *.
  destruct (running k =? idle_thread k)%N; simpl; unfold mret, kern_ret;
    f_equal; rewrite ?(int32_small (Z.of_nat _)); try apply int32_small; lia.
Qed.

(** C6, as amended: the stored value is the recurrence with both
    coefficients truncated to 17.14 first; it never exceeds the exact
    value, and it is below it by less than
    [1 + 7·load_avg/122880 + ready_thread_count/15] units. *)
Theorem thread_calculate_load_avg_truncates k cur :
  thread_mlfqs k = true →
  valid k (running k) cur → status cur = THREAD_RUNNING →
  0 <= load_avg k →
  load_avg k + 273 * ready_thread_count k < 2 ^ 31 →
  ∃ k', thread_calculate_load_avg k = Done tt k' ∧
        k' = set_load_avg (load_avg k') k ∧
        load_avg k'
        = Z.quot (16110 * load_avg k) F + 273 * ready_thread_count k ∧
        (inject_Z (load_avg k')
         <= exact_next_load_avg (load_avg k) (ready_thread_count k))%Q ∧
        (exact_next_load_avg (load_avg k) (ready_thread_count k)
         - inject_Z (load_avg k')
         < 1 + (7 # 122880) * inject_Z (load_avg k)
           + (1 # 15) * inject_Z (ready_thread_count k))%Q.
Proof.
  intros Hm Hv Hs Hla Hb.
  assert (Hn : 0 <= ready_thread_count k).
  { unfold ready_thread_count, list_size.
    destruct (running k =? idle_thread k)%N; lia. }
  assert (Hrun : thread_calculate_load_avg k
                 = Done tt (set_load_avg
                              (next_load_avg (load_avg k)
                                 (ready_thread_count k)) k)).
  { unfold thread_calculate_load_avg.
    rewrite (bind_Done _ _ k true k) by (unfold gets; by rewrite Hm).
    kbind (ASSERT_true true k eq_refl).
    rewrite (bind_Done (gets load_avg) _ k (load_avg k) k eq_refl).
    rewrite (bind_Done _ _ _ _ _ (get_ready_threads_size_eq k cur Hm Hv Hs
                                    ltac:(lia))).
    reflexivity. }
  revert Hrun.
  generalize (next_load_avg_truncated _ _ Hla Hn Hb).
  generalize (next_load_avg_error _ _ Hla Hn Hb).
  generalize (next_load_avg (load_avg k) (ready_thread_count k)).
  intros v Herr Htrunc Hrun. exists (set_load_avg v k).
  split; [done|]. split; [done|]. split; [exact Htrunc|exact Herr].
Qed.

Lemma thread_calculate_load_avg_truncates_witness :
  ∃ k', thread_calculate_load_avg (mlfqs_kernel INTR_OFF true) = Done tt k' ∧
        load_avg k' = 49149.
Proof.
  destruct (thread_calculate_load_avg_truncates (mlfqs_kernel INTR_OFF true)
              (mk_thread 1 THREAD_RUNNING "main" 4096 63 63 []
                 NEXT_NULL NULL 0 (40 * F) THREAD_MAGIC))
    as (k' & Hrun & _ & Hla & _).
  - reflexivity.
  - solve_valid.
  - reflexivity.
  - vm_compute. discriminate.
  - vm_compute. reflexivity.
  - exists k'. split; [exact Hrun|]. rewrite Hla. reflexivity.
Defined.

(** C6, as stated, fails: with [load_avg] 3 and three threads ready to
    run the exact recurrence gives 3 again, [49152/F]; the stored value is
    three units below. *)
Lemma thread_calculate_load_avg_three_ulps_off :
  let k := mlfqs_kernel INTR_OFF true in
  ∃ k', thread_calculate_load_avg k = Done tt k' ∧
        ¬ within_one_ulp (load_avg k')
            (exact_next_load_avg (load_avg k) (ready_thread_count k)).
Proof.
  eexists. split; [vm_compute; reflexivity|].
  vm_compute. intros H. apply H. reflexivity.
Qed.

(** ** The timer tick *)

#[global] Instance same_priorities_preorder : PreOrder same_priorities.
Proof.
  split.
  - by intros k.
  - intros k1 k2 k3 [E1 H1] [E2 H2]. split; [congruence|].
    intros t. by rewrite H2, H1.
Qed.

Lemma same_priorities_store k t th f :
  threads k !! t = Some th → priority (f th) = priority th →
  same_priorities k (set_threads (<[t := f th]> (threads k)) k).
Proof.
  intros Ht Hf. split; [done|]. intros t'. unfold priority_at. simpl.
  destruct (decide (t = t')) as [->|Hne].
  - by rewrite lookup_insert_eq, Ht.
  - by rewrite lookup_insert_ne.
Qed.

Lemma thread_calculate_recent_cpu_same_priorities t :
  preserves same_priorities (thread_calculate_recent_cpu t).
Proof.
  unfold thread_calculate_recent_cpu. preserving.
  apply preserves_store; preorder. intros k th Ht.
  by apply same_priorities_store.
Qed.

Lemma thread_recalculate_bsd_variables_same_priorities :
  preserves same_priorities thread_recalculate_bsd_variables.
Proof.
  unfold thread_recalculate_bsd_variables, thread_calculate_load_avg,
    get_ready_threads_size, thread_foreach, timer_ticks, intr_get_level.
  preserving.
  all: try (apply preserves_modify; preorder; by intros k).
  all: try (apply preserves_store; preorder; intros k th Ht;
            by apply same_priorities_store).
  all: apply preserves_foreach; preorder.
  all: apply thread_calculate_recent_cpu_same_priorities.
Qed.

(** The tick hook writes no [priority] field and leaves the ready list as
    it is, whatever the tick count. *)
Lemma thread_tick_same_priorities : preserves same_priorities thread_tick.
Proof.
  unfold thread_tick, intr_yield_on_return. preserving.
  all: try (apply preserves_modify; preorder; by intros k).
  all: apply thread_recalculate_bsd_variables_same_priorities.
Qed.

(** C3: at a tick whose count, and whose [thread_ticks] after the
    increment, is 4, the hook returns with every stored priority and the
    ready list as they were, although the formula gives 52, 13 and 63 for
    the threads 1, 2 and 3 and would put thread 3 in front. *)
Theorem thread_tick_leaves_priorities :
  let k := mlfqs_kernel INTR_OFF true in
  thread_mlfqs k = true ∧ ticks k = 4 ∧
  ∃ k', thread_tick k = Done tt k' ∧
        thread_ticks k' = 4 ∧
        ready_list k' = [2%N; 3%N] ∧
        priority <$> threads k' !! 1%N = Some 63 ∧
        priority <$> threads k' !! 2%N = Some 20 ∧
        priority <$> threads k' !! 3%N = Some 10 ∧
        (λ th, bsd_priority (recent_cpu th) (nice th)) <$> threads k' !! 1%N
        = Some 52 ∧
        (λ th, bsd_priority (recent_cpu th) (nice th)) <$> threads k' !! 2%N
        = Some 13 ∧
        (λ th, bsd_priority (recent_cpu th) (nice th)) <$> threads k' !! 3%N
        = Some 63.
Proof.
  split; [reflexivity|]. split; [reflexivity|].
  eexists. split; [vm_compute; reflexivity|].
  vm_compute. repeat split.
Qed.

(** ** Scheduling *)

Lemma repriced_refl k : repriced k k.
Proof. split; [by destruct k|done]. Qed.

Lemma repriced_trans k1 k2 k3 :
  repriced k1 k2 → repriced k2 k3 → repriced k1 k3.
Proof.
  intros [E1 H1] [E2 H2]. split.
  - rewrite E2 at 1. rewrite E1. by destruct k1.
  - intros t. by rewrite H2, H1.
Qed.

Lemma repriced_lookup k k' t th :
  repriced k k' → threads k !! t = Some th →
  ∃ p, threads k' !! t = Some (set_priority p th).
Proof.
  intros [_ H] Ht. specialize (H t). rewrite Ht in H.
  destruct (threads k' !! t) as [th'|] eqn:Ht'; [|done].
  exists (priority th'). simpl in H. f_equal.
  injection H as H. destruct th, th'. unfold set_priority in *. simpl in *.
  by simplify_eq.
Qed.

Lemma repriced_thread_ok k k' t :
  repriced k k' → thread_ok k t → thread_ok k' t.
Proof.
  intros Hr (th & Hn & Ht & Hm).
  destruct (repriced_lookup _ _ _ _ Hr Ht) as [p Hp].
  exists (set_priority p th). by repeat split.
Qed.

Lemma repriced_store k t th p :
  threads k !! t = Some th →
  repriced k (set_threads (<[t := set_priority p th]> (threads k)) k).
Proof.
  intros Ht. split; [by destruct k|]. intros t'. simpl.
  destruct (decide (t = t')) as [->|Hne].
  - by rewrite lookup_insert_eq, Ht.
  - by rewrite lookup_insert_ne.
Qed.

Lemma foreach_bsd_priority_returns l k :
  thread_mlfqs k = true → Forall (thread_ok k) l →
  returns (foreach thread_calculate_bsd_priority l) k
    (λ _ k', repriced k k').
Proof.
  revert k. induction l as [|t l IH]; intros k Hm Hall; simpl.
  - apply returns_mret, repriced_refl.
  - apply Forall_cons in Hall as [(th & Hv) Hall].
    apply returns_bind.
    eapply returns_Done; [by apply thread_calculate_bsd_priority_eq|].
    assert (Hr := repriced_store k t th
                    (bsd_priority (recent_cpu th) (nice th)) (proj1 (proj2 Hv))).
    eapply returns_mono.
    + apply IH; [done|].
      eapply Forall_impl; [exact Hall|]. intros t'. by apply repriced_thread_ok.
    + intros ? k' Hr'. by eapply repriced_trans.
Qed.

Lemma reprice_all_returns k :
  level k = INTR_OFF → Forall (thread_ok k) (all_list k) →
  returns
    (if thread_mlfqs k
     then thread_foreach thread_calculate_bsd_priority;;
          modify (λ k0, set_ready_list
                          (list_sort (thread_compare_priority k0)
                             (ready_list k0)) k0)
     else mret tt) k
    (λ _ k', rescheduled k k').
Proof.
  intros Hl Hall. destruct (thread_mlfqs k) eqn:Hm.
  - unfold thread_foreach. ksteps.
    apply returns_ASSERT; [by rewrite Hl|]. ksteps.
    eapply returns_mono; [by apply foreach_bsd_priority_returns|].
    intros ? k1 Hr. simpl. kstep. by exists k1.
  - kstep. exists k. split; [apply repriced_refl|by destruct k].
Qed.

Lemma rescheduled_fields k k' :
  rescheduled k k' →
  level k' = level k ∧ running k' = running k ∧ next_tid k' = next_tid k ∧
  all_list k' = all_list k ∧ free_pages k' = free_pages k ∧
  initial_thread k' = initial_thread k ∧ idle_thread k' = idle_thread k ∧
  locks k' = locks k.
Proof.
  intros (k1 & [E1 _] & E2). rewrite E2, E1. by destruct k.
Qed.

Lemma rescheduled_tid k k' t :
  rescheduled k k' → tid <$> threads k' !! t = tid <$> threads k !! t.
Proof.
  intros (k1 & [_ Hr] & E). rewrite E. simpl. specialize (Hr t).
  apply (f_equal (fmap tid)) in Hr. rewrite <- !option_fmap_compose in Hr.
  exact Hr.
Qed.

Lemma tid_store k t th f t' :
  threads k !! t = Some th → tid (f th) = tid th →
  tid <$> <[t := f th]> (threads k) !! t' = tid <$> threads k !! t'.
Proof.
  intros Ht Hf. destruct (decide (t = t')) as [->|Hne].
  - by rewrite lookup_insert_eq, Ht; simpl; rewrite Hf.
  - by rewrite lookup_insert_ne.
Qed.

Lemma rescheduled_lookup k k' t th :
  rescheduled k k' → threads k !! t = Some th →
  ∃ p, threads k' !! t = Some (set_priority p th).
Proof.
  intros (k1 & Hr & E) Ht.
  destruct (repriced_lookup _ _ _ _ Hr Ht) as [p Hp].
  exists p. rewrite E. by simpl.
Qed.

(** [schedule] returns once the caller has left the running state, and
    the thread at the front of the ready list, or the idle thread when the
    list is empty, is running. *)
Lemma schedule_returns k cur :
  level k = INTR_OFF →
  valid k (running k) cur →
  status cur ≠ THREAD_RUNNING → status cur ≠ THREAD_DYING →
  Forall (thread_ok k) (all_list k) →
  thread_ok k (hd (idle_thread k) (ready_list k)) →
  returns schedule k
    (λ _ k', running k' = hd (idle_thread k) (ready_list k) ∧
             next_tid k' = next_tid k ∧
             all_list k' = all_list k ∧
             free_pages k' = free_pages k ∧
             (∀ t, tid <$> threads k' !! t = tid <$> threads k !! t) ∧
             ∃ th, threads k' !! running k' = Some th ∧
                   status th = THREAD_RUNNING).
Proof.
  intros Hl Hcur Hrun Hdying Hall Hnext. unfold schedule. ksteps.
  set (next := hd (idle_thread k) (ready_list k)) in *.
  set (k1 := set_ready_list (tl (ready_list k)) k).
  assert (Hntr : returns next_thread_to_run k (λ a k', a = next ∧ k' = k1)).
  { unfold next_thread_to_run, next, k1. kstep. kstep.
    destruct (ready_list k) as [|x rest] eqn:Hrl; simpl.
    - kstep. split; [done|]. destruct k; simpl in *. by subst.
    - ksteps. done. }
  eapply returns_mono; [exact Hntr|]. intros ? ? [-> ->]. simpl. ksteps.
  apply returns_ASSERT; [by apply bool_decide_eq_true_2|]. kstep.
  destruct Hcur as (Hcn & Hct & Hcm).
  eapply returns_load; [exact Hct|]. kstep.
  apply returns_ASSERT; [by rewrite bool_decide_true|]. kstep.
  destruct Hnext as (nth & Hnv).
  eapply returns_is_thread; [exact Hnv|]. kstep.
  apply returns_ASSERT; [done|]. ksteps.
  eapply returns_mono; [apply (reprice_all_returns k1); done|].
  intros ? k2 Hres. simpl.
  destruct (rescheduled_fields _ _ Hres)
    as (Hl2 & Hr2 & Htid2 & Hall2 & Hfp2 & Hinit2 & _).
  destruct (rescheduled_lookup _ _ _ _ Hres Hct) as [pc Hct2].
  destruct Hnv as (Hnn & Hnt & Hnm).
  destruct (rescheduled_lookup _ _ _ _ Hres Hnt) as [pn Hnt2].
  simpl in *.
  destruct (N.eqb_spec (running k) next) as [Heq|Hne]; simpl.
  - (* the caller is chosen again *)
    ksteps. unfold thread_schedule_tail. ksteps.
    apply returns_ASSERT; [by rewrite Hl2, Hl|]. kstep.
    rewrite Hr2, Heq.
    eapply returns_store; [exact Hnt2|]. ksteps. simpl. kstep. simpl.
    rewrite Hr2, Heq. split_and!; try done.
    + intros t. rewrite (tid_store k2 next _ (set_status THREAD_RUNNING) t Hnt2 eq_refl).
      apply (rescheduled_tid _ _ t Hres).
    + eexists. split; [apply lookup_insert_eq|done].
  - unfold switch_threads. ksteps. unfold thread_schedule_tail. ksteps.
    apply returns_ASSERT; [simpl; by rewrite Hl2, Hl|]. kstep. simpl.
    eapply returns_store; [exact Hnt2|]. ksteps.
    destruct (N.eqb_spec (running k) NULL) as [|_]; [done|].
    kstep. eapply returns_load.
    { simpl. rewrite lookup_insert_ne by done. exact Hct2. }
    ksteps. simpl.
    rewrite bool_decide_false by done. simpl. kstep. simpl.
    split_and!; try done.
    + intros t. rewrite (tid_store k2 next _ (set_status THREAD_RUNNING) t Hnt2 eq_refl).
      apply (rescheduled_tid _ _ t Hres).
    + eexists. split; [apply lookup_insert_eq|done].
Qed.

Lemma list_insert_ordered_Forall {A : Type} (less : A → A → bool)
    (P : A → Prop) (e : A) (l : list A) :
  P e → Forall P l → Forall P (list_insert_ordered less e l).
Proof.
  intros He. induction 1 as [|x l Hx Hl IH]; simpl.
  - by constructor.
  - destruct (less e x); repeat constructor; done.
Qed.

Lemma list_insert_ordered_not_nil {A : Type} (less : A → A → bool)
    (e : A) (l : list A) :
  list_insert_ordered less e l ≠ [].
Proof. destruct l; simpl; [done|]. by destruct (less e a). Qed.

Lemma hd_list_insert_ordered_keep {A : Type} (less : A → A → bool)
    (e x d : A) (l : list A) :
  less e x = false → hd d (list_insert_ordered less e (x :: l)) = x.
Proof. intros Hless. simpl. by rewrite Hless. Qed.

Lemma thread_ok_store k t th f t' :
  threads k !! t = Some th → magic (f th) = magic th →
  thread_ok k t' →
  thread_ok (set_threads (<[t := f th]> (threads k)) k) t'.
Proof.
  intros Ht Hm (th' & Hn & Ht' & Hm'). unfold thread_ok, valid. simpl.
  destruct (decide (t = t')) as [->|Hne].
  - exists (f th). split; [done|]. split; [apply lookup_insert_eq|].
    rewrite Hm. congruence.
  - exists th'. split; [done|]. split; [by rewrite lookup_insert_ne|done].
Qed.

(** [thread_yield] returns on the stack of the thread that was at the
    front of the ready list once the caller was put back into it. *)
Lemma thread_yield_returns k :
  well_formed k →
  in_external_intr k = false →
  running k ≠ idle_thread k ∨ ready_list k ≠ [] →
  returns thread_yield k
    (λ _ k',
       running k'
       = hd (idle_thread k)
           (if negb (running k =? idle_thread k)%N
            then list_insert_ordered
                   (thread_compare_priority (set_level INTR_OFF k))
                   (running k) (ready_list k)
            else ready_list k) ∧
       next_tid k' = next_tid k ∧
       all_list k' = all_list k ∧
       free_pages k' = free_pages k ∧
       (∀ t, tid <$> threads k' !! t = tid <$> threads k !! t) ∧
       ∃ th, threads k' !! running k' = Some th ∧
             status th = THREAD_RUNNING).
Proof.
  intros [(cur & Hv & Hs) Hready Hall] Hintr Hsome. unfold thread_yield.
  kstep. eapply returns_thread_current; [done..|].
  ksteps. apply returns_ASSERT; [by rewrite Hintr|]. ksteps.
  assert (Hcur_ok : thread_ok k (running k)) by by exists cur.
  destruct Hv as (Hn & Ht & Hm).
  set (rl' := if negb (running k =? idle_thread k)%N
              then list_insert_ordered
                     (thread_compare_priority (set_level INTR_OFF k))
                     (running k) (ready_list k)
              else ready_list k).
  set (k2 := set_ready_list rl' (set_level INTR_OFF k)).
  assert (Hins : returns
            (if negb (running k =? idle_thread k)%N
             then ready_list_insert_ordered (running k) else mret tt)
            (set_level INTR_OFF k) (λ _ k', k' = k2)).
  { unfold k2, rl'. destruct (negb _); kstep; [done|]. by destruct k. }
  eapply returns_mono; [exact Hins|]. intros ? ? ->. kstep.
  eapply returns_store; [exact Ht|]. simpl.
  assert (Hrl' : Forall (thread_ok k) rl' ∧ rl' ≠ []).
  { unfold rl'. destruct (N.eqb_spec (running k) (idle_thread k)); simpl.
    - split; [done|]. by destruct Hsome.
    - split; [by apply list_insert_ordered_Forall|].
      apply list_insert_ordered_not_nil. }
  destruct Hrl' as [Hrl' Hne].
  kstep. eapply returns_mono.
  - eapply (schedule_returns _ (set_status THREAD_READY cur)); simpl;
      try done.
    + split; [done|]. split; [apply lookup_insert_eq|done].
    + eapply Forall_impl; [exact Hall|]. intros t' Ht'.
      by apply (thread_ok_store k (running k) cur).
    + destruct rl' as [|x rl'']; [done|]. simpl.
      apply Forall_cons in Hrl' as [Hx _].
      by apply (thread_ok_store k (running k) cur).
  - intros ? k'. simpl. intros (? & ? & ? & ? & Htid & ?).
    assert (Htid' : ∀ t, tid <$> threads k' !! t = tid <$> threads k !! t).
    { intros t. rewrite Htid.
      apply (tid_store k (running k) cur (set_status THREAD_READY) t Ht
               eq_refl). }
    ksteps. destruct (running k' =? running k)%N; ksteps; simpl;
      split_and!; done.
Qed.

Lemma thread_get_max_priority_eq k :
  Forall (thread_ok k) (ready_list k) →
  thread_get_max_priority k = Done (max_ready_priority k) k.
Proof.
  intros Hready. unfold thread_get_max_priority, max_ready_priority. kred.
  destruct (ready_list k) as [|t rest]; simpl.
  - by destruct k.
  - apply Forall_cons in Hready as [(th & _ & Ht & _) _].
    unfold load, priority_at. simpl. rewrite Ht. by destruct k.
Qed.

Lemma thread_get_priority_eq k cur :
  valid k (running k) cur → status cur = THREAD_RUNNING →
  thread_get_priority k = Done (priority cur) k.
Proof.
  intros Hv Hs. unfold thread_get_priority.
  kbind (thread_current_eq _ _ Hv Hs).
  destruct Hv as (_ & Ht & _). kred. unfold load. by rewrite Ht.
Qed.

(** [thread_max_yield] by cases. *)
Lemma thread_max_yield_eq k cur :
  valid k (running k) cur → status cur = THREAD_RUNNING →
  Forall (thread_ok k) (ready_list k) →
  thread_max_yield k
  = if max_ready_priority k >? priority cur
    then if in_external_intr k
         then Done tt (set_yield_on_return true k)
         else thread_yield k
    else Done tt k.
Proof.
  intros Hv Hs Hready. unfold thread_max_yield.
  kbind (thread_get_max_priority_eq _ Hready).
  kbind (thread_get_priority_eq _ _ Hv Hs).
  destruct (max_ready_priority k >? priority cur); [|done].
  kred. by destruct (in_external_intr k).
Qed.

Lemma thread_max_yield_returns k cur :
  well_formed k →
  valid k (running k) cur →
  ready_list k ≠ [] ∨ PRI_MIN <= priority cur →
  returns thread_max_yield k
    (λ _ k', next_tid k' = next_tid k ∧ all_list k' = all_list k ∧
             free_pages k' = free_pages k ∧
             ∀ t, tid <$> threads k' !! t = tid <$> threads k !! t).
Proof.
  intros Hwf Hv Hsome.
  destruct (wf_running _ Hwf) as (cur' & Hv' & Hs).
  assert (cur' = cur) as ->.
  { destruct Hv as (_ & H1 & _), Hv' as (_ & H2 & _). congruence. }
  unfold returns.
  rewrite (thread_max_yield_eq _ _ Hv Hs (wf_ready _ Hwf)).
  destruct (Z.gtb_spec (max_ready_priority k) (priority cur)) as [Hgt|_];
    [|by eexists _, _].
  destruct (in_external_intr k) eqn:Hintr; [by eexists _, _|].
  eapply returns_mono.
  - apply thread_yield_returns; [done..|].
    right. intros Hnil. unfold max_ready_priority in Hgt.
    rewrite Hnil in Hgt. destruct Hsome; [done|]. unfold PRI_MIN in *. lia.
  - intros ? k' (_ & ? & ? & ? & ? & _). done.
Qed.

(** ** Creation *)

Lemma init_thread_eq k t name priority old :
  t ≠ NULL → PRI_MIN <= priority <= PRI_MAX →
  threads k !! t = Some old →
  init_thread t name priority k
  = Done tt
      (set_all_list (list_push_back (all_list k) t)
         (set_threads
            (<[t := mk_thread 0 THREAD_BLOCKED (String.substring 0 15 name)
                      (Z.of_N t + PGSIZE) priority priority [] NEXT_NULL
                      NULL 0 0 THREAD_MAGIC]>
               (threads k)) k)).
Proof.
  intros Hn [Hlo Hhi] Ht. unfold init_thread.
  destruct (N.eqb_spec t NULL) as [|_]; [done|]. simpl.
  kbind (ASSERT_true true k eq_refl).
  rewrite (bind_Done _ _ k tt k).
  2:{ apply ASSERT_true. apply andb_true_intro. split; lia. }
  kbind (store_Some k t old
           (λ _, mk_thread 0 THREAD_BLOCKED (String.substring 0 15 name)
                   (Z.of_N t + PGSIZE) priority priority [] NEXT_NULL NULL
                   0 0 THREAD_MAGIC) Ht).
  kred. by destruct k.
Qed.

Lemma alloc_frame_eq k t th size :
  valid k t th → Z.rem size 4 = 0 →
  alloc_frame t size k
  = Done (stack th - size)
      (set_threads (<[t := set_stack (stack th - size) th]> (threads k)) k).
Proof.
  intros Hv Hsize. unfold alloc_frame.
  kbind (is_thread_valid _ _ _ Hv). destruct Hv as (_ & Ht & _).
  kred. rewrite Hsize. simpl. unfold load, store. by rewrite !Ht.
Qed.

Lemma thread_unblock_eq k t th :
  valid k t th → status th = THREAD_BLOCKED →
  thread_unblock t k
  = Done tt
      (set_threads (<[t := set_status THREAD_READY th]> (threads k))
         (set_ready_list
            (list_insert_ordered (thread_compare_priority k) t (ready_list k))
            k)).
Proof.
  intros Hv Hs. unfold thread_unblock.
  kbind (is_thread_valid _ _ _ Hv). destruct Hv as (_ & Ht & _).
  kred. unfold load, store, ready_list_insert_ordered. kred.
  rewrite Ht, Hs. simpl. rewrite Ht. by destruct k.
Qed.

Lemma thread_ok_fresh k k' p t :
  thread_ok k t → threads k !! p = None →
  (∀ t', t' ≠ p → threads k' !! t' = threads k !! t') →
  thread_ok k' t.
Proof.
  intros (th & Hn & Ht & Hm) Hp Hsame. exists th.
  split; [done|]. split; [|done]. rewrite Hsame; [done|]. congruence.
Qed.

(** *** The tid counter *)

#[global] Instance same_next_tid_preorder : PreOrder same_next_tid.
Proof.
  split.
  - by intros k.
  - intros k1 k2 k3 H1 H2. unfold same_next_tid in *. congruence.
Qed.

Lemma preserves_bind_mixed {A B : Type} (R1 R2 R3 : relation kernel)
    (m : kern A) (f : A → kern B) :
  (∀ x y z, R1 x y → R2 y z → R3 x z) →
  preserves R1 m → (∀ a, preserves R2 (f a)) → preserves R3 (m ≫= f).
Proof.
  intros Hcomp Hm Hf k b k'. unfold mbind, kern_bind.
  destruct (m k) as [a k1| |] eqn:Hmk; [|done..]. intros Hfk.
  eapply Hcomp; [by eapply Hm|by eapply Hf].
Qed.

Lemma same_then_step x y z : same_next_tid x y → tid_step y z → tid_step x z.
Proof. unfold same_next_tid, tid_step. intros -> H. exact H. Qed.

Lemma step_then_same x y z : tid_step x y → same_next_tid y z → tid_step x z.
Proof. unfold same_next_tid, tid_step. intros H ->. exact H. Qed.

Ltac same_tid :=
  preserving;
  try (apply preserves_modify; preorder; by intros ?);
  try (apply preserves_store; preorder; by intros ? ? ?).

Lemma allocate_tid_tid_step : preserves tid_step allocate_tid.
Proof.
  intros k a k'. unfold allocate_tid. kred. intros [= _ <-]. by right.
Qed.

Lemma palloc_get_page_same_next_tid : preserves same_next_tid palloc_get_page.
Proof.
  intros k a k'. unfold palloc_get_page.
  destruct (free_pages k); intros [= _ <-]; done.
Qed.

Lemma init_thread_same_next_tid t name priority :
  preserves same_next_tid (init_thread t name priority).
Proof. unfold init_thread, intr_disable, intr_set_level. same_tid. Qed.

Lemma alloc_frame_same_next_tid t size :
  preserves same_next_tid (alloc_frame t size).
Proof. unfold alloc_frame. same_tid. Qed.

Lemma thread_unblock_same_next_tid t :
  preserves same_next_tid (thread_unblock t).
Proof.
  unfold thread_unblock, ready_list_insert_ordered, intr_disable,
    intr_set_level.
  same_tid.
Qed.

Lemma thread_calculate_bsd_priority_same_next_tid t :
  preserves same_next_tid (thread_calculate_bsd_priority t).
Proof. unfold thread_calculate_bsd_priority. same_tid. Qed.

Lemma schedule_same_next_tid : preserves same_next_tid schedule.
Proof.
  unfold schedule, next_thread_to_run, switch_threads, thread_schedule_tail,
    thread_foreach, palloc_free_page, running_thread, intr_get_level.
  same_tid.
  all: apply preserves_foreach; preorder.
  all: apply thread_calculate_bsd_priority_same_next_tid.
Qed.

Lemma thread_yield_same_next_tid : preserves same_next_tid thread_yield.
Proof.
  unfold thread_yield, ready_list_insert_ordered, intr_context, intr_disable,
    intr_set_level, running_thread.
  same_tid.
  all: apply schedule_same_next_tid.
Qed.

Lemma thread_max_yield_same_next_tid : preserves same_next_tid thread_max_yield.
Proof.
  unfold thread_max_yield, thread_get_max_priority, thread_get_priority,
    intr_yield_on_return, intr_context, intr_disable, intr_set_level.
  same_tid.
  all: apply thread_yield_same_next_tid.
Qed.

(** [thread_create] asks for at most one tid. *)
Lemma thread_create_tid_step name priority function aux :
  preserves tid_step (thread_create name priority function aux).
Proof.
  unfold thread_create.
  apply (preserves_bind_mixed same_next_tid tid_step tid_step);
    [apply same_then_step|apply preserves_ASSERT; apply _|intros _].
  apply (preserves_bind_mixed same_next_tid tid_step tid_step);
    [apply same_then_step|apply palloc_get_page_same_next_tid|intros t].
  destruct (t =? NULL)%N; [intros k a k' [= _ <-]; by left|].
  apply (preserves_bind_mixed same_next_tid tid_step tid_step);
    [apply same_then_step|apply init_thread_same_next_tid|intros _].
  apply (preserves_bind_mixed tid_step same_next_tid tid_step);
    [apply step_then_same|apply allocate_tid_tid_step|intros tid].
  unfold intr_disable, intr_set_level. same_tid.
  all: first [apply alloc_frame_same_next_tid
             |apply thread_unblock_same_next_tid
             |apply thread_max_yield_same_next_tid].
Qed.

(** [thread_init] asks for one tid. *)
Lemma thread_init_tid_step : preserves tid_step thread_init.
Proof.
  unfold thread_init, intr_get_level, running_thread.
  do 9 (apply (preserves_bind_mixed same_next_tid tid_step tid_step);
         [apply same_then_step
         |first [apply init_thread_same_next_tid|solve [same_tid]]
         |intros ?]).
  apply (preserves_bind_mixed tid_step same_next_tid tid_step);
    [apply step_then_same|apply allocate_tid_tid_step|intros tid].
  solve [same_tid].
Qed.

(** The tid counter starts at 1 and is only ever incremented: it is
    positive in every state the kernel reaches. *)
Lemma reachable_next_tid k : reachable k → 0 < next_tid k.
Proof.
  induction 1 as [k Hboot|k k' _ IH Hmax Hrun
                  |k name priority function aux tid k' _ IH Hmax Hrun
                  |k k' _ IH Hsame].
  - destruct Hboot as [-> _]. lia.
  - apply thread_init_tid_step in Hrun as [->| ->]; [done|].
    rewrite int32_small; unfold INT_MAX in Hmax; lia.
  - apply thread_create_tid_step in Hrun as [->| ->]; [done|].
    rewrite int32_small; unfold INT_MAX in Hmax; lia.
  - by rewrite Hsame.
Qed.

(** No other function of [thread.c] reaches [allocate_tid]: each leaves
    the counter as it is, which is what [reach_elsewhere] stands for. *)

Lemma thread_get_donated_priority_same_next_tid t :
  preserves same_next_tid (thread_get_donated_priority t).
Proof.
  unfold thread_get_donated_priority, intr_disable, intr_set_level. same_tid.
Qed.

Lemma thread_reinsert_ready_list_same_next_tid t :
  preserves same_next_tid (thread_reinsert_ready_list t).
Proof.
  unfold thread_reinsert_ready_list, ready_list_insert_ordered,
    intr_get_level.
  same_tid.
Qed.

Lemma thread_reset_priority_same_next_tid t :
  preserves same_next_tid (thread_reset_priority t).
Proof.
  unfold thread_reset_priority, intr_disable, intr_set_level. same_tid.
  all: first [apply thread_get_donated_priority_same_next_tid
             |apply thread_reinsert_ready_list_same_next_tid].
Qed.

Lemma thread_set_priority_same_next_tid new_priority :
  preserves same_next_tid (thread_set_priority new_priority).
Proof.
  unfold thread_set_priority. same_tid.
  all: first [apply thread_reset_priority_same_next_tid
             |apply thread_max_yield_same_next_tid].
Qed.

Lemma thread_set_nice_same_next_tid nice :
  preserves same_next_tid (thread_set_nice nice).
Proof.
  unfold thread_set_nice. same_tid.
  all: first [apply thread_calculate_bsd_priority_same_next_tid
             |apply thread_reinsert_ready_list_same_next_tid
             |apply thread_max_yield_same_next_tid].
Qed.

Lemma thread_remove_donation_same_next_tid t :
  preserves same_next_tid (thread_remove_donation t).
Proof.
  unfold thread_remove_donation, donations_remove, intr_get_level. same_tid.
Qed.

Lemma donations_insert_ordered_same_next_tid h t :
  preserves same_next_tid (donations_insert_ordered h t).
Proof.
  unfold donations_insert_ordered. same_tid.
  intros k. apply preserves_store; preorder. by intros ? ? ?.
Qed.

Lemma donate_walk_same_next_tid steps :
  ∀ t, preserves same_next_tid (donate_walk steps t).
Proof.
  induction steps as [|steps IH]; intros t; [by intros k a k'|].
  simpl. same_tid.
  all: first [apply IH
             |apply thread_reset_priority_same_next_tid
             |apply thread_remove_donation_same_next_tid
             |apply donations_insert_ordered_same_next_tid].
Qed.

Lemma thread_donate_priority_same_next_tid steps t :
  preserves same_next_tid (thread_donate_priority steps t).
Proof.
  unfold thread_donate_priority, intr_get_level. same_tid.
  all: first [apply donate_walk_same_next_tid
             |apply thread_reset_priority_same_next_tid].
Qed.

Lemma thread_block_same_next_tid : preserves same_next_tid thread_block.
Proof.
  unfold thread_block, intr_context, intr_get_level. same_tid.
  all: apply schedule_same_next_tid.
Qed.

Lemma thread_exit_same_next_tid : preserves same_next_tid thread_exit.
Proof.
  unfold thread_exit, intr_context, intr_disable, intr_set_level. same_tid.
  all: apply schedule_same_next_tid.
Qed.

Lemma thread_tick_same_next_tid : preserves same_next_tid thread_tick.
Proof.
  unfold thread_tick, thread_recalculate_bsd_variables,
    thread_calculate_load_avg, get_ready_threads_size, thread_foreach,
    timer_ticks, intr_get_level, intr_yield_on_return.
  same_tid.
  all: apply preserves_foreach; preorder.
  all: intros t; unfold thread_calculate_recent_cpu; same_tid.
Qed.

(** A call that leaves the counter alone leads from a reachable state to
    a reachable state. *)
Lemma reachable_preserved {A : Type} (m : kern A) k a k' :
  preserves same_next_tid m → reachable k → m k = Done a k' → reachable k'.
Proof.
  intros Hm Hreach Hrun. apply (reach_elsewhere k); [done|].
  by apply (Hm k a k').
Qed.

(** [thread_create], whatever the tid counter holds. *)
Lemma thread_create_from k name priority function aux :
  function ≠ NULL →
  (free_pages k = [] →
   thread_create name priority function aux k = Done TID_ERROR k) ∧
  (∀ p rest,
     free_pages k = p :: rest → p ≠ NULL → threads k !! p = None →
     well_formed k →
     PRI_MIN <= priority <= PRI_MAX →
     ∃ k', thread_create name priority function aux k
           = Done (next_tid k) k' ∧
           next_tid k' = int32 (next_tid k + 1) ∧
           all_list k' = all_list k ++ [p] ∧
           tid <$> threads k' !! p = Some (next_tid k)).
Proof.
  intros Hf. split.
  - intros Hfp. unfold thread_create.
    destruct (N.eqb_spec function NULL) as [|_]; [done|]. simpl.
    kbind (ASSERT_true true k eq_refl).
    unfold palloc_get_page. kred. by rewrite Hfp.
  - intros p rest Hfp Hp Hfresh Hwf Hprio.
    assert (Hnew : ∀ th k0, threads k0 !! p = Some th →
              magic th = THREAD_MAGIC → valid k0 p th) by done.
    cut (returns (thread_create name priority function aux) k
           (λ r k', r = next_tid k ∧ next_tid k' = int32 (next_tid k + 1) ∧
                    all_list k' = all_list k ++ [p] ∧
                    tid <$> threads k' !! p = Some (next_tid k))).
    { intros (r & k' & Hrun & -> & ? & ? & ?). by exists k'. }
    unfold thread_create.
    destruct (N.eqb_spec function NULL) as [|_]; [done|]. simpl.
    ksteps.
    eapply returns_Done.
    { unfold palloc_get_page. by rewrite Hfp. }
    destruct (N.eqb_spec p NULL) as [|_]; [done|]. kstep.
    eapply returns_Done.
    { eapply init_thread_eq; [done..|]. simpl. apply lookup_insert_eq. }
    kstep. unfold allocate_tid. ksteps. simpl.
    eapply returns_store; [simpl; apply lookup_insert_eq|]. ksteps.
    eapply returns_Done.
    { apply alloc_frame_eq; [|reflexivity]. 
      apply Hnew; [simpl; apply lookup_insert_eq|done]. }
    kstep. eapply returns_Done.
    { apply alloc_frame_eq; [|reflexivity]. 
      apply Hnew; [simpl; apply lookup_insert_eq|done]. }
    kstep. eapply returns_Done.
    { apply alloc_frame_eq; [|reflexivity]. 
      apply Hnew; [simpl; apply lookup_insert_eq|done]. }
    ksteps. eapply returns_Done.
    { eapply thread_unblock_eq.
      - apply Hnew; [simpl; apply lookup_insert_eq|done].
      - done. }
    kstep. simpl.
    match goal with |- returns _ ?k0 _ => set (kc := k0) end.
    destruct (wf_running _ Hwf) as (cur & Hcur & Hs).
    assert (Hrun : running k ≠ p).
    { destruct Hcur as (_ & Hc & _). congruence. }
    assert (Hsame : ∀ t', t' ≠ p → threads kc !! t' = threads k !! t').
    { intros t' Hne. simpl. by rewrite !lookup_insert_ne. }
    assert (Hpc : ∃ th, threads kc !! p = Some th ∧ tid th = next_tid k ∧
                        magic th = THREAD_MAGIC).
    { eexists. split; [simpl; apply lookup_insert_eq|done]. }
    destruct Hpc as (pth & Hpt & Hptid & Hpm).
    assert (Hok : ∀ t, thread_ok k t → thread_ok kc t).
    { intros t Ht. by eapply thread_ok_fresh. }
    assert (Hokp : thread_ok kc p) by by exists pth.
    assert (Hrl : ∃ less,
              ready_list kc = list_insert_ordered less p (ready_list k)).
    { eexists. reflexivity. }
    destruct Hrl as [less Hrl].
    assert (Hal : all_list kc = all_list k ++ [p]) by reflexivity.
    assert (Hcurc : valid kc (running kc) cur).
    { destruct Hcur as (? & Hc & ?). split; [done|]. split; [|done].
      change (running kc) with (running k). by rewrite Hsame. }
    assert (Hwfc : well_formed kc).
    { split.
      - by exists cur.
      - rewrite Hrl. apply list_insert_ordered_Forall; [done|].
        eapply Forall_impl; [apply (wf_ready _ Hwf)|done].
      - rewrite Hal. apply Forall_app. split; [|by repeat constructor].
        eapply Forall_impl; [apply (wf_all _ Hwf)|done]. }
    eapply returns_mono.
    + apply (thread_max_yield_returns kc cur Hwfc Hcurc).
      left. rewrite Hrl. apply list_insert_ordered_not_nil.
    + intros ? k' (Hnt & Hall' & _ & Htid'). kstep.
      split; [done|]. split; [by rewrite Hnt|].
      split; [by rewrite Hall'|].
      by rewrite Htid', Hpt; simpl; rewrite Hptid.
Qed.

(** C8: in the states the kernel reaches from boot, where the tid counter
    starts at 1: when no page is left [thread_create] returns [TID_ERROR]
    and the state it was given; when a page is allocated it returns the
    value of the tid counter, which is positive, is not [TID_ERROR] and is
    stored in the new thread; and while the counter is below [INT_MAX] it
    is one more afterwards, in a state that is reachable again, so that
    the next thread gets the next tid. *)
Theorem thread_create_returns k name priority function aux :
  function ≠ NULL →
  reachable k →
  (free_pages k = [] →
   thread_create name priority function aux k = Done TID_ERROR k) ∧
  (∀ p rest,
     free_pages k = p :: rest → p ≠ NULL → threads k !! p = None →
     well_formed k →
     PRI_MIN <= priority <= PRI_MAX →
     ∃ k', thread_create name priority function aux k
           = Done (next_tid k) k' ∧
           next_tid k ≠ TID_ERROR ∧
           0 < next_tid k ∧
           all_list k' = all_list k ++ [p] ∧
           tid <$> threads k' !! p = Some (next_tid k) ∧
           (next_tid k < INT_MAX →
            next_tid k' = next_tid k + 1 ∧ reachable k')).
Proof.
  intros Hf Hreach.
  pose proof (reachable_next_tid k Hreach) as Hpos.
  destruct (thread_create_from k name priority function aux Hf)
    as [Hnone Hsome].
  split; [exact Hnone|].
  intros p rest Hfp Hp Hfresh Hwf Hprio.
  destruct (Hsome p rest Hfp Hp Hfresh Hwf Hprio)
    as (k' & Hrun & Hnext & Hall & Htid).
  exists k'. split_and!; try done.
  - unfold TID_ERROR. lia.
  - intros Hmax. split.
    + rewrite Hnext. apply int32_small. unfold INT_MAX in Hmax. lia.
    + by apply (reach_thread_create k name priority function aux
                  (next_tid k)).
Qed.

Lemma started_kernel_reachable : reachable started_kernel.
Proof.
  apply (reach_thread_init boot_kernel).
  - apply reach_boot. by split_and!.
  - by vm_compute.
  - by vm_compute.
Qed.

Lemma thread_create_returns_witness :
  ∃ k', thread_create "worker" 20 100%N NULL started_kernel = Done 2 k' ∧
        all_list k' = [1%N; 8%N] ∧ next_tid k' = 3.
Proof.
  destruct (thread_create_returns started_kernel "worker" 20 100%N NULL)
    as [_ Hok]; [done|apply started_kernel_reachable|].
  destruct (Hok 8%N [9%N]) as (k' & Hrun & _ & _ & Hall & _ & Hnext).
  - by vm_compute.
  - done.
  - by vm_compute.
  - unfold started_kernel. vm_compute thread_init.
    solve_well_formed.
  - split; vm_compute; discriminate.
  - exists k'. split; [exact Hrun|]. split; [exact Hall|].
    apply Hnext. by vm_compute.
Defined.

(** ** Nice *)

(** Outside [[NICE_MIN, NICE_MAX]] the assertion stops the kernel: nothing
    is clamped. *)
Lemma thread_set_nice_out_of_range k nice :
  ¬ (NICE_MIN <= nice <= NICE_MAX) → thread_set_nice nice k = Panic.
Proof.
  intros Hout. unfold thread_set_nice. kred.
  destruct (thread_mlfqs k); [|done]. simpl.
  destruct (Z.geb_spec nice NICE_MIN), (Z.leb_spec nice NICE_MAX);
    simpl; try done. lia.
Qed.

Lemma thread_reinsert_ready_list_skip k t th :
  threads k !! t = Some th → status th ≠ THREAD_READY →
  thread_reinsert_ready_list t k = Done tt k.
Proof.
  intros Ht Hs. unfold thread_reinsert_ready_list.
  kbind (load_Some _ _ _ Ht). by rewrite bool_decide_false.
Qed.

Lemma thread_set_nice_eq k cur nice :
  thread_mlfqs k = true →
  valid k (running k) cur → status cur = THREAD_RUNNING →
  NICE_MIN <= nice <= NICE_MAX →
  thread_set_nice nice k
  = thread_max_yield
      (set_threads
         (<[running k := set_priority (bsd_priority (recent_cpu cur) nice)
                           (set_nice nice cur)]> (threads k)) k).
Proof.
  intros Hm Hv Hs [Hlo Hhi]. unfold thread_set_nice.
  rewrite (bind_Done _ _ k true k) by (unfold gets; by rewrite Hm).
  kbind (ASSERT_true true k eq_refl).
  rewrite (bind_Done _ _ k tt k).
  2:{ apply ASSERT_true, andb_true_intro. split; lia. }
  kbind (thread_current_eq _ _ Hv Hs).
  destruct Hv as (Hn & Ht & Hmagic).
  kbind (store_Some k (running k) cur (set_nice nice) Ht).
  set (k0 := set_threads (<[running k := set_nice nice cur]> (threads k)) k).
  assert (Hv0 : valid k0 (running k) (set_nice nice cur)).
  { split; [done|]. split; [apply lookup_insert_eq|done]. }
  kbind (thread_calculate_bsd_priority_eq k0 _ _ Hm Hv0).
  simpl. rewrite insert_insert_eq.
  erewrite (bind_Done (thread_reinsert_ready_list _)); [done|].
  eapply thread_reinsert_ready_list_skip; [apply lookup_insert_eq|].
  simpl. by rewrite Hs.
Qed.

(** C5, as amended: a value inside the range is stored as it is; the
    current thread is running, so nothing is reinserted; the thread
    yields when the front of the ready list has a higher priority. *)
Theorem thread_set_nice_in_range k cur nice :
  thread_mlfqs k = true →
  well_formed k →
  threads k !! running k = Some cur →
  NICE_MIN <= nice <= NICE_MAX →
  let cur' :=
    set_priority (bsd_priority (recent_cpu cur) nice) (set_nice nice cur) in
  let k1 := set_threads (<[running k := cur']> (threads k)) k in
  ∃ k', thread_set_nice nice k = Done tt k' ∧
        if max_ready_priority k1 >? priority cur'
        then if in_external_intr k
             then k' = set_yield_on_return true k1
             else thread_yield k1 = Done tt k' ∧
                  running k' = hd NULL (ready_list k)
        else k' = k1.
Proof.
  intros Hm Hwf Hcur Hnice.
  destruct (wf_running _ Hwf) as (cur0 & Hv & Hs).
  assert (cur0 = cur) as -> by (destruct Hv as (_ & ? & _); congruence).
  rewrite (thread_set_nice_eq _ _ _ Hm Hv Hs Hnice).
  generalize (bsd_priority_range (recent_cpu cur) nice).
  generalize (bsd_priority (recent_cpu cur) nice). intros p [Hp _] cur' k1.
  fold cur'. fold k1.
  destruct Hv as (Hn & Ht & Hmagic).
  assert (Hpc : priority cur' = p) by reflexivity.
  assert (Hv1 : valid k1 (running k1) cur').
  { split; [done|]. split; [apply lookup_insert_eq|done]. }
  assert (Hok1 : ∀ t', thread_ok k t' → thread_ok k1 t').
  { intros t' Ht'.
    by apply (thread_ok_store k (running k) cur
                (λ c, set_priority p (set_nice nice c))). }
  assert (Hready1 : Forall (thread_ok k1) (ready_list k1)).
  { eapply Forall_impl; [apply (wf_ready _ Hwf)|done]. }
  assert (Hall1 : Forall (thread_ok k1) (all_list k1)).
  { eapply Forall_impl; [apply (wf_all _ Hwf)|done]. }
  rewrite (thread_max_yield_eq k1 cur' Hv1 Hs Hready1).
  destruct (Z.gtb_spec (max_ready_priority k1) (priority cur')) as [Hgt|_];
    [|by exists k1].
  change (in_external_intr k1) with (in_external_intr k).
  destruct (in_external_intr k) eqn:Hintr; [by eexists|].
  assert (Hfront : ∃ t rest, ready_list k = t :: rest ∧
                             priority_at k1 t > priority cur').
  { unfold max_ready_priority in Hgt.
    change (ready_list k1) with (ready_list k) in Hgt.
    destruct (ready_list k) as [|t rest]; [|by exists t, rest; split; [|lia]].
    rewrite Hpc in Hgt. unfold PRI_MIN in Hp, Hgt. lia. }
  destruct Hfront as (t & rest & Hrl & Hprio).
  destruct (thread_yield_returns k1) as (? & k' & Hy & Hrun & _).
  { split; [by exists cur'|done..]. }
  { done. }
  { right. change (ready_list k1) with (ready_list k). by rewrite Hrl. }
  exists k'. destruct x. split; [done|]. split; [done|].
  rewrite Hrun. change (ready_list k1) with (ready_list k). rewrite Hrl.
  destruct (negb _); [|done].
  apply hd_list_insert_ordered_keep. unfold thread_compare_priority.
  change (priority_at (set_level INTR_OFF k1) t) with (priority_at k1 t).
  replace (priority_at (set_level INTR_OFF k1) (running k1))
    with (priority cur').
  2:{ unfold priority_at. simpl. by rewrite lookup_insert_eq. }
  rewrite Z.gtb_ltb. apply Z.ltb_ge.
  change (priority cur' <= priority_at k1 t). lia.
Qed.

Lemma thread_set_nice_in_range_witness :
  ∃ k', thread_set_nice 5 (mlfqs_kernel INTR_ON false) = Done tt k'.
Proof.
  destruct (thread_set_nice_in_range (mlfqs_kernel INTR_ON false)
              (mk_thread 1 THREAD_RUNNING "main" 4096 63 63 []
                 NEXT_NULL NULL 0 (40 * F) THREAD_MAGIC) 5)
    as (k' & Hrun & _).
  - reflexivity.
  - apply mlfqs_kernel_well_formed.
  - reflexivity.
  - split; vm_compute; discriminate.
  - exists k'. exact Hrun.
Defined.

(** C5, as stated, fails: 21 is not clamped to [NICE_MAX] and stored; the
    assertion halts the kernel. *)
Lemma thread_set_nice_does_not_clamp :
  well_formed (mlfqs_kernel INTR_ON false) ∧
  thread_set_nice (NICE_MAX + 1) (mlfqs_kernel INTR_ON false) = Panic.
Proof. split; [apply mlfqs_kernel_well_formed|reflexivity]. Qed.

(** * Further properties *)

(** ** Fixed point, the other macros *)

Lemma quot_F_bounds x :
  (0 <= x → F * (x ÷ F) <= x < F * (x ÷ F) + F ∧ 0 <= x ÷ F) ∧
  (x <= 0 → F * (x ÷ F) - F < x <= F * (x ÷ F) ∧ x ÷ F <= 0).
Proof.
  change F with 16384.
  assert (Hpos : ∀ y, 0 <= y →
            16384 * (y ÷ 16384) <= y < 16384 * (y ÷ 16384) + 16384 ∧
            0 <= y ÷ 16384).
  { intros y Hy. pose proof (Z.quot_rem' y 16384).
    pose proof (Z.rem_bound_pos y 16384 Hy ltac:(lia)).
    pose proof (Z.quot_pos y 16384 Hy ltac:(lia)). lia. }
  split; intros Hx; [by apply Hpos|].
  specialize (Hpos (- x) ltac:(lia)).
  rewrite Z.quot_opp_l in Hpos by lia. lia.
Qed.

(** X1: Truncating back an integer that was converted gives the integer, for
    every integer the 17 integer bits hold. *)
Theorem round_down_of_fixed_point n :
  - 2 ^ 17 <= n < 2 ^ 17 →
  convert_to_int_round_down (convert_to_fixed_point n) = n.
Proof.
  intros Hn. unfold convert_to_int_round_down, convert_to_fixed_point.
  assert (HF : F = 16384) by reflexivity.
  rewrite (int32_small (n * F)) by lia.
  rewrite Z.quot_mul by lia. apply int32_small. lia.
Qed.

Lemma round_down_of_fixed_point_witness :
  convert_to_int_round_down (convert_to_fixed_point (- 2 ^ 17)) = - 2 ^ 17.
Proof. apply (round_down_of_fixed_point (- 2 ^ 17)). lia. Defined.

(** X2: [convert_to_int_round_down] drops the fraction: it rounds toward zero,
    up for a negative value. *)
Theorem round_down_toward_zero x :
  - 2 ^ 31 <= x < 2 ^ 31 →
  let r := convert_to_int_round_down x in
  (0 <= x → r * F <= x < r * F + F ∧ 0 <= r) ∧
  (x <= 0 → r * F - F < x <= r * F ∧ r <= 0).
Proof.
  intros Hx r. unfold r, convert_to_int_round_down.
  pose proof (quot_F_bounds x) as [Hpos Hneg].
  assert (HF : F = 16384) by reflexivity.
  assert (- 2 ^ 31 <= x ÷ F < 2 ^ 31).
  { destruct (Z.le_ge_cases 0 x); [specialize (Hpos ltac:(lia))
                                   |specialize (Hneg ltac:(lia))]; lia. }
  rewrite int32_small by done. split; intros H0; [apply Hpos in H0|apply Hneg in H0]; lia.
Qed.

Lemma round_down_toward_zero_witness :
  convert_to_int_round_down (- 1) = 0.
Proof.
  destruct (round_down_toward_zero (- 1) ltac:(lia)) as [_ Hneg].
  specialize (Hneg ltac:(lia)). cbv zeta in Hneg.
  change F with 16384 in Hneg. lia.
Defined.

Lemma round_nearest_bounds x :
  - 2 ^ 31 + F / 2 <= x < 2 ^ 31 - F / 2 →
  (0 <= x →
   - (F / 2) <= x - convert_to_int_round_nearest x * F < F / 2) ∧
  (x < 0 →
   - (F / 2) < x - convert_to_int_round_nearest x * F <= F / 2).
Proof.
  intros Hx. unfold convert_to_int_round_nearest.
  change (F ÷ 2) with 8192. change (F / 2) with 8192 in *.
  assert (HF : F = 16384) by reflexivity.
  destruct (Z.geb_spec x 0) as [Hpos|Hneg].
  - rewrite (int32_small (x + 8192)) by lia.
    pose proof (quot_F_bounds (x + 8192)) as [H _]. specialize (H ltac:(lia)).
    rewrite int32_small by lia. split; intros; lia.
  - rewrite (int32_small (x - 8192)) by lia.
    pose proof (quot_F_bounds (x - 8192)) as [_ H]. specialize (H ltac:(lia)).
    rewrite int32_small by lia. split; intros; lia.
Qed.

(** X3: [convert_to_int_round_nearest] returns the nearest integer, and of two
    equally near ones the one farther from zero, as long as adding the half
    does not leave the 32 bits. *)
Theorem round_nearest_half_away_from_zero x :
  - 2 ^ 31 + F / 2 <= x < 2 ^ 31 - F / 2 →
  let r := convert_to_int_round_nearest x in
  (0 <= x → - (F / 2) <= x - r * F < F / 2) ∧
  (x < 0 → - (F / 2) < x - r * F <= F / 2).
Proof.
  intros Hx r. unfold r, convert_to_int_round_nearest.
  change (F ÷ 2) with 8192. change (F / 2) with 8192 in *.
  assert (HF : F = 16384) by reflexivity.
  destruct (Z.geb_spec x 0) as [Hpos|Hneg].
  - rewrite (int32_small (x + 8192)) by lia.
    pose proof (quot_F_bounds (x + 8192)) as [H _]. specialize (H ltac:(lia)).
    rewrite int32_small by lia. split; intros; lia.
  - rewrite (int32_small (x - 8192)) by lia.
    pose proof (quot_F_bounds (x - 8192)) as [_ H]. specialize (H ltac:(lia)).
    rewrite int32_small by lia. split; intros; lia.
Qed.

Lemma round_nearest_half_away_from_zero_witness :
  convert_to_int_round_nearest (F + F / 2) = 2 ∧
  convert_to_int_round_nearest (- F - F / 2) = - 2.
Proof.
  destruct (round_nearest_half_away_from_zero (F + F / 2)) as [Hp _];
    [vm_compute; split; [discriminate|reflexivity]|].
  destruct (round_nearest_half_away_from_zero (- F - F / 2)) as [_ Hn];
    [vm_compute; split; [discriminate|reflexivity]|].
  split; vm_compute; reflexivity.
Defined.

(** X4: The fixed-point 1 is neutral for the widening product and quotient,
    once the result is stored in a [fixed_point]. *)
Theorem fixed_point_one_neutral x :
  - 2 ^ 31 <= x < 2 ^ 31 →
  int32 (multiply_fixed_by_fixed x (convert_to_fixed_point 1)) = x ∧
  int32 (div_fixed_by_fixed x (convert_to_fixed_point 1)) = x.
Proof.
  intros Hx. unfold multiply_fixed_by_fixed, div_fixed_by_fixed.
  change (convert_to_fixed_point 1) with F.
  assert (HF : F = 16384) by reflexivity.
  rewrite (int64_small (x * F)) by lia.
  rewrite Z.quot_mul by lia.
  rewrite (int64_small x) by lia. split; apply int32_small; lia.
Qed.

Lemma fixed_point_one_neutral_witness :
  int32 (multiply_fixed_by_fixed (- 5) (convert_to_fixed_point 1)) = - 5.
Proof. apply (fixed_point_one_neutral (- 5)). lia. Defined.

(** X5: The product of two converted integers is the converted product, while
    the product fits the integer bits. *)
Theorem multiply_fixed_by_fixed_integers a b :
  - 2 ^ 17 <= a < 2 ^ 17 → - 2 ^ 17 <= b < 2 ^ 17 →
  - 2 ^ 17 <= a * b < 2 ^ 17 →
  multiply_fixed_by_fixed (convert_to_fixed_point a) (convert_to_fixed_point b)
  = convert_to_fixed_point (a * b).
Proof.
  intros Ha Hb Hab. unfold multiply_fixed_by_fixed, convert_to_fixed_point.
  assert (HF : F = 16384) by reflexivity.
  rewrite (int32_small (a * F)), (int32_small (b * F)),
    (int32_small (a * b * F)) by lia.
  replace (a * F * (b * F)) with (a * b * F * F) by lia.
  assert (- 2 ^ 62 <= a * b * F * F < 2 ^ 62) by nia.
  rewrite (int64_small (a * b * F * F)) by lia.
  rewrite Z.quot_mul by lia. apply int64_small. lia.
Qed.

Lemma multiply_fixed_by_fixed_integers_witness :
  multiply_fixed_by_fixed (convert_to_fixed_point (- 3))
    (convert_to_fixed_point 7)
  = convert_to_fixed_point (- 21).
Proof. apply (multiply_fixed_by_fixed_integers (- 3) 7); lia. Defined.

(** ** Ordered lists *)

Section insertion.
Context {A : Type} `{EqDecision A}.
Variable less : A → A → bool.
Variable f : A → Z.
Hypothesis less_f : ∀ a b, less a b = (f a >? f b).

Lemma list_insert_ordered_Permutation e l :
  list_insert_ordered less e l ≡ₚ e :: l.
Proof.
  induction l as [|x l IH]; simpl; [done|].
  destruct (less e x); [done|]. rewrite IH. apply Permutation_swap.
Qed.

Lemma list_insert_ordered_HdRel b e l :
  b >= f e → HdRel Z.ge b (map f l) →
  HdRel Z.ge b (map f (list_insert_ordered less e l)).
Proof.
  intros Hb Hl. destruct l as [|x l]; simpl; [by constructor|].
  destruct (less e x); simpl; constructor; [done|].
  by apply HdRel_inv in Hl.
Qed.

Lemma list_insert_ordered_Sorted e l :
  Sorted Z.ge (map f l) → Sorted Z.ge (map f (list_insert_ordered less e l)).
Proof.
  induction l as [|x l IH]; simpl; intros Hs.
  - by repeat constructor.
  - apply Sorted_inv in Hs as [Hs Hhd]. rewrite less_f.
    destruct (Z.gtb_spec (f e) (f x)) as [Hgt|Hle]; simpl.
    + constructor; [by constructor|]. constructor. lia.
    + constructor; [by apply IH|].
      apply list_insert_ordered_HdRel; [lia|done].
Qed.

(** A new element goes in front of the first element that ranks below it,
    behind the elements that do not. *)
Lemma list_insert_ordered_split e l :
  ∃ l1 l2, l = l1 ++ l2 ∧
           list_insert_ordered less e l = l1 ++ e :: l2 ∧
           Forall (λ x, f x >= f e) l1 ∧
           (∀ x, head l2 = Some x → f x < f e).
Proof.
  induction l as [|x l (l1 & l2 & Hl & Hins & Hall & Hhd)]; simpl.
  - exists [], []. by split_and!.
  - rewrite less_f. destruct (Z.gtb_spec (f e) (f x)) as [Hgt|Hle].
    + exists [], (x :: l). split_and!; try done.
      intros y [= <-]. lia.
    + exists (x :: l1), l2. rewrite Hins, Hl at 1. split_and!; try done.
      constructor; [lia|done].
Qed.

Lemma list_insert_ordered_front e x l :
  f e > f x → list_insert_ordered less e (x :: l) = e :: x :: l.
Proof.
  intros Hgt. simpl. rewrite less_f.
  destruct (Z.gtb_spec (f e) (f x)); [done|lia].
Qed.

Lemma list_insert_ordered_second e x l :
  f e <= f x →
  list_insert_ordered less e (x :: l) = x :: list_insert_ordered less e l.
Proof.
  intros Hle. simpl. rewrite less_f.
  destruct (Z.gtb_spec (f e) (f x)); [lia|done].
Qed.

Lemma list_sort_Permutation l : list_sort less l ≡ₚ l.
Proof.
  unfold list_sort. rewrite <- (app_nil_r l) at 2.
  generalize (@nil A) as acc. induction l as [|x l IH]; intros acc; simpl.
  - done.
  - rewrite IH, list_insert_ordered_Permutation.
    by rewrite Permutation_middle.
Qed.

Lemma list_sort_Sorted l : Sorted Z.ge (map f (list_sort less l)).
Proof.
  unfold list_sort.
  assert (Hacc : Sorted Z.ge (map f (@nil A))) by constructor.
  revert Hacc. generalize (@nil A) as acc.
  induction l as [|x l IH]; intros acc Hacc; simpl; [done|].
  apply IH. by apply list_insert_ordered_Sorted.
Qed.

Lemma list_remove_filter (e : A) (l : list A) :
  list_remove e l = filter (λ x, x ≠ e) l.
Proof.
  induction l as [|x l IH]; simpl; [done|].
  destruct (decide (x = e)) as [->|Hne].
  - by rewrite filter_cons_False by (intros ?; done).
  - by rewrite filter_cons_True, IH by done.
Qed.

Lemma list_remove_not_elem (e : A) (l : list A) : e ∉ list_remove e l.
Proof. rewrite list_remove_filter, list_elem_of_filter. by intros [? _]. Qed.

Lemma list_remove_Sorted e l :
  Sorted Z.ge (map f l) → Sorted Z.ge (map f (list_remove e l)).
Proof.
  intros Hs. apply StronglySorted_Sorted.
  apply Sorted_StronglySorted in Hs; [|intros ? ? ?; lia].
  induction l as [|x l IH]; simpl in *; [constructor|].
  apply StronglySorted_inv in Hs as [Hs Hall].
  destruct (decide (x = e)); [by apply IH|]. simpl.
  constructor; [by apply IH|].
  rewrite list_remove_filter. rewrite Forall_forall in Hall |- *.
  intros y Hy. apply Hall. apply list_elem_of_In in Hy.
  apply in_map_iff in Hy as (z & <- & Hz).
  apply list_elem_of_In, in_map. apply list_elem_of_In in Hz.
  apply list_elem_of_filter in Hz as [_ Hz]. by apply list_elem_of_In.
Qed.

End insertion.

(** ** Dispatching *)

Lemma set_priority_twice p q th :
  set_priority p (set_priority q th) = set_priority p th.
Proof. by destruct th. Qed.

Lemma foreach_bsd_priority_exact l k :
  thread_mlfqs k = true → Forall (thread_ok k) l →
  returns (foreach thread_calculate_bsd_priority l) k
    (λ _ k',
       repriced k k' ∧
       (∀ t th, t ∈ l → threads k !! t = Some th →
                threads k' !! t
                = Some (set_priority (bsd_priority (recent_cpu th) (nice th))
                          th)) ∧
       (∀ t, t ∉ l → threads k' !! t = threads k !! t)).
Proof.
  revert k. induction l as [|t l IH]; intros k Hm Hall; simpl.
  - apply returns_mret. split; [apply repriced_refl|].
    split; [|done]. intros t th Hin. by apply elem_of_nil in Hin.
  - apply Forall_cons in Hall as [(th & Hv) Hall].
    apply returns_bind.
    eapply returns_Done; [by apply thread_calculate_bsd_priority_eq|].
    pose proof Hv as (Hn & Ht & Hmagic).
    assert (Hr := repriced_store k t th
                    (bsd_priority (recent_cpu th) (nice th)) Ht).
    eapply returns_mono.
    + apply IH; [done|].
      eapply Forall_impl; [exact Hall|]. intros t'. by apply repriced_thread_ok.
    + intros ? k' (Hr' & Hin & Hout). simpl in *.
      split; [by eapply repriced_trans|]. split.
      * intros t' th' Ht' Hth'. destruct (decide (t' ∈ l)) as [Hl|Hl].
        -- destruct (decide (t' = t)) as [->|Hne].
           ++ rewrite (Hin t _ Hl (lookup_insert_eq _ _ _)).
              assert (th' = th) as -> by congruence.
              simpl. by rewrite set_priority_twice.
           ++ apply Hin; [done|]. by rewrite lookup_insert_ne.
        -- apply elem_of_cons in Ht' as [->|]; [|done].
           rewrite (Hout t Hl), lookup_insert_eq. congruence.
      * intros t' Ht'. apply not_elem_of_cons in Ht' as [Hne Ht'].
        rewrite (Hout t' Ht'). by rewrite lookup_insert_ne.
Qed.

Lemma reprice_all_exact k :
  level k = INTR_OFF → Forall (thread_ok k) (all_list k) →
  returns
    (if thread_mlfqs k
     then thread_foreach thread_calculate_bsd_priority;;
          modify (λ k0, set_ready_list
                          (list_sort (thread_compare_priority k0)
                             (ready_list k0)) k0)
     else mret tt) k
    (λ _ k', rescheduled k k' ∧ (thread_mlfqs k = false → k' = k) ∧
             (thread_mlfqs k = true → recomputed k k')).
Proof.
  intros Hl Hall. destruct (thread_mlfqs k) eqn:Hm.
  - unfold thread_foreach. ksteps.
    apply returns_ASSERT; [by rewrite Hl|]. ksteps.
    eapply returns_mono; [by apply foreach_bsd_priority_exact|].
    intros ? k1 (Hr & Hin & Hout). simpl. kstep.
    split; [by exists k1|]. split; [done|]. intros _.
    assert (Hrl : ready_list k1 = ready_list k)
      by (destruct Hr as [-> _]; done).
    assert (Hal : all_list k1 = all_list k)
      by (destruct Hr as [-> _]; done).
    split_and!; simpl; try done.
    + rewrite <- Hrl.
      apply (list_sort_Permutation (thread_compare_priority k1)).
    + unfold ready_sorted. simpl.
      apply (list_sort_Sorted (thread_compare_priority k1) (priority_at k1)).
      done.
  - kstep. split; [|done]. exists k. split; [apply repriced_refl|].
    by destruct k.
Qed.

Lemma set_running_same k : set_running (running k) k = k.
Proof. by destruct k. Qed.

(** What [schedule] does, in either scheduler: it takes the front of the
    ready list, or the idle thread when the list is empty, makes it the
    running thread with a fresh time slice, and frees the page of the
    thread it switched from when that thread is dying and is not the
    initial thread. *)
Lemma schedule_effect k cur nth :
  level k = INTR_OFF →
  valid k (running k) cur →
  status cur ≠ THREAD_RUNNING →
  Forall (thread_ok k) (all_list k) →
  valid k (hd (idle_thread k) (ready_list k)) nth →
  returns schedule k
    (λ _ k', ∃ k2 nth2,
       let next := hd (idle_thread k) (ready_list k) in
       let k1 := set_ready_list (tl (ready_list k)) k in
       rescheduled k1 k2 ∧ (thread_mlfqs k = false → k2 = k1) ∧
       (thread_mlfqs k = true → recomputed k1 k2) ∧
       threads k2 !! next = Some nth2 ∧
       k' = (if bool_decide (status cur = THREAD_DYING)
                && negb (running k =? initial_thread k)%N
                && negb (running k =? next)%N
             then release_page (running k) (dispatch next nth2 k2)
             else dispatch next nth2 k2)).
Proof.
  intros Hl Hcur Hrun Hall Hnv. unfold schedule. ksteps.
  set (next := hd (idle_thread k) (ready_list k)) in *.
  set (k1 := set_ready_list (tl (ready_list k)) k).
  assert (Hntr : returns next_thread_to_run k (λ a k', a = next ∧ k' = k1)).
  { unfold next_thread_to_run, next, k1. kstep. kstep.
    destruct (ready_list k) as [|x rest] eqn:Hrl; simpl.
    - kstep. split; [done|]. destruct k; simpl in *. by subst.
    - ksteps. done. }
  eapply returns_mono; [exact Hntr|]. intros ? ? [-> ->]. simpl. ksteps.
  apply returns_ASSERT; [by apply bool_decide_eq_true_2|]. kstep.
  destruct Hcur as (Hcn & Hct & Hcm).
  eapply returns_load; [exact Hct|]. kstep.
  apply returns_ASSERT; [by rewrite bool_decide_true|]. kstep.
  eapply returns_is_thread; [exact Hnv|]. kstep.
  apply returns_ASSERT; [done|]. ksteps.
  eapply returns_mono; [apply (reprice_all_exact k1); done|].
  intros ? k2 (Hres & Hexact & Hrecomp). simpl.
  destruct (rescheduled_fields _ _ Hres)
    as (Hl2 & Hr2 & Htid2 & Hall2 & Hfp2 & Hinit2 & _).
  destruct (rescheduled_lookup _ _ _ _ Hres Hct) as [pc Hct2].
  destruct Hnv as (Hnn & Hnt & Hnm).
  destruct (rescheduled_lookup _ _ _ _ Hres Hnt) as [pn Hnt2].
  simpl in *.
  destruct (N.eqb_spec (running k) next) as [Heq|Hne]; simpl.
  - (* the caller is chosen again *)
    ksteps. unfold thread_schedule_tail. ksteps.
    apply returns_ASSERT; [by rewrite Hl2, Hl|]. kstep.
    rewrite Hr2, Heq.
    eapply returns_store; [exact Hnt2|]. ksteps. simpl. kstep.
    exists k2, (set_priority pn nth). split_and!; [done|done|done|done|].
    rewrite andb_false_r. unfold dispatch.
    by rewrite <- Heq, <- Hr2, set_running_same.
  - unfold switch_threads. ksteps. unfold thread_schedule_tail. ksteps.
    apply returns_ASSERT; [simpl; by rewrite Hl2, Hl|]. kstep. simpl.
    eapply returns_store; [exact Hnt2|]. ksteps.
    destruct (N.eqb_spec (running k) NULL) as [|_]; [done|].
    kstep. eapply returns_load.
    { simpl. rewrite lookup_insert_ne by done. exact Hct2. }
    ksteps. simpl. rewrite Hinit2. rewrite andb_true_r.
    destruct (bool_decide (status cur = THREAD_DYING)
              && negb (running k =? initial_thread k)%N); simpl.
    + kstep. apply returns_ASSERT.
      { by destruct (N.eqb_spec (running k) next). }
      unfold palloc_free_page. kstep.
      by exists k2, (set_priority pn nth).
    + kstep. by exists k2, (set_priority pn nth).
Qed.

(** ** Waking, yielding, blocking, exiting *)

Lemma priority_at_store k t th f t' :
  threads k !! t = Some th → priority (f th) = priority th →
  priority_at (set_threads (<[t := f th]> (threads k)) k) t'
  = priority_at k t'.
Proof. intros Ht Hp. by apply (same_priorities_store k t th f). Qed.

(** X6: [thread_unblock] makes a blocked thread ready without preempting the
    running thread; the thread goes into the ready list in front of the
    first thread of lower priority, behind the threads of its own priority,
    and a list in descending order of priority stays in that order. *)
Theorem thread_unblock_keeps_order k t th :
  valid k t th → status th = THREAD_BLOCKED → ready_sorted k →
  ∃ k' th',
    thread_unblock t k = Done tt k' ∧
    threads k' !! t = Some th' ∧
    status th' = THREAD_READY ∧ priority th' = priority th ∧
    ready_list k' ≡ₚ t :: ready_list k ∧
    ready_sorted k' ∧
    running k' = running k ∧ level k' = level k ∧
    ∃ front back,
      ready_list k = front ++ back ∧
      ready_list k' = front ++ t :: back ∧
      Forall (λ x, priority_at k x >= priority th) front ∧
      (∀ x, head back = Some x → priority_at k x < priority th).
Proof.
  intros Hv Hs Hsorted. pose proof Hv as (Hn & Ht & Hm).
  eexists _, (set_status THREAD_READY th).
  split; [by apply thread_unblock_eq|]. simpl.
  split; [apply lookup_insert_eq|]. split_and!; try done.
  - apply list_insert_ordered_Permutation.
  - unfold ready_sorted. simpl.
    rewrite (map_ext _ (priority_at k)).
    + by apply (list_insert_ordered_Sorted _ (priority_at k)).
    + intros t'. by apply (priority_at_store k t th (set_status THREAD_READY)).
  - destruct (list_insert_ordered_split (thread_compare_priority k)
                (priority_at k) (λ a b, eq_refl) t (ready_list k))
      as (front & back & Hrl & Hins & Hfront & Hback).
    assert (Hp : priority_at k t = priority th)
      by (unfold priority_at; by rewrite Ht).
    rewrite Hp in Hfront, Hback. by exists front, back.
Qed.

Lemma thread_unblock_keeps_order_witness :
  ∃ k', thread_unblock 2%N priority_kernel = Done tt k' ∧
        ready_list k' = [2%N] ∧ running k' = 1%N.
Proof.
  destruct (thread_unblock_keeps_order priority_kernel 2%N
              (mk_thread 2 THREAD_BLOCKED "high" 8192 40 40 []
                 NEXT_ELEM 9%N 0 0 THREAD_MAGIC))
    as (k' & th' & Heq & _ & _ & _ & _ & _ & Hrun & _ & front & back & Hrl
        & Hrl' & _).
  - solve_valid.
  - reflexivity.
  - constructor.
  - exists k'. split; [exact Heq|]. split; [|exact Hrun].
    simpl in Hrl. symmetry in Hrl. apply app_eq_nil in Hrl as [-> ->].
    exact Hrl'.
Defined.

(** X7: [thread_unblock] halts the kernel when the thread is not blocked. *)
Theorem thread_unblock_not_blocked k t th :
  threads k !! t = Some th → status th ≠ THREAD_BLOCKED →
  thread_unblock t k = Panic.
Proof.
  intros Ht Hs. unfold thread_unblock, is_thread.
  destruct (N.eqb_spec t NULL) as [->|Hn]; [done|].
  kred. unfold load. rewrite Ht. simpl.
  destruct (magic th =? THREAD_MAGIC); [|done]. simpl.
  rewrite Ht. simpl. by rewrite bool_decide_false.
Qed.

Lemma thread_unblock_not_blocked_witness :
  thread_unblock 1%N priority_kernel = Panic.
Proof.
  by apply (thread_unblock_not_blocked priority_kernel 1%N
              (mk_thread 1 THREAD_RUNNING "main" 4096 31 31 [2%N; 3%N]
                 NEXT_NULL NULL 0 0 THREAD_MAGIC)).
Defined.

Lemma thread_yield_eq k cur :
  valid k (running k) cur → status cur = THREAD_RUNNING →
  in_external_intr k = false →
  thread_yield k
  = (schedule;;
     now ← running_thread;
     if (now =? running k)%N then intr_set_level (level k);; mret tt
     else mret tt)
      (set_threads
         (<[running k := set_status THREAD_READY cur]> (threads k))
         (set_ready_list
            (if negb (running k =? idle_thread k)%N
             then list_insert_ordered (thread_compare_priority k) (running k)
                    (ready_list k)
             else ready_list k)
            (set_level INTR_OFF k))).
Proof.
  intros Hv Hs Hintr. unfold thread_yield.
  kbind (thread_current_eq k cur Hv Hs).
  destruct Hv as (Hn & Ht & Hm).
  assert (H1 : intr_context k = Done false k)
    by (unfold intr_context, gets; by rewrite Hintr).
  kbind H1. kbind (ASSERT_true (negb false) k eq_refl).
  assert (H2 : intr_disable k = Done (level k) (set_level INTR_OFF k))
    by done.
  kbind H2.
  assert (H3 : gets idle_thread (set_level INTR_OFF k)
               = Done (idle_thread k) (set_level INTR_OFF k)) by done.
  kbind H3.
  set (rl' := if negb (running k =? idle_thread k)%N
              then list_insert_ordered (thread_compare_priority k) (running k)
                     (ready_list k)
              else ready_list k).
  assert (H4 : (if negb (running k =? idle_thread k)%N
                then ready_list_insert_ordered (running k) else mret tt)
                 (set_level INTR_OFF k)
               = Done tt (set_ready_list rl' (set_level INTR_OFF k))).
  { unfold rl'. destruct (negb (running k =? idle_thread k)%N); [done|].
    by destruct k. }
  kbind H4.
  assert (H5 : threads (set_ready_list rl' (set_level INTR_OFF k))
                 !! running k = Some cur) by done.
  by kbind (store_Some _ _ _ (set_status THREAD_READY) H5).
Qed.

(** The end of [thread_yield] once [schedule] has returned. *)
Lemma yield_tail_Done ky k' c lvl :
  schedule ky = Done tt k' →
  (schedule;;
   now ← running_thread;
   if (now =? c)%N then intr_set_level lvl;; mret tt else mret tt) ky
  = Done tt (if (running k' =? c)%N then set_level lvl k' else k').
Proof.
  intros Heq. kbind Heq. unfold running_thread, gets.
  unfold mbind at 1, kern_bind at 1.
  by destruct (running k' =? c)%N.
Qed.

Lemma set_status_running th :
  status th = THREAD_RUNNING →
  set_status THREAD_RUNNING (set_status THREAD_READY th) = th.
Proof. destruct th. simpl. by intros ->. Qed.

Lemma thread_yield_front_runs k cur t th rest :
  well_formed k →
  thread_mlfqs k = false → in_external_intr k = false →
  threads k !! running k = Some cur →
  ready_list k = t :: rest → t ≠ running k →
  threads k !! t = Some th →
  priority cur <= priority th →
  thread_yield k
  = Done tt
      (dispatch t th
         (set_ready_list
            (if negb (running k =? idle_thread k)%N
             then list_insert_ordered (thread_compare_priority k) (running k)
                    rest
             else rest)
            (set_threads
               (<[running k := set_status THREAD_READY cur]> (threads k))
               (set_ready_list
                  (if negb (running k =? idle_thread k)%N
                   then list_insert_ordered (thread_compare_priority k)
                          (running k) (ready_list k)
                   else ready_list k)
                  (set_level INTR_OFF k))))).
Proof.
  intros [(cur0 & Hv & Hs) Hready Hall] Hm Hintr Hcur Hrl Hne Htt Hle.
  pose proof Hv as (Hn & Ht & Hmagic).
  assert (cur0 = cur) as -> by congruence.
  rewrite (thread_yield_eq k cur Hv Hs Hintr).
  rewrite Hrl in Hready |- *. apply Forall_cons in Hready as [(th0 & Hth) _].
  pose proof Hth as (Htn & Htt0 & Htm).
  assert (th0 = th) as -> by congruence.
  set (rl' := if negb (running k =? idle_thread k)%N
              then list_insert_ordered (thread_compare_priority k)
                     (running k) (t :: rest)
              else t :: rest).
  set (rest' := if negb (running k =? idle_thread k)%N
                then list_insert_ordered (thread_compare_priority k)
                       (running k) rest
                else rest).
  assert (Hins : rl' = t :: rest').
  { unfold rl', rest'. destruct (negb (running k =? idle_thread k)%N); [|done].
    apply (list_insert_ordered_second _ (priority_at k)); [done|].
    unfold priority_at. by rewrite Ht, Htt. }
  match goal with |- _ ?s = _ => set (ky := s) end.
  destruct (schedule_effect ky (set_status THREAD_READY cur) th)
    as ([] & k' & Heq & k2 & nth2 & _ & Hexact & _ & Hnth2 & Hk');
    subst ky; simpl; try done.
  - split; [done|]. split; [apply lookup_insert_eq|done].
  - eapply Forall_impl; [exact Hall|]. intros t' Ht'.
    by apply (thread_ok_store k (running k) cur).
  - rewrite Hins. simpl. split; [done|]. simpl. by rewrite lookup_insert_ne.
  - simpl in *. specialize (Hexact Hm). subst k2. simpl in *.
    rewrite Hins in Hnth2, Hk'. simpl in *.
    rewrite lookup_insert_ne in Hnth2 by done.
    assert (nth2 = th) as -> by congruence.
    rewrite (yield_tail_Done _ _ _ _ Heq), Hk'. unfold dispatch at 1.
    cbn [running set_thread_ticks set_threads set_running].
    by destruct (N.eqb_spec t (running k)).
Qed.

(** X8: Round robin: when the thread at the front of the ready list ranks at
    least as high as the yielding thread, it gets the processor with a
    fresh time slice, and the yielding thread waits in the ready list. *)
Theorem thread_yield_round_robin k cur t rest :
  well_formed k →
  thread_mlfqs k = false → in_external_intr k = false →
  threads k !! running k = Some cur →
  running k ≠ idle_thread k →
  ready_list k = t :: rest → t ≠ running k →
  priority cur <= priority_at k t →
  ∃ k' cur' th',
    thread_yield k = Done tt k' ∧
    running k' = t ∧
    ready_list k'
    = list_insert_ordered (thread_compare_priority k) (running k) rest ∧
    running k ∈ ready_list k' ∧
    threads k' !! running k = Some cur' ∧ status cur' = THREAD_READY ∧
    threads k' !! t = Some th' ∧ status th' = THREAD_RUNNING ∧
    thread_ticks k' = 0.
Proof.
  intros Hwf Hm Hintr Hcur Hidle Hrl Hne Hle.
  assert (Hth : ∃ th, threads k !! t = Some th).
  { destruct Hwf as [_ Hready _]. rewrite Hrl in Hready.
    apply Forall_cons in Hready as [(th & _ & Hth & _) _]. by exists th. }
  destruct Hth as [th Hth]. unfold priority_at in Hle. rewrite Hth in Hle.
  rewrite (thread_yield_front_runs k cur t th rest) by done.
  destruct (N.eqb_spec (running k) (idle_thread k)) as [|_]; [done|].
  cbn [negb].
  eexists _, (set_status THREAD_READY cur), (set_status THREAD_RUNNING th).
  split; [done|]. unfold dispatch. simpl. split_and!; try done.
  - eapply elem_of_Permutation_proper;
      [apply list_insert_ordered_Permutation|]. left.
  - rewrite lookup_insert_ne by done. apply lookup_insert_eq.
  - apply lookup_insert_eq.
Qed.

(** X9: A thread that outranks every ready thread keeps the processor when it
    yields: the ready list, the threads and the interrupt level are as
    before, and its time slice starts again. *)
Theorem thread_yield_highest_continues k cur :
  well_formed k →
  thread_mlfqs k = false → in_external_intr k = false →
  threads k !! running k = Some cur →
  running k ≠ idle_thread k →
  max_ready_priority k < priority cur →
  ∃ k', thread_yield k = Done tt k' ∧
        running k' = running k ∧
        ready_list k' = ready_list k ∧
        threads k' = threads k ∧
        thread_ticks k' = 0 ∧
        level k' = level k.
Proof.
  intros [(cur0 & Hv & Hs) Hready Hall] Hm Hintr Hcur Hidle Hmax.
  pose proof Hv as (Hn & Ht & Hmagic).
  assert (cur0 = cur) as -> by congruence.
  rewrite (thread_yield_eq k cur Hv Hs Hintr).
  destruct (N.eqb_spec (running k) (idle_thread k)) as [|_]; [done|].
  cbn [negb].
  assert (Hins : list_insert_ordered (thread_compare_priority k) (running k)
                   (ready_list k)
                 = running k :: ready_list k).
  { unfold max_ready_priority in Hmax.
    destruct (ready_list k) as [|x rl]; [done|].
    apply (list_insert_ordered_front _ (priority_at k)); [done|].
    unfold priority_at at 1. rewrite Ht. lia. }
  rewrite Hins.
  match goal with |- ∃ _, _ ?s = _ ∧ _ => set (ky := s) end.
  destruct (schedule_effect ky (set_status THREAD_READY cur)
              (set_status THREAD_READY cur))
    as ([] & k' & Heq & k2 & nth2 & _ & Hexact & _ & Hnth2 & Hk');
    subst ky; simpl; try done.
  - split; [done|]. split; [apply lookup_insert_eq|done].
  - eapply Forall_impl; [exact Hall|]. intros t' Ht'.
    by apply (thread_ok_store k (running k) cur).
  - split; [done|]. split; [apply lookup_insert_eq|done].
  - simpl in *. specialize (Hexact Hm). subst k2. simpl in *.
    rewrite lookup_insert_eq in Hnth2. injection Hnth2 as <-.
    subst k'.
    eexists. split; [apply (yield_tail_Done _ _ _ _ Heq)|].
    unfold dispatch. simpl. rewrite N.eqb_refl. simpl.
    split_and!; try done.
    rewrite insert_insert_eq, set_status_running by done.
    by apply insert_id.
Qed.

Lemma ready_kernel_well_formed prio lvl : well_formed (ready_kernel prio lvl).
Proof. solve_well_formed. Qed.

Lemma thread_yield_round_robin_witness :
  ∃ k', thread_yield (ready_kernel 31 INTR_ON) = Done tt k' ∧
        running k' = 2%N ∧ ready_list k' = [1%N; 3%N].
Proof.
  destruct (thread_yield_round_robin (ready_kernel 31 INTR_ON)
              (mk_thread 1 THREAD_RUNNING "main" 4096 31 31 []
                 NEXT_NULL NULL 0 0 THREAD_MAGIC) 2%N [3%N])
    as (k' & _ & _ & Heq & Hrun & Hrl & _);
    [apply ready_kernel_well_formed|reflexivity..|done| |done| |].
  - reflexivity.
  - vm_compute. discriminate.
  - exists k'. split; [exact Heq|]. split; [exact Hrun|]. rewrite Hrl.
    vm_compute. reflexivity.
Defined.

Lemma thread_yield_highest_continues_witness :
  ∃ k', thread_yield (ready_kernel 40 INTR_ON) = Done tt k' ∧
        running k' = 1%N ∧ ready_list k' = [2%N; 3%N].
Proof.
  destruct (thread_yield_highest_continues (ready_kernel 40 INTR_ON)
              (mk_thread 1 THREAD_RUNNING "main" 4096 40 40 []
                 NEXT_NULL NULL 0 0 THREAD_MAGIC))
    as (k' & Heq & Hrun & Hrl & _);
    [apply ready_kernel_well_formed|reflexivity..|done|vm_compute; reflexivity|].
  by exists k'.
Defined.

Lemma thread_block_eq k cur :
  valid k (running k) cur → status cur = THREAD_RUNNING →
  level k = INTR_OFF → in_external_intr k = false →
  thread_block k
  = schedule
      (set_threads
         (<[running k := set_status THREAD_BLOCKED cur]> (threads k)) k).
Proof.
  intros Hv Hs Hl Hintr. unfold thread_block.
  assert (H1 : intr_context k = Done false k)
    by (unfold intr_context, gets; by rewrite Hintr).
  kbind H1. kbind (ASSERT_true (negb false) k eq_refl).
  assert (H2 : intr_get_level k = Done INTR_OFF k)
    by (unfold intr_get_level, gets; by rewrite Hl).
  kbind H2. kbind (ASSERT_true (bool_decide (INTR_OFF = INTR_OFF)) k eq_refl).
  kbind (thread_current_eq k cur Hv Hs).
  destruct Hv as (Hn & Ht & Hm).
  by kbind (store_Some k (running k) cur (set_status THREAD_BLOCKED) Ht).
Qed.

(** X10: [thread_block] puts the running thread to sleep and dispatches the
    front of the ready list, or the idle thread when the list is empty. *)
Theorem thread_block_switches k cur nth :
  well_formed k →
  level k = INTR_OFF → in_external_intr k = false →
  threads k !! running k = Some cur →
  valid k (hd (idle_thread k) (ready_list k)) nth →
  hd (idle_thread k) (ready_list k) ≠ running k →
  ∃ k' cur' th',
    thread_block k = Done tt k' ∧
    running k' = hd (idle_thread k) (ready_list k) ∧
    threads k' !! running k = Some cur' ∧ status cur' = THREAD_BLOCKED ∧
    threads k' !! running k' = Some th' ∧ status th' = THREAD_RUNNING ∧
    thread_ticks k' = 0 ∧
    (thread_mlfqs k = false → ready_list k' = tl (ready_list k)).
Proof.
  intros [(cur0 & Hv & Hs) Hready Hall] Hl Hintr Hcur Hnext Hne.
  pose proof Hv as (Hn & Ht & Hmagic).
  assert (cur0 = cur) as -> by congruence.
  rewrite (thread_block_eq k cur Hv Hs Hl Hintr).
  set (next := hd (idle_thread k) (ready_list k)) in *.
  destruct Hnext as (Hnn & Hnt & Hnm).
  match goal with |- ∃ _ _ _, schedule ?s = _ ∧ _ => set (kb := s) end.
  destruct (schedule_effect kb (set_status THREAD_BLOCKED cur) nth)
    as ([] & k' & Heq & k2 & nth2 & Hres & Hexact & _ & Hnth2 & Hk');
    subst kb; simpl; try done.
  - split; [done|]. split; [apply lookup_insert_eq|done].
  - eapply Forall_impl; [exact Hall|]. intros t' Ht'.
    by apply (thread_ok_store k (running k) cur).
  - split; [done|]. simpl. by rewrite lookup_insert_ne.
  - simpl in *. fold next in Hnth2, Hk'. subst k'.
    destruct (rescheduled_lookup _ _ (running k)
                (set_status THREAD_BLOCKED cur) Hres) as [pc Hc2];
      [apply lookup_insert_eq|].
    eexists _, (set_priority pc (set_status THREAD_BLOCKED cur)),
      (set_status THREAD_RUNNING nth2).
    split; [exact Heq|]. unfold dispatch. simpl. split_and!; try done.
    + by rewrite lookup_insert_ne.
    + apply lookup_insert_eq.
    + intros Hm. by rewrite (Hexact Hm).
Qed.

Lemma thread_block_switches_witness :
  ∃ k', thread_block (ready_kernel 31 INTR_OFF) = Done tt k' ∧
        running k' = 2%N ∧ ready_list k' = [3%N].
Proof.
  destruct (thread_block_switches (ready_kernel 31 INTR_OFF)
              (mk_thread 1 THREAD_RUNNING "main" 4096 31 31 []
                 NEXT_NULL NULL 0 0 THREAD_MAGIC)
              (mk_thread 2 THREAD_READY "a" 8192 31 31 []
                 NEXT_NULL NULL 0 0 THREAD_MAGIC))
    as (k' & _ & _ & Heq & Hrun & _ & _ & _ & _ & _ & Hrl);
    [apply ready_kernel_well_formed|reflexivity..|solve_valid|done|].
  exists k'. split; [exact Heq|]. split; [exact Hrun|]. by apply Hrl.
Defined.

Lemma list_remove_Forall {A : Type} `{EqDecision A} (P : A → Prop) e
    (l : list A) :
  Forall P l → Forall P (list_remove e l).
Proof.
  induction 1 as [|x l Hx _ IH]; simpl; [done|].
  destruct (decide (x = e)); [done|]. by constructor.
Qed.

(** X11: [thread_exit] takes the running thread off the list of all threads and
    dispatches the next one, which frees the page of the thread that
    exited, unless that is the initial thread, whose page was not
    allocated. *)
Theorem thread_exit_frees_page k cur nth :
  well_formed k →
  in_external_intr k = false →
  threads k !! running k = Some cur →
  valid k (hd (idle_thread k) (ready_list k)) nth →
  hd (idle_thread k) (ready_list k) ≠ running k →
  ∃ k' th',
    thread_exit k = Done tt k' ∧
    running k' = hd (idle_thread k) (ready_list k) ∧
    threads k' !! running k' = Some th' ∧ status th' = THREAD_RUNNING ∧
    (running k ∉ all_list k') ∧
    (if (running k =? initial_thread k)%N
     then status <$> threads k' !! running k = Some THREAD_DYING ∧
          free_pages k' = free_pages k
     else threads k' !! running k = None ∧
          free_pages k' = running k :: free_pages k).
Proof.
  intros [(cur0 & Hv & Hs) Hready Hall] Hintr Hcur Hnext Hne.
  pose proof Hv as (Hn & Ht & Hmagic).
  assert (cur0 = cur) as -> by congruence.
  set (next := hd (idle_thread k) (ready_list k)) in *.
  destruct Hnext as (Hnn & Hnt & Hnm).
  enough (Hexit : returns thread_exit k
            (λ _ k', ∃ th',
               running k' = next ∧
               threads k' !! running k' = Some th' ∧
               status th' = THREAD_RUNNING ∧
               (running k ∉ all_list k') ∧
               (if (running k =? initial_thread k)%N
                then status <$> threads k' !! running k = Some THREAD_DYING ∧
                     free_pages k' = free_pages k
                else threads k' !! running k = None ∧
                     free_pages k' = running k :: free_pages k))).
  { destruct Hexit as ([] & k' & Heq & th' & Hpost). by exists k', th'. }
  unfold thread_exit. ksteps.
  apply returns_ASSERT; [by rewrite Hintr|]. ksteps.
  eapply (returns_thread_current _ cur); [done..|]. ksteps.
  eapply (returns_thread_current _ cur); [done..|]. kstep.
  eapply returns_store; [exact Ht|].
  eapply returns_mono.
  { apply (schedule_effect _ (set_status THREAD_DYING cur) nth); simpl;
      try done.
    - split; [done|]. split; [apply lookup_insert_eq|done].
    - apply list_remove_Forall. eapply Forall_impl; [exact Hall|].
      intros t' Ht'. by apply (thread_ok_store k (running k) cur).
    - split; [done|]. simpl. by rewrite lookup_insert_ne. }
  intros [] k0 (k2 & nth2 & Hres & _ & _ & Hnth2 & Hk'). simpl in *.
  fold next in Hnth2, Hk'.
  destruct (rescheduled_fields _ _ Hres)
    as (_ & _ & _ & Hall2 & Hfp2 & _). simpl in *.
  destruct (rescheduled_lookup _ _ (running k)
              (set_status THREAD_DYING cur) Hres) as [pc Hc2];
    [apply lookup_insert_eq|].
  exists (set_status THREAD_RUNNING nth2).
  destruct (N.eqb_spec (running k) next) as [|_]; [done|].
  rewrite andb_true_r in Hk'.
  destruct (N.eqb_spec (running k) (initial_thread k)) as [Hi|Hi];
    simpl in Hk'; subst k0; unfold release_page, dispatch; simpl.
  - split_and!; try done.
    + apply lookup_insert_eq.
    + rewrite Hall2. apply list_remove_not_elem.
    + rewrite lookup_insert_ne by done. by rewrite Hc2.
  - split_and!; try done.
    + rewrite lookup_delete_ne by done. apply lookup_insert_eq.
    + rewrite Hall2. apply list_remove_not_elem.
    + apply lookup_delete_eq.
    + by rewrite Hfp2.
Qed.

Lemma thread_exit_frees_page_witness :
  ∃ k', thread_exit (ready_kernel 31 INTR_ON) = Done tt k' ∧
        running k' = 2%N ∧
        status <$> threads k' !! 1%N = Some THREAD_DYING ∧
        free_pages k' = [8%N].
Proof.
  destruct (thread_exit_frees_page (ready_kernel 31 INTR_ON)
              (mk_thread 1 THREAD_RUNNING "main" 4096 31 31 []
                 NEXT_NULL NULL 0 0 THREAD_MAGIC)
              (mk_thread 2 THREAD_READY "a" 8192 31 31 []
                 NEXT_NULL NULL 0 0 THREAD_MAGIC))
    as (k' & _ & Heq & Hrun & _ & _ & _ & Hdying & Hfree);
    [apply ready_kernel_well_formed|reflexivity..|solve_valid|done|].
  by exists k'.
Defined.

(** ** Invariants of the scheduler *)







Lemma set_priority_fields p th :
  priority (set_priority p th) = p ∧
  recent_cpu (set_priority p th) = recent_cpu th ∧
  nice (set_priority p th) = nice th.
Proof. by destruct th. Qed.

(** X13: In the feedback-queue scheduler a yield dispatches the front of the
    ready list as it was ordered by the stored priorities, and on the way
    gives every thread the priority of the formula and sorts the threads
    that stay ready by it. *)
Theorem thread_yield_mlfqs_recomputes k cur :
  thread_mlfqs k = true →
  well_formed k → in_external_intr k = false →
  threads k !! running k = Some cur →
  running k ≠ idle_thread k →
  ∃ k',
    thread_yield k = Done tt k' ∧
    running k'
    = hd (idle_thread k)
        (list_insert_ordered (thread_compare_priority k) (running k)
           (ready_list k)) ∧
    (∀ t th, t ∈ all_list k → threads k !! t = Some th →
             ∃ th', threads k' !! t = Some th' ∧
                    priority th' = bsd_priority (recent_cpu th) (nice th) ∧
                    PRI_MIN <= priority th' <= PRI_MAX) ∧
    ready_list k'
    ≡ₚ tl (list_insert_ordered (thread_compare_priority k) (running k)
             (ready_list k)) ∧
    ready_sorted k'.
Proof.
  intros Hm [(cur0 & Hv & Hs) Hready Hall] Hintr Hcur Hidle.
  pose proof Hv as (Hn & Ht & Hmagic).
  assert (cur0 = cur) as -> by congruence.
  rewrite (thread_yield_eq k cur Hv Hs Hintr).
  destruct (N.eqb_spec (running k) (idle_thread k)) as [|_]; [done|]. simpl.
  set (rl' := list_insert_ordered (thread_compare_priority k) (running k)
                (ready_list k)).
  assert (Hcur_ok : thread_ok k (running k)) by by exists cur.
  assert (Hrl' : Forall (thread_ok k) rl')
    by by apply list_insert_ordered_Forall.
  assert (Hnil : rl' ≠ []) by apply list_insert_ordered_not_nil.
  match goal with |- ∃ _, _ ?s = _ ∧ _ => set (ky := s) end.
  assert (Hstore : ∀ t, thread_ok k t → thread_ok ky t).
  { intros t Hok.
    by apply (thread_ok_store k (running k) cur (set_status THREAD_READY)). }
  destruct rl' as [|x rl''] eqn:Hrl; [done|].
  apply Forall_cons in Hrl' as [Hx _].
  destruct (Hstore x Hx) as [nth Hnth].
  destruct (schedule_effect ky (set_status THREAD_READY cur) nth)
    as ([] & k' & Heq & k2 & nth2 & Hres & _ & Hrecomp & Hnth2 & Hk');
    subst ky; simpl; try done.
  - split; [done|]. split; [apply lookup_insert_eq|done].
  - eapply Forall_impl; [exact Hall|]. exact Hstore.
  - simpl in *. subst k'.
    destruct (Hrecomp Hm) as (Hin & _ & Hperm & Hsorted). simpl in *.
    eexists. split; [apply (yield_tail_Done _ _ _ _ Heq)|].
    enough (Hfacts :
      running (dispatch x nth2 k2) = x ∧
      (∀ t th, t ∈ all_list k → threads k !! t = Some th →
         ∃ th', threads (dispatch x nth2 k2) !! t = Some th' ∧
                priority th' = bsd_priority (recent_cpu th) (nice th) ∧
                PRI_MIN <= priority th' <= PRI_MAX) ∧
      ready_list (dispatch x nth2 k2) ≡ₚ rl'' ∧
      ready_sorted (dispatch x nth2 k2)).
    { destruct (running (dispatch x nth2 k2) =? running k)%N;
        [|exact Hfacts].
      destruct Hfacts as (? & ? & ? & ?). by split_and!. }
    unfold dispatch. simpl.
    split_and!; try done.
    + intros t th Ht_all Hth.
      assert (Hy : ∃ thy,
                 <[running k := set_status THREAD_READY cur]> (threads k) !! t
                 = Some thy ∧
                 recent_cpu thy = recent_cpu th ∧ nice thy = nice th).
      { destruct (decide (t = running k)) as [->|Hne].
        - exists (set_status THREAD_READY cur).
          rewrite lookup_insert_eq. by assert (th = cur) as -> by congruence.
        - exists th. by rewrite lookup_insert_ne. }
      destruct Hy as (thy & Hthy & Hrc & Hnice).
      pose proof (Hin t thy Ht_all Hthy) as Hk2. rewrite Hrc, Hnice in Hk2.
      revert Hk2. generalize (bsd_priority_range (recent_cpu th) (nice th)).
      generalize (bsd_priority (recent_cpu th) (nice th)). intros b Hb Hk2.
      destruct (set_priority_fields b thy) as (Hp & _ & _).
      destruct (decide (t = x)) as [->|Hne].
      * exists (set_status THREAD_RUNNING nth2).
        rewrite lookup_insert_eq.
        assert (nth2 = set_priority b thy) as -> by congruence.
        split; [done|]. cbn [priority set_status]. by rewrite Hp.
      * exists (set_priority b thy). rewrite lookup_insert_ne by done.
        split; [done|]. by rewrite Hp.
    + unfold ready_sorted in *. simpl.
      rewrite (map_ext _ (priority_at k2)); [done|]. intros t.
      by apply (priority_at_store k2 x nth2 (set_status THREAD_RUNNING)).
Qed.

Lemma thread_yield_mlfqs_recomputes_witness :
  ∃ k', thread_yield (mlfqs_kernel INTR_ON false) = Done tt k' ∧
        running k' = 1%N ∧
        priority <$> threads k' !! 3%N = Some 63 ∧
        ready_sorted k'.
Proof.
  destruct (thread_yield_mlfqs_recomputes (mlfqs_kernel INTR_ON false)
              (mk_thread 1 THREAD_RUNNING "main" 4096 63 63 []
                 NEXT_NULL NULL 0 (40 * F) THREAD_MAGIC))
    as (k' & Heq & Hrun & Hprio & _ & Hsorted);
    [reflexivity|apply mlfqs_kernel_well_formed|reflexivity..|done|].
  exists k'. split; [exact Heq|]. split; [exact Hrun|]. split; [|done].
  destruct (Hprio 3%N (mk_thread 3 THREAD_READY "b" 12288 10 10 []
                         NEXT_NULL NULL 0 0 THREAD_MAGIC))
    as (th' & Hth' & Hp & _); [set_solver|reflexivity|].
  rewrite Hth'. simpl. by rewrite Hp.
Defined.

(** ** The timer tick, again *)

Lemma valid_same_threads k k' t th :
  threads k' = threads k → valid k t th → valid k' t th.
Proof. intros Heq (? & ? & ?). split_and!; [done| |done]. by rewrite Heq. Qed.

Lemma thread_tick_effect k cur :
  valid k (running k) cur → status cur = THREAD_RUNNING →
  thread_mlfqs k = false ∨ Z.rem (ticks k) TIMER_FREQ ≠ 0 →
  returns thread_tick k
    (λ _ k',
       (∃ cur', valid k' (running k') cur' ∧ status cur' = THREAD_RUNNING) ∧
       running k' = running k ∧ idle_thread k' = idle_thread k ∧
       thread_mlfqs k' = thread_mlfqs k ∧ ticks k' = ticks k ∧
       ready_list k' = ready_list k ∧
       thread_ticks k' = uint32 (thread_ticks k + 1) ∧
       yield_on_return k'
       = (yield_on_return k || (TIME_SLICE <=? uint32 (thread_ticks k + 1))) ∧
       idle_ticks k'
       = (if (running k =? idle_thread k)%N then int64 (idle_ticks k + 1)
          else idle_ticks k) ∧
       kernel_ticks k'
       = (if (running k =? idle_thread k)%N then kernel_ticks k
          else int64 (kernel_ticks k + 1))).
Proof.
  intros Hv Hs Hmode. pose proof Hv as (Hn & Ht & Hmagic).
  unfold thread_tick. kstep.
  eapply (returns_thread_current _ cur); [done..|]. ksteps.
  set (k1 := if (running k =? idle_thread k)%N
             then set_idle_ticks (int64 (idle_ticks k + 1)) k
             else set_kernel_ticks (int64 (kernel_ticks k + 1)) k).
  eapply (returns_mono _ _ (λ _ k', k' = k1)).
  { unfold k1. destruct (running k =? idle_thread k)%N; by kstep. }
  intros [] ? ->. ksteps.
  assert (Hk1 : threads k1 = threads k ∧ running k1 = running k ∧
                idle_thread k1 = idle_thread k ∧
                thread_mlfqs k1 = thread_mlfqs k ∧ ticks k1 = ticks k ∧
                ready_list k1 = ready_list k ∧
                thread_ticks k1 = thread_ticks k ∧
                yield_on_return k1 = yield_on_return k).
  { unfold k1. by destruct (running k =? idle_thread k)%N. }
  destruct Hk1 as (Hth1 & Hr1 & Hi1 & Hm1 & Hti1 & Hrl1 & Htt1 & Hy1).
  assert (Hidle : idle_ticks k1
                  = (if (running k =? idle_thread k)%N
                     then int64 (idle_ticks k + 1) else idle_ticks k) ∧
                  kernel_ticks k1
                  = (if (running k =? idle_thread k)%N then kernel_ticks k
                     else int64 (kernel_ticks k + 1))).
  { unfold k1. by destruct (running k =? idle_thread k)%N. }
  destruct Hidle as [Hidle Hkern].
  clearbody k1.
  set (post := λ (_ : unit) (k2 : kernel),
         (∃ cur', valid k2 (running k2) cur' ∧ status cur' = THREAD_RUNNING) ∧
         k2 = set_threads (threads k2) k1).
  assert (Hrec : returns
            (if thread_mlfqs k1 then thread_recalculate_bsd_variables
             else mret tt) k1 post).
  { unfold post. rewrite Hm1. destruct (thread_mlfqs k) eqn:Hm.
    - destruct Hmode as [|Hrem]; [done|].
      unfold thread_recalculate_bsd_variables. ksteps.
      apply returns_ASSERT; [by rewrite Hm1|]. kstep.
      eapply (returns_thread_current _ cur);
        [rewrite Hr1; by apply (valid_same_threads k)|done|]. ksteps.
      rewrite Hr1, Hi1.
      destruct (N.eqb_spec (running k) (idle_thread k)) as [Heq|Hne]; simpl.
      + ksteps. rewrite Hti1.
        destruct (Z.eqb_spec (Z.rem (ticks k) TIMER_FREQ) 0); [done|].
        kstep. split; [|by destruct k1].
        exists cur. rewrite Hr1. split; [by apply (valid_same_threads k)|done].
      + kstep. eapply returns_load; [by rewrite Hth1|]. kstep.
        apply returns_ASSERT; [by apply bool_decide_eq_true_2|].
        eapply returns_store; [by rewrite Hth1|]. ksteps. simpl.
        rewrite Hti1.
        destruct (Z.eqb_spec (Z.rem (ticks k) TIMER_FREQ) 0); [done|].
        kstep. split; [|done]. eexists. simpl. rewrite Hr1.
        split; [split; [done|split; [apply lookup_insert_eq|done]]|done].
    - kstep. split; [|by destruct k1].
      exists cur. rewrite Hr1. split; [by apply (valid_same_threads k)|done]. }
  eapply returns_mono; [exact Hrec|].
  unfold post. intros [] k2 [Hcur2 Hk2]. ksteps. rewrite Hk2. simpl.
  rewrite Htt1.
  assert (Hfin : (uint32 (thread_ticks k + 1) >=? TIME_SLICE)
                 = (TIME_SLICE <=? uint32 (thread_ticks k + 1))).
  { generalize (uint32 (thread_ticks k + 1)). intros z. unfold TIME_SLICE.
    destruct (Z.geb_spec z 4), (Z.leb_spec 4 z); done || lia. }
  rewrite Hfin.
  destruct Hcur2 as (cur' & Hv' & Hs').
  assert (Hcur' : ∃ c, valid (set_threads (threads k2) k1) (running k) c ∧
                       status c = THREAD_RUNNING).
  { exists cur'. split; [|done]. destruct Hv' as (? & ? & ?).
    rewrite Hk2 in H. simpl in H. rewrite Hr1 in H.
    rewrite Hk2 in H0. simpl in H0. rewrite Hr1 in H0. by split_and!. }
  destruct (TIME_SLICE <=? uint32 (thread_ticks k + 1)); kstep; simpl;
    rewrite ?Htt1, ?Hr1, ?Hi1, ?Hm1, ?Hti1, ?Hrl1, ?Hy1, ?orb_true_r,
      ?orb_false_r;
    split_and!; try done.
Qed.

(** X14: Between the seconds at which the feedback-queue statistics are
    recomputed, a timer tick counts one tick for the running thread, idle
    or kernel, adds one to the length of its time slice and asks for a
    yield on return from the interrupt once the slice has lasted
    [TIME_SLICE] ticks; it switches no thread and leaves the ready list
    alone. *)
Theorem thread_tick_counts k cur :
  valid k (running k) cur → status cur = THREAD_RUNNING →
  thread_mlfqs k = false ∨ Z.rem (ticks k) TIMER_FREQ ≠ 0 →
  0 <= thread_ticks k < 2 ^ 32 - 1 →
  0 <= idle_ticks k < 2 ^ 63 - 1 → 0 <= kernel_ticks k < 2 ^ 63 - 1 →
  ∃ k', thread_tick k = Done tt k' ∧
        thread_ticks k' = thread_ticks k + 1 ∧
        yield_on_return k'
        = (yield_on_return k || (TIME_SLICE <=? thread_ticks k + 1)) ∧
        (if (running k =? idle_thread k)%N
         then idle_ticks k' = idle_ticks k + 1 ∧
              kernel_ticks k' = kernel_ticks k
         else idle_ticks k' = idle_ticks k ∧
              kernel_ticks k' = kernel_ticks k + 1) ∧
        running k' = running k ∧ ready_list k' = ready_list k.
Proof.
  intros Hv Hs Hmode Htt Hidle Hkern.
  destruct (thread_tick_effect k cur Hv Hs Hmode)
    as ([] & k' & Heq & _ & Hr & _ & _ & _ & Hrl & Htt' & Hy & Hi & Hk).
  exists k'. split; [exact Heq|].
  assert (Hu : uint32 (thread_ticks k + 1) = thread_ticks k + 1).
  { unfold uint32. apply Z.mod_small. lia. }
  rewrite Hu in *.
  split_and!; try done.
  destruct (running k =? idle_thread k)%N.
  - split; [|done]. rewrite Hi. apply int64_small. lia.
  - split; [done|]. rewrite Hk. apply int64_small. lia.
Qed.

Lemma thread_tick_counts_witness :
  ∃ k', thread_tick (ready_kernel 31 INTR_OFF) = Done tt k' ∧
        thread_ticks k' = 4 ∧ yield_on_return k' = true ∧
        kernel_ticks k' = 4.
Proof.
  destruct (thread_tick_counts (ready_kernel 31 INTR_OFF)
              (mk_thread 1 THREAD_RUNNING "main" 4096 31 31 []
                 NEXT_NULL NULL 0 0 THREAD_MAGIC))
    as (k' & Heq & Htt & Hy & Hc & _);
    [solve_valid|reflexivity|by left|simpl; lia..|].
  exists k'. split; [exact Heq|]. split; [exact Htt|]. split; [exact Hy|].
  simpl in Hc. by destruct Hc.
Defined.

#[global] Instance same_slice_preorder : PreOrder same_slice.
Proof.
  split.
  - by intros k.
  - intros k1 k2 k3 [E1 H1] [E2 H2]. split; congruence.
Qed.

Lemma thread_calculate_recent_cpu_same_slice t :
  preserves same_slice (thread_calculate_recent_cpu t).
Proof.
  unfold thread_calculate_recent_cpu. preserving.
  apply preserves_store; preorder. by intros k th Ht.
Qed.

Lemma thread_recalculate_bsd_variables_same_slice :
  preserves same_slice thread_recalculate_bsd_variables.
Proof.
  unfold thread_recalculate_bsd_variables, thread_calculate_load_avg,
    get_ready_threads_size, thread_foreach, timer_ticks, intr_get_level.
  preserving.
  all: try (apply preserves_modify; preorder; by intros k).
  all: try (apply preserves_store; preorder; by intros k th Ht).
  all: apply preserves_foreach; preorder.
  all: apply thread_calculate_recent_cpu_same_slice.
Qed.

Lemma bind_Done_inv {A B : Type} (m : kern A) (f : A → kern B) k b k' :
  (m ≫= f) k = Done b k' → ∃ a k1, m k = Done a k1 ∧ f a k1 = Done b k'.
Proof.
  unfold mbind, kern_bind. destruct (m k) as [a k1| |]; [|done..].
  intros Hf. by exists a, k1.
Qed.

(** Whenever [thread_tick] returns, in either scheduler and whatever the
    timer count, it has added one to [thread_ticks] and asked for a yield
    if that reached [TIME_SLICE]. *)
Lemma thread_tick_slice k r k' :
  thread_tick k = Done r k' →
  thread_ticks k' = uint32 (thread_ticks k + 1) ∧
  yield_on_return k'
  = (yield_on_return k || (TIME_SLICE <=? uint32 (thread_ticks k + 1))).
Proof.
  unfold thread_tick. intros Hrun.
  apply bind_Done_inv in Hrun as (t & k1 & H1 & Hrun).
  apply (preserves_thread_current same_slice) in H1.
  apply bind_Done_inv in Hrun as (idle & k2 & H2 & Hrun).
  apply (preserves_gets same_slice) in H2.
  apply bind_Done_inv in Hrun as ([] & k3 & H3 & Hrun).
  assert (H3' : same_slice k2 k3).
  { destruct (t =? idle)%N; injection H3 as <-; done. }
  apply bind_Done_inv in Hrun as (m & k4 & H4 & Hrun).
  apply (preserves_gets same_slice) in H4.
  apply bind_Done_inv in Hrun as ([] & k5 & H5 & Hrun).
  assert (H5' : same_slice k4 k5).
  { destruct m.
    - by apply thread_recalculate_bsd_variables_same_slice in H5.
    - by injection H5 as <-. }
  assert (Hsame : same_slice k k5) by (repeat (etrans; [eassumption|]); done).
  destruct Hsame as [Htt Hy].
  unfold modify, gets, mbind, kern_bind in Hrun. simpl in Hrun.
  rewrite Htt in Hrun.
  assert (Hfin : (uint32 (thread_ticks k + 1) >=? TIME_SLICE)
                 = (TIME_SLICE <=? uint32 (thread_ticks k + 1))).
  { generalize (uint32 (thread_ticks k + 1)). intros z. unfold TIME_SLICE.
    destruct (Z.geb_spec z 4), (Z.leb_spec 4 z); done || lia. }
  rewrite Hfin in Hrun.
  unfold intr_yield_on_return, modify, mret, kern_ret in Hrun.
  destruct (TIME_SLICE <=? uint32 (thread_ticks k + 1));
    injection Hrun as _ <-; simpl; rewrite ?Hy, ?orb_true_r, ?orb_false_r;
    done.
Qed.

(** X15: A thread that has just been dispatched is asked to yield at its
    fourth timer tick and not before: in the priority scheduler the four
    calls return; in either scheduler, whatever the timer counts at the
    four interrupts, four calls that return leave the request clear three
    times and then set it. *)
Theorem thread_tick_preempts_after_time_slice k :
  thread_ticks k = 0 → yield_on_return k = false →
  (∀ cur,
     valid k (running k) cur → status cur = THREAD_RUNNING →
     thread_mlfqs k = false →
     ∃ k3 k4,
       (thread_tick;; thread_tick;; thread_tick) k = Done tt k3 ∧
       yield_on_return k3 = false ∧
       thread_tick k3 = Done tt k4 ∧
       yield_on_return k4 = true) ∧
  (∀ n1 n2 n3 n4 k1 k2 k3 k4,
     thread_tick (set_ticks n1 k) = Done tt k1 →
     thread_tick (set_ticks n2 k1) = Done tt k2 →
     thread_tick (set_ticks n3 k2) = Done tt k3 →
     thread_tick (set_ticks n4 k3) = Done tt k4 →
     yield_on_return k1 = false ∧ yield_on_return k2 = false ∧
     yield_on_return k3 = false ∧ yield_on_return k4 = true ∧
     thread_ticks k4 = 4).
Proof.
  intros Htt Hy. split.
  - intros cur Hv Hs Hm.
    assert (Hmode : thread_mlfqs k = false ∨ Z.rem (ticks k) TIMER_FREQ ≠ 0)
      by by left.
    destruct (thread_tick_effect k cur Hv Hs Hmode)
      as ([] & k1 & Heq1 & (c1 & Hv1 & Hs1) & _ & _ & Hm1 & Hti1 & _ & Htt1
          & Hy1 & _).
    rewrite <- Hm1, <- Hti1 in Hmode. rewrite Htt in Htt1, Hy1.
    destruct (thread_tick_effect k1 c1 Hv1 Hs1 Hmode)
      as ([] & k2 & Heq2 & (c2 & Hv2 & Hs2) & _ & _ & Hm2 & Hti2 & _ & Htt2
          & Hy2 & _).
    rewrite <- Hm2, <- Hti2 in Hmode. rewrite Htt1 in Htt2, Hy2.
    destruct (thread_tick_effect k2 c2 Hv2 Hs2 Hmode)
      as ([] & k3 & Heq3 & (c3 & Hv3 & Hs3) & _ & _ & Hm3 & Hti3 & _ & Htt3
          & Hy3 & _).
    rewrite <- Hm3, <- Hti3 in Hmode. rewrite Htt2 in Htt3, Hy3.
    destruct (thread_tick_effect k3 c3 Hv3 Hs3 Hmode)
      as ([] & k4 & Heq4 & _ & _ & _ & _ & _ & _ & _ & Hy4 & _).
    rewrite Htt3 in Hy4.
    exists k3, k4. kbind Heq1. kbind Heq2. split; [exact Heq3|].
    split; [by rewrite Hy3, Hy2, Hy1, Hy|].
    split; [exact Heq4|]. rewrite Hy4. apply orb_true_r.
  - intros n1 n2 n3 n4 k1 k2 k3 k4 H1 H2 H3 H4.
    apply thread_tick_slice in H1 as [T1 Y1]. simpl in T1, Y1.
    apply thread_tick_slice in H2 as [T2 Y2]. simpl in T2, Y2.
    apply thread_tick_slice in H3 as [T3 Y3]. simpl in T3, Y3.
    apply thread_tick_slice in H4 as [T4 Y4]. simpl in T4, Y4.
    rewrite Htt in T1, Y1. rewrite T1 in T2, Y2. rewrite T2 in T3, Y3.
    rewrite T3 in T4, Y4.
    rewrite Hy in Y1. rewrite Y1 in Y2. rewrite Y2 in Y3. rewrite Y3 in Y4.
    by split_and!.
Qed.

(** The priority scheduler for the first part; for the second the
    feedback-queue scheduler at the timer counts 100 to 103, the first of
    which recomputes the load average and every [recent_cpu]. *)
Lemma thread_tick_preempts_after_time_slice_witness :
  (∃ k3 k4,
     (thread_tick;; thread_tick;; thread_tick)
       (set_thread_ticks 0 (ready_kernel 31 INTR_OFF)) = Done tt k3 ∧
     yield_on_return k3 = false ∧
     thread_tick k3 = Done tt k4 ∧
     yield_on_return k4 = true) ∧
  (∃ k1 k2 k3 k4,
     thread_tick (set_ticks 100 (set_thread_ticks 0 (mlfqs_kernel INTR_OFF true)))
     = Done tt k1 ∧
     thread_tick (set_ticks 101 k1) = Done tt k2 ∧
     thread_tick (set_ticks 102 k2) = Done tt k3 ∧
     thread_tick (set_ticks 103 k3) = Done tt k4 ∧
     load_avg k1 ≠ load_avg (mlfqs_kernel INTR_OFF true) ∧
     yield_on_return k3 = false ∧ yield_on_return k4 = true).
Proof.
  split.
  - destruct (thread_tick_preempts_after_time_slice
                (set_thread_ticks 0 (ready_kernel 31 INTR_OFF))
                eq_refl eq_refl) as [Hprio _].
    apply (Hprio (mk_thread 1 THREAD_RUNNING "main" 4096 31 31 []
                    NEXT_NULL NULL 0 0 THREAD_MAGIC));
      [solve_valid|reflexivity|reflexivity].
  - destruct (thread_tick_preempts_after_time_slice
                (set_thread_ticks 0 (mlfqs_kernel INTR_OFF true))
                eq_refl eq_refl) as [_ Hany].
    assert (Hruns : ∃ k1 k2 k3 k4,
              thread_tick (set_ticks 100
                (set_thread_ticks 0 (mlfqs_kernel INTR_OFF true)))
              = Done tt k1 ∧
              thread_tick (set_ticks 101 k1) = Done tt k2 ∧
              thread_tick (set_ticks 102 k2) = Done tt k3 ∧
              thread_tick (set_ticks 103 k3) = Done tt k4 ∧
              load_avg k1 ≠ load_avg (mlfqs_kernel INTR_OFF true)).
    { eexists _, _, _, _.
      split; [vm_compute; reflexivity|].
      split; [vm_compute; reflexivity|].
      split; [vm_compute; reflexivity|].
      split; [vm_compute; reflexivity|].
      vm_compute. discriminate. }
    destruct Hruns as (k1 & k2 & k3 & k4 & H1 & H2 & H3 & H4 & Hla).
    destruct (Hany 100 101 102 103 k1 k2 k3 k4 H1 H2 H3 H4)
      as (_ & _ & Hy3 & Hy4 & _).
    exists k1, k2, k3, k4. by split_and!.
Defined.

(** ** The feedback-queue statistics *)

Lemma thread_get_nice_eq k cur :
  thread_mlfqs k = true →
  valid k (running k) cur → status cur = THREAD_RUNNING →
  thread_get_nice k = Done (nice cur) k.
Proof.
  intros Hm Hv Hs. unfold thread_get_nice.
  assert (H1 : gets thread_mlfqs k = Done true k)
    by (unfold gets; by rewrite Hm).
  kbind H1. kbind (ASSERT_true true k eq_refl).
  kbind (thread_current_eq k cur Hv Hs).
  destruct Hv as (_ & Ht & _). by kbind (load_Some k _ _ Ht).
Qed.

Lemma thread_get_recent_cpu_eq k cur :
  thread_mlfqs k = true →
  valid k (running k) cur → status cur = THREAD_RUNNING →
  thread_get_recent_cpu k
  = Done (convert_to_int_round_nearest
            (multiply_fixed_by_int (recent_cpu cur) 100)) k.
Proof.
  intros Hm Hv Hs. unfold thread_get_recent_cpu.
  assert (H1 : gets thread_mlfqs k = Done true k)
    by (unfold gets; by rewrite Hm).
  kbind H1. kbind (ASSERT_true true k eq_refl).
  kbind (thread_current_eq k cur Hv Hs).
  destruct Hv as (_ & Ht & _). by kbind (load_Some k _ _ Ht).
Qed.

Lemma round_nearest_times_100 x :
  - 2 ^ 31 + F / 2 <= 100 * x < 2 ^ 31 - F / 2 →
  2 * Z.abs (100 * x
             - convert_to_int_round_nearest (multiply_fixed_by_int x 100) * F)
  <= F.
Proof.
  intros Hx. unfold multiply_fixed_by_int.
  assert (HF : F / 2 = 8192) by reflexivity. rewrite HF in Hx.
  rewrite (int32_small (x * 100)) by lia.
  replace (x * 100) with (100 * x) by lia.
  destruct (round_nearest_bounds (100 * x)) as [Hpos Hneg];
    [by rewrite HF|].
  rewrite HF in Hpos, Hneg. change F with 16384 in *.
  destruct (Z.le_gt_cases 0 (100 * x)) as [H0|H0];
    [specialize (Hpos H0)|specialize (Hneg H0)]; lia.
Qed.

(** X16: The accessors of the feedback-queue statistics return the running
    thread's nice value, and 100 times the load average and 100 times the
    thread's recent_cpu rounded to the nearest integer; they leave the
    state as it is. *)
Theorem mlfqs_accessors_round k cur :
  thread_mlfqs k = true →
  valid k (running k) cur → status cur = THREAD_RUNNING →
  - 2 ^ 31 + F / 2 <= 100 * load_avg k < 2 ^ 31 - F / 2 →
  - 2 ^ 31 + F / 2 <= 100 * recent_cpu cur < 2 ^ 31 - F / 2 →
  ∃ la rc,
    thread_get_nice k = Done (nice cur) k ∧
    thread_get_load_avg k = Done la k ∧
    thread_get_recent_cpu k = Done rc k ∧
    2 * Z.abs (100 * load_avg k - la * F) <= F ∧
    2 * Z.abs (100 * recent_cpu cur - rc * F) <= F.
Proof.
  intros Hm Hv Hs Hla Hrc. eexists _, _.
  split; [by apply thread_get_nice_eq|].
  split; [unfold thread_get_load_avg; kred; by rewrite Hm|].
  split; [by apply thread_get_recent_cpu_eq|].
  split; by apply round_nearest_times_100.
Qed.

Lemma mlfqs_accessors_round_witness :
  thread_get_load_avg (mlfqs_kernel INTR_ON false) = Done 300
    (mlfqs_kernel INTR_ON false) ∧
  thread_get_recent_cpu (mlfqs_kernel INTR_ON false) = Done 4000
    (mlfqs_kernel INTR_ON false).
Proof.
  destruct (mlfqs_accessors_round (mlfqs_kernel INTR_ON false)
              (mk_thread 1 THREAD_RUNNING "main" 4096 63 63 []
                 NEXT_NULL NULL 0 (40 * F) THREAD_MAGIC))
    as (la & rc & _ & Hla & Hrc & _);
    [reflexivity|solve_valid|reflexivity|by vm_compute..|].
  split; vm_compute; reflexivity.
Defined.

(** X17: Outside the feedback-queue scheduler its accessors and its setter halt
    the kernel. *)
Theorem mlfqs_functions_need_mlfqs k :
  thread_mlfqs k = false →
  thread_get_nice k = Panic ∧
  thread_get_load_avg k = Panic ∧
  thread_get_recent_cpu k = Panic ∧
  (∀ nice, thread_set_nice nice k = Panic).
Proof.
  intros Hm.
  unfold thread_get_nice, thread_get_load_avg, thread_get_recent_cpu,
    thread_set_nice.
  kred. by rewrite Hm.
Qed.

Lemma mlfqs_functions_need_mlfqs_witness :
  thread_get_nice priority_kernel = Panic ∧
  thread_get_load_avg priority_kernel = Panic.
Proof.
  destruct (mlfqs_functions_need_mlfqs priority_kernel eq_refl)
    as (Hn & Hl & _).
  by split.
Defined.

Lemma recent_cpu_sum_positive la :
  0 <= la < 2 ^ 29 →
  multiply_fixed_by_int la 2 = 2 * la ∧
  add_fixed_to_int (multiply_fixed_by_int la 2) 1 = 2 * la + F.
Proof.
  intros Hla. unfold add_fixed_to_int, multiply_fixed_by_int.
  assert (HF : F = 16384) by reflexivity.
  rewrite (int32_small (la * 2)), (int32_small (1 * F)) by lia.
  rewrite int32_small by lia. lia.
Qed.

Lemma next_recent_cpu_decays la rc nice :
  0 <= la < 2 ^ 29 → - 2 ^ 31 <= rc < 2 ^ 31 →
  let q := Z.quot (Z.quot (2 * la * F) (2 * la + F) * rc) F in
  next_recent_cpu la rc nice = add_fixed_to_int q nice ∧
  Z.abs q <= Z.abs rc ∧ (0 <= rc → 0 <= q) ∧ (rc <= 0 → q <= 0) ∧
  (la = 0 → q = 0).
Proof.
  intros Hla Hrc q.
  assert (HF : F = 16384) by reflexivity.
  set (c := Z.quot (2 * la * F) (2 * la + F)) in *.
  assert (Hc : 0 <= c < F).
  { split; [apply Z.quot_pos; lia|].
    apply Z.quot_lt_upper_bound; nia. }
  assert (Hq : Z.abs q <= Z.abs rc ∧ (0 <= rc → 0 <= q) ∧ (rc <= 0 → q <= 0)).
  { unfold q. destruct (quot_F_bounds (c * rc)) as [Hpos Hneg].
    destruct (Z.le_ge_cases 0 rc) as [H0|H0].
    - specialize (Hpos ltac:(nia)). split; [|split]; nia.
    - specialize (Hneg ltac:(nia)). split; [|split]; nia. }
  split; [|split; [by apply Hq|split; [by apply Hq|split; [by apply Hq|]]]].
  - unfold next_recent_cpu.
    destruct (recent_cpu_sum_positive la Hla) as [-> ->].
    unfold div_fixed_by_fixed, multiply_fixed_by_fixed.
    rewrite (int64_small (2 * la * F)) by nia. fold c.
    rewrite (int64_small c) by lia. rewrite (int32_small c) by lia.
    rewrite (int64_small (c * rc)) by nia. fold q.
    rewrite (int64_small q) by lia. rewrite (int32_small q) by lia. done.
  - intros ->. unfold q, c. by rewrite Z.quot_0_l.
Qed.

Lemma thread_calculate_recent_cpu_eq k t th :
  thread_mlfqs k = true → threads k !! t = Some th →
  0 <= load_avg k < 2 ^ 29 →
  thread_calculate_recent_cpu t k
  = Done tt
      (set_threads
         (<[t := set_recent_cpu
                   (next_recent_cpu (load_avg k) (recent_cpu th) (nice th))
                   th]> (threads k)) k).
Proof.
  intros Hm Ht Hla. unfold thread_calculate_recent_cpu.
  assert (H1 : gets thread_mlfqs k = Done true k)
    by (unfold gets; by rewrite Hm).
  kbind H1. kbind (ASSERT_true true k eq_refl).
  kbind (load_Some k t th Ht).
  assert (H2 : gets load_avg k = Done (load_avg k) k) by done.
  kbind H2.
  destruct (recent_cpu_sum_positive (load_avg k) Hla) as [_ Hsum].
  assert (HF : F = 16384) by reflexivity.
  destruct (Z.eqb_spec (add_fixed_to_int
                          (multiply_fixed_by_int (load_avg k) 2) 1) 0)
    as [H0|_]; [lia|].
  rewrite (store_Some k t th _ Ht). unfold next_recent_cpu. reflexivity.
Qed.

Lemma recent_cpu_set_recent_cpu v th :
  recent_cpu (set_recent_cpu v th) = v ∧
  nice (set_recent_cpu v th) = nice th ∧
  priority (set_recent_cpu v th) = priority th ∧
  status (set_recent_cpu v th) = status th ∧
  magic (set_recent_cpu v th) = magic th.
Proof. by destruct th. Qed.

(** X18: [thread_calculate_recent_cpu] cannot divide by zero while the load
    average is not negative, and the decayed part of the new value is no
    larger in magnitude than the old value, has its sign, and is zero when
    there is no load: the thread's nice value is added to it. *)
Theorem thread_calculate_recent_cpu_decays k t th :
  thread_mlfqs k = true → threads k !! t = Some th →
  0 <= load_avg k < 2 ^ 29 → - 2 ^ 31 <= recent_cpu th < 2 ^ 31 →
  ∃ k' th',
    thread_calculate_recent_cpu t k = Done tt k' ∧
    threads k' !! t = Some th' ∧
    let q := Z.quot (Z.quot (2 * load_avg k * F) (2 * load_avg k + F)
                     * recent_cpu th) F in
    recent_cpu th' = add_fixed_to_int q (nice th) ∧
    Z.abs q <= Z.abs (recent_cpu th) ∧
    (0 <= recent_cpu th → 0 <= q) ∧ (recent_cpu th <= 0 → q <= 0) ∧
    (load_avg k = 0 → q = 0).
Proof.
  intros Hm Ht Hla Hrc.
  pose proof (next_recent_cpu_decays (load_avg k) (recent_cpu th) (nice th)
                Hla Hrc) as Hdecay.
  cbv zeta in Hdecay |- *. destruct Hdecay as (Heq & Hrest).
  rewrite (thread_calculate_recent_cpu_eq k t th) by done.
  eexists _, _. split; [done|]. split; [apply lookup_insert_eq|].
  split; [|exact Hrest].
  destruct (recent_cpu_set_recent_cpu
              (next_recent_cpu (load_avg k) (recent_cpu th) (nice th)) th)
    as (-> & _). exact Heq.
Qed.

Lemma thread_calculate_recent_cpu_decays_witness :
  ∃ k' th',
    thread_calculate_recent_cpu 1%N (mlfqs_kernel INTR_OFF true)
    = Done tt k' ∧
    threads k' !! 1%N = Some th' ∧
    0 <= recent_cpu th' <= 40 * F.
Proof.
  destruct (thread_calculate_recent_cpu_decays (mlfqs_kernel INTR_OFF true)
              1%N
              (mk_thread 1 THREAD_RUNNING "main" 4096 63 63 []
                 NEXT_NULL NULL 0 (40 * F) THREAD_MAGIC))
    as (k' & th' & Heq & Hth' & Hrc & Habs & Hpos & _);
    [reflexivity|reflexivity|by vm_compute|by vm_compute|].
  exists k', th'. split; [exact Heq|]. split; [exact Hth'|].
  rewrite Hrc. vm_compute. split; discriminate.
Defined.

Lemma thread_calculate_load_avg_eq k cur :
  thread_mlfqs k = true →
  valid k (running k) cur → status cur = THREAD_RUNNING →
  ready_thread_count k < 2 ^ 31 →
  thread_calculate_load_avg k
  = Done tt (set_load_avg
               (next_load_avg (load_avg k) (ready_thread_count k)) k).
Proof.
  intros Hm Hv Hs Hn. unfold thread_calculate_load_avg.
  assert (H1 : gets thread_mlfqs k = Done true k)
    by (unfold gets; by rewrite Hm).
  kbind H1. kbind (ASSERT_true true k eq_refl).
  assert (H2 : gets load_avg k = Done (load_avg k) k) by done.
  kbind H2. by kbind (get_ready_threads_size_eq k cur Hm Hv Hs Hn).
Qed.

Lemma ready_thread_count_nonneg k : 0 <= ready_thread_count k.
Proof.
  unfold ready_thread_count, list_size.
  destruct (running k =? idle_thread k)%N; lia.
Qed.

Lemma foreach_recent_cpu_exact l k la :
  thread_mlfqs k = true → load_avg k = la → 0 <= la < 2 ^ 29 →
  NoDup l → Forall (λ t, is_Some (threads k !! t)) l →
  returns (foreach thread_calculate_recent_cpu l) k
    (λ _ k',
       thread_mlfqs k' = true ∧ load_avg k' = la ∧
       ready_list k' = ready_list k ∧
       (∀ t th, t ∈ l → threads k !! t = Some th →
                threads k' !! t
                = Some (set_recent_cpu
                          (next_recent_cpu la (recent_cpu th) (nice th)) th)) ∧
       (∀ t, t ∉ l → threads k' !! t = threads k !! t)).
Proof.
  revert k. induction l as [|t l IH]; intros k Hm Hload Hla Hnd Hall; simpl.
  - apply returns_mret. split_and!; try done.
    intros t th Hin. by apply elem_of_nil in Hin.
  - apply NoDup_cons in Hnd as [Hnotin Hnd].
    apply Forall_cons in Hall as [[th Ht] Hall].
    apply returns_bind.
    eapply returns_Done;
      [apply (thread_calculate_recent_cpu_eq k t th); by rewrite ?Hload|].
    rewrite Hload.
    remember (next_recent_cpu la (recent_cpu th) (nice th)) as v eqn:Hv.
    eapply returns_mono.
    + apply IH; [exact Hm|exact Hload|exact Hla|exact Hnd|].
      eapply Forall_impl; [exact Hall|]. intros t' [th' Ht']. simpl.
      destruct (decide (t' = t)) as [->|Hne].
      * rewrite lookup_insert_eq. by eexists.
      * rewrite lookup_insert_ne by done. by eexists.
    + intros ? k' (Hm' & Hload' & Hrl' & Hin & Hout). split_and!; try done.
      * intros t' th' Ht' Hth'. apply elem_of_cons in Ht' as [->|Ht'].
        -- rewrite (Hout t Hnotin). simpl. rewrite lookup_insert_eq.
           assert (th' = th) as -> by congruence.
           by rewrite Hv.
        -- assert (t' ≠ t) by (intros ->; done).
           apply Hin; [done|]. simpl. by rewrite lookup_insert_ne.
      * intros t' Ht'. apply not_elem_of_cons in Ht' as [Hne Ht'].
        rewrite (Hout t' Ht'). simpl. by rewrite lookup_insert_ne.
Qed.

(** X19: Between two seconds the tick charges one unit of recent_cpu to the
    running thread and to no other; the idle thread is not charged. *)
Theorem thread_recalculate_bsd_variables_charges_running k cur :
  thread_mlfqs k = true →
  valid k (running k) cur → status cur = THREAD_RUNNING →
  Z.rem (ticks k) TIMER_FREQ ≠ 0 →
  - 2 ^ 31 <= recent_cpu cur < 2 ^ 31 - F →
  thread_recalculate_bsd_variables k
  = Done tt
      (if (running k =? idle_thread k)%N then k
       else set_threads
              (<[running k := set_recent_cpu (recent_cpu cur + F) cur]>
                 (threads k)) k).
Proof.
  intros Hm Hv Hs Hrem Hrc. unfold thread_recalculate_bsd_variables.
  assert (H1 : gets thread_mlfqs k = Done true k)
    by (unfold gets; by rewrite Hm).
  kbind H1. kbind (ASSERT_true true k eq_refl).
  kbind (thread_current_eq k cur Hv Hs).
  assert (H2 : gets idle_thread k = Done (idle_thread k) k) by done.
  kbind H2. destruct Hv as (Hn & Ht & Hmagic).
  assert (Hadd : add_fixed_to_int (recent_cpu cur) 1 = recent_cpu cur + F).
  { unfold add_fixed_to_int. assert (HF : F = 16384) by reflexivity.
    rewrite (int32_small (1 * F)) by lia. apply int32_small. lia. }
  assert (Hrem' : (Z.rem (ticks k) TIMER_FREQ =? 0) = false)
    by by apply Z.eqb_neq.
  destruct (running k =? idle_thread k)%N; cbn [negb].
  - kred. by rewrite Hrem'.
  - assert (Hcharge :
      (th ← load (running k);
       ASSERT (bool_decide (status th = THREAD_RUNNING));;
       store (running k) (set_recent_cpu (add_fixed_to_int (recent_cpu th) 1)))
        k
      = Done tt
          (set_threads
             (<[running k := set_recent_cpu (recent_cpu cur + F) cur]>
                (threads k)) k)).
    { kbind (load_Some k _ _ Ht).
      kbind (ASSERT_true (bool_decide (status cur = THREAD_RUNNING)) k
               (bool_decide_eq_true_2 _ Hs)).
      rewrite Hadd. by apply store_Some. }
    kbind Hcharge. kred. by rewrite Hrem'.
Qed.

Lemma thread_recalculate_bsd_variables_charges_running_witness :
  ∃ k', thread_recalculate_bsd_variables (mlfqs_kernel INTR_OFF true)
        = Done tt k' ∧
        recent_cpu <$> threads k' !! 1%N = Some (41 * F).
Proof.
  eexists. split.
  - apply (thread_recalculate_bsd_variables_charges_running
             (mlfqs_kernel INTR_OFF true)
             (mk_thread 1 THREAD_RUNNING "main" 4096 63 63 []
                NEXT_NULL NULL 0 (40 * F) THREAD_MAGIC));
      [reflexivity|solve_valid|reflexivity|by vm_compute|by vm_compute].
  - reflexivity.
Defined.

(** X20: At a tick that is a multiple of [TIMER_FREQ] the load average is
    advanced first, from the number of ready and running threads, and then
    the recent_cpu of every thread is decayed with the new load average,
    the running thread's after this tick has been charged to it; priorities
    and the ready list stay as they are. *)
Theorem thread_recalculate_bsd_variables_each_second k cur :
  thread_mlfqs k = true → level k = INTR_OFF →
  well_formed k → threads k !! running k = Some cur →
  NoDup (all_list k) →
  Z.rem (ticks k) TIMER_FREQ = 0 →
  0 <= load_avg k → load_avg k + 273 * ready_thread_count k < 2 ^ 29 →
  ∃ k',
    thread_recalculate_bsd_variables k = Done tt k' ∧
    load_avg k' = next_load_avg (load_avg k) (ready_thread_count k) ∧
    (∀ t th, t ∈ all_list k → threads k !! t = Some th →
       ∃ th', threads k' !! t = Some th' ∧
              recent_cpu th'
              = next_recent_cpu (load_avg k')
                  (if bool_decide (t = running k)
                      && negb (running k =? idle_thread k)%N
                   then add_fixed_to_int (recent_cpu th) 1
                   else recent_cpu th)
                  (nice th) ∧
              priority th' = priority th) ∧
    ready_list k' = ready_list k.
Proof.
  intros Hm Hl [(cur0 & Hv & Hs) Hready Hall] Hcur Hnd Hrem Hla Hbound.
  pose proof Hv as (Hn & Ht & Hmagic).
  assert (cur0 = cur) as -> by congruence.
  pose proof (ready_thread_count_nonneg k) as Hcount.
  assert (Hnext : 0 <= next_load_avg (load_avg k) (ready_thread_count k)
                  < 2 ^ 29).
  { rewrite next_load_avg_truncated by lia.
    destruct (quot_F_bounds (16110 * load_avg k)) as [Hq _].
    specialize (Hq ltac:(lia)). change F with 16384 in *. lia. }
  remember (next_load_avg (load_avg k) (ready_thread_count k)) as la'
    eqn:Hla'.
  remember (if (running k =? idle_thread k)%N then cur
            else set_recent_cpu (add_fixed_to_int (recent_cpu cur) 1) cur)
    as cur1 eqn:Hdef.
  set (k1 := set_threads (<[running k := cur1]> (threads k)) k).
  assert (Hcharge : returns
            (if negb (running k =? idle_thread k)%N
             then th ← load (running k);
                  ASSERT (bool_decide (status th = THREAD_RUNNING));;
                  store (running k)
                    (set_recent_cpu (add_fixed_to_int (recent_cpu th) 1))
             else mret tt) k (λ _ k0, k0 = k1)).
  { unfold k1. rewrite Hdef.
    destruct (N.eqb_spec (running k) (idle_thread k)) as [Heq|Hne];
      cbn [negb].
    - kstep. rewrite insert_id by done. by destruct k.
    - kstep. eapply returns_load; [exact Ht|]. kstep.
      apply returns_ASSERT; [by apply bool_decide_eq_true_2|].
      by eapply returns_store; [exact Ht|]. }
  assert (Hk1 : threads k1 = <[running k := cur1]> (threads k) ∧
                running k1 = running k ∧ thread_mlfqs k1 = true ∧
                ticks k1 = ticks k ∧ level k1 = INTR_OFF ∧
                all_list k1 = all_list k ∧ ready_list k1 = ready_list k ∧
                load_avg k1 = load_avg k ∧
                ready_thread_count k1 = ready_thread_count k).
  { unfold k1. by split_and!. }
  destruct Hk1 as (Hth1 & Hrun1 & Hmlfqs1 & Hticks1 & Hlvl1 & Hal1 & Hrl1
                   & Hla1 & Hcount1).
  assert (Hcur1 : status cur1 = THREAD_RUNNING ∧ magic cur1 = THREAD_MAGIC ∧
                  nice cur1 = nice cur ∧ priority cur1 = priority cur ∧
                  recent_cpu cur1
                  = (if (running k =? idle_thread k)%N then recent_cpu cur
                     else add_fixed_to_int (recent_cpu cur) 1)).
  { rewrite Hdef. destruct (running k =? idle_thread k)%N; [done|].
    destruct (recent_cpu_set_recent_cpu
                (add_fixed_to_int (recent_cpu cur) 1) cur)
      as (-> & -> & -> & -> & ->). done. }
  destruct Hcur1 as (Hs1 & Hm1 & Hnice1 & Hprio1 & Hrc1).
  clearbody k1. clear Hdef.
  assert (Hv1 : valid k1 (running k1) cur1).
  { rewrite Hrun1. split; [done|]. rewrite Hth1.
    split; [apply lookup_insert_eq|done]. }
  enough (Hret : returns thread_recalculate_bsd_variables k
            (λ _ k',
               load_avg k' = la' ∧ ready_list k' = ready_list k ∧
               (∀ t th1, t ∈ all_list k → threads k1 !! t = Some th1 →
                  threads k' !! t
                  = Some (set_recent_cpu
                            (next_recent_cpu la' (recent_cpu th1) (nice th1))
                            th1)))).
  { destruct Hret as ([] & k' & Heq & Hload & Hrl & Hthreads).
    exists k'. split; [exact Heq|]. split; [exact Hload|]. split; [|exact Hrl].
    intros t th Hin Hth. rewrite Hload.
    destruct (decide (t = running k)) as [->|Hne].
    - assert (th = cur) as -> by congruence.
      rewrite (Hthreads (running k) cur1 Hin)
        by (rewrite Hth1; apply lookup_insert_eq).
      eexists. split; [done|].
      destruct (recent_cpu_set_recent_cpu
                  (next_recent_cpu la' (recent_cpu cur1) (nice cur1)) cur1)
        as (-> & _ & -> & _).
      rewrite bool_decide_true by done. rewrite Hrc1, Hnice1, Hprio1.
      by destruct (running k =? idle_thread k)%N.
    - rewrite (Hthreads t th Hin)
        by (rewrite Hth1; by rewrite lookup_insert_ne).
      eexists. split; [done|].
      destruct (recent_cpu_set_recent_cpu
                  (next_recent_cpu la' (recent_cpu th) (nice th)) th)
        as (-> & _ & -> & _).
      by rewrite bool_decide_false by done. }
  unfold thread_recalculate_bsd_variables. ksteps.
  apply returns_ASSERT; [done|]. kstep.
  eapply (returns_thread_current _ cur); [done..|]. ksteps.
  eapply returns_mono; [exact Hcharge|].
  intros [] ? ->. ksteps.
  rewrite Hticks1, Hrem. simpl. kstep.
  eapply returns_Done.
  { apply (thread_calculate_load_avg_eq k1 cur1); try done.
    rewrite Hcount1. lia. }
  rewrite Hcount1, Hla1, <- Hla'.
  unfold thread_foreach. ksteps.
  apply returns_ASSERT; [simpl; rewrite Hlvl1; by apply bool_decide_eq_true_2|].
  ksteps. simpl. rewrite Hal1.
  eapply returns_mono.
  { apply (foreach_recent_cpu_exact (all_list k) _ la'); try done.
    simpl. rewrite Hth1.
    eapply Forall_impl; [exact Hall|]. intros t (th & _ & Hth & _).
    destruct (decide (t = running k)) as [->|Hne].
    - rewrite lookup_insert_eq. by eexists.
    - rewrite lookup_insert_ne by done. by eexists. }
  intros [] k' (_ & Hload' & Hrl' & Hin & _).
  split; [exact Hload'|]. split; [by rewrite Hrl'|]. exact Hin.
Qed.

Lemma thread_recalculate_bsd_variables_each_second_witness :
  ∃ k',
    thread_recalculate_bsd_variables
      (mk_kernel (threads (mlfqs_kernel INTR_OFF true)) ∅ [2%N; 3%N]
         [1%N; 2%N; 3%N; 4%N] 4%N 1%N (3 * F) 0 3 0 3 true 5 1%N INTR_OFF
         true false 100 [])
    = Done tt k' ∧
    load_avg k' = 49149.
Proof.
  destruct (thread_recalculate_bsd_variables_each_second
              (mk_kernel (threads (mlfqs_kernel INTR_OFF true)) ∅ [2%N; 3%N]
                 [1%N; 2%N; 3%N; 4%N] 4%N 1%N (3 * F) 0 3 0 3 true 5 1%N
                 INTR_OFF true false 100 [])
              (mk_thread 1 THREAD_RUNNING "main" 4096 63 63 []
                 NEXT_NULL NULL 0 (40 * F) THREAD_MAGIC))
    as (k' & Heq & Hload & _).
  - reflexivity.
  - reflexivity.
  - solve_well_formed.
  - reflexivity.
  - apply (bool_decide_unpack _). by vm_compute.
  - reflexivity.
  - by vm_compute.
  - by vm_compute.
  - exists k'. split; [exact Heq|]. rewrite Hload. by vm_compute.
Defined.

(** ** Setting and resetting priorities *)

Lemma well_formed_store k t th f :
  threads k !! t = Some th →
  magic (f th) = magic th → status (f th) = status th →
  well_formed k →
  well_formed (set_threads (<[t := f th]> (threads k)) k).
Proof.
  intros Ht Hm Hs [(cur & Hv & Hrun) Hready Hall]. split; simpl.
  - destruct (decide (running k = t)) as [Heq|Hne].
    + exists (f th). destruct Hv as (Hn & Hc & Hmc).
      assert (cur = th) as -> by congruence.
      split; [|congruence]. split; [done|]. simpl. rewrite Heq.
      split; [apply lookup_insert_eq|congruence].
    + exists cur. split; [|done]. destruct Hv as (Hn & Hc & Hmc).
      split; [done|]. simpl. by rewrite lookup_insert_ne.
  - eapply Forall_impl; [exact Hready|]. intros t'.
    by apply (thread_ok_store k t th f).
  - eapply Forall_impl; [exact Hall|]. intros t'.
    by apply (thread_ok_store k t th f).
Qed.

Lemma thread_set_priority_eq k cur p :
  thread_mlfqs k = false →
  valid k (running k) cur → status cur = THREAD_RUNNING →
  Forall (λ d, is_Some (threads k !! d)) (donations cur) →
  PRI_MIN <= p <= PRI_MAX →
  thread_set_priority p k
  = thread_max_yield
      (set_threads
         (<[running k := set_priority (Z.max p (donated_priority k cur))
                           (set_base_priority p cur)]> (threads k)) k).
Proof.
  intros Hm Hv Hs Hdon Hp. pose proof Hv as (Hn & Ht & Hmagic).
  unfold thread_set_priority.
  assert (H0 : ASSERT ((PRI_MIN <=? p) && (p <=? PRI_MAX)) k = Done tt k).
  { apply ASSERT_true. apply andb_true_intro. split; apply Z.leb_le; lia. }
  kbind H0.
  assert (H1 : gets thread_mlfqs k = Done false k)
    by (unfold gets; by rewrite Hm).
  kbind H1. cbn [negb].
  kbind (thread_current_eq k cur Hv Hs).
  kbind (store_Some k _ _ (set_base_priority p) Ht).
  set (cur1 := set_base_priority p cur).
  set (kb := set_threads (<[running k := cur1]> (threads k)) k).
  assert (Hv1 : valid kb (running kb) cur1).
  { split; [done|]. split; [apply lookup_insert_eq|done]. }
  kbind (thread_current_eq kb cur1 Hv1 Hs).
  assert (Hdon1 : Forall (λ d, is_Some (threads kb !! d)) (donations cur1)).
  { eapply Forall_impl; [exact Hdon|]. intros d [th Hd]. simpl.
    destruct (decide (d = running k)) as [->|Hne].
    - rewrite lookup_insert_eq. by eexists.
    - rewrite lookup_insert_ne by done. by eexists. }
  kbind (thread_reset_priority_eq kb (running k) cur1 Hv1 Hdon1).
  f_equal. unfold after_reset.
  rewrite bool_decide_false by (simpl; by rewrite Hs).
  assert (Hval : reset_priority_value kb cur1
                 = Z.max p (donated_priority k cur)).
  { unfold reset_priority_value.
    assert (Hd : donated_priority kb cur1 = donated_priority k cur).
    { unfold donated_priority. simpl. destruct (donations cur); [done|].
      by apply (priority_at_store k (running k) cur (set_base_priority p)). }
    rewrite Hd. simpl.
    destruct (Z.gtb_spec (donated_priority k cur) p); lia. }
  rewrite Hval. unfold kb. simpl. by rewrite insert_insert_eq.
Qed.

(** X21: In the priority scheduler [thread_set_priority] sets the base priority
    of the running thread; its effective priority becomes the larger of
    the new base and the highest donation, the new base when nothing is
    donated. The thread keeps the processor unless the front of the ready
    list now outranks it; then it yields to that thread, or, inside an
    interrupt handler, asks for a yield on return. *)
Theorem thread_set_priority_effect k cur p :
  thread_mlfqs k = false → well_formed k →
  threads k !! running k = Some cur →
  running k ∉ ready_list k →
  Forall (λ d, is_Some (threads k !! d)) (donations cur) →
  PRI_MIN <= p <= PRI_MAX →
  ∃ k' cur',
    thread_set_priority p k = Done tt k' ∧
    threads k' !! running k = Some cur' ∧
    base_priority cur' = p ∧
    priority cur' = Z.max p (donated_priority k cur) ∧
    (donations cur = [] → priority cur' = p) ∧
    (max_ready_priority k <= priority cur' →
     running k' = running k ∧ ready_list k' = ready_list k) ∧
    (priority cur' < max_ready_priority k →
     if in_external_intr k
     then running k' = running k ∧ yield_on_return k' = true
     else running k' = hd NULL (ready_list k)).
Proof.
  intros Hm Hwf Hcur Hnotin Hdon Hp.
  pose proof Hwf as [(cur0 & Hv & Hs) Hready Hall].
  pose proof Hv as (Hn & Ht & Hmagic).
  assert (cur0 = cur) as -> by congruence.
  rewrite (thread_set_priority_eq k cur p) by done.
  set (v := Z.max p (donated_priority k cur)).
  set (cur2 := set_priority v (set_base_priority p cur)).
  set (k1 := set_threads (<[running k := cur2]> (threads k)) k).
  assert (Hwf1 : well_formed k1).
  { by apply (well_formed_store k (running k) cur
                (λ th, set_priority v (set_base_priority p th))). }
  assert (Hv1 : valid k1 (running k1) cur2).
  { split; [done|]. split; [apply lookup_insert_eq|done]. }
  assert (Hmax : max_ready_priority k1 = max_ready_priority k).
  { unfold max_ready_priority. simpl.
    destruct (ready_list k) as [|t rest]; [done|].
    apply not_elem_of_cons in Hnotin as [Hnt _].
    unfold priority_at. simpl. by rewrite lookup_insert_ne. }
  assert (Hnone : donations cur = [] → v = p).
  { intros Hnil. unfold v, donated_priority. rewrite Hnil.
    unfold PRI_MIN in *. lia. }
  rewrite (thread_max_yield_eq k1 cur2 Hv1 Hs (wf_ready _ Hwf1)).
  rewrite Hmax. change (priority cur2) with v.
  destruct (Z.gtb_spec (max_ready_priority k) v) as [Hgt|Hle].
  - change (in_external_intr k1) with (in_external_intr k).
    destruct (in_external_intr k) eqn:Hintr.
    + exists (set_yield_on_return true k1), cur2.
      split; [done|]. simpl. split; [apply lookup_insert_eq|].
      split_and!; try done; intros; lia.
    + pose proof Hgt as Hgt0. unfold max_ready_priority in Hgt.
      destruct (ready_list k) as [|t rest] eqn:Hrl;
        [unfold PRI_MIN in *; lia|].
      apply not_elem_of_cons in Hnotin as [Hnt _].
      apply Forall_cons in Hready as [(th & _ & Hth & _) _].
      unfold priority_at in Hgt. rewrite Hth in Hgt.
      rewrite (thread_yield_front_runs k1 cur2 t th rest); try done.
      * eexists _, (set_status THREAD_READY cur2). split; [done|].
        unfold dispatch. simpl. rewrite lookup_insert_ne by done.
        split; [apply lookup_insert_eq|].
        change (priority (set_status THREAD_READY cur2)) with v.
        split_and!; try done; intros; lia.
      * simpl. apply lookup_insert_eq.
      * simpl. by rewrite lookup_insert_ne.
      * change (priority cur2) with v. lia.
  - exists k1, cur2. split; [done|]. simpl.
    split; [apply lookup_insert_eq|]. split_and!; try done; intros; lia.
Qed.

Lemma thread_set_priority_effect_witness :
  ∃ k', thread_set_priority 10 (ready_kernel 31 INTR_ON) = Done tt k' ∧
        running k' = 2%N ∧
        priority <$> threads k' !! 1%N = Some 10.
Proof.
  destruct (thread_set_priority_effect (ready_kernel 31 INTR_ON)
              (mk_thread 1 THREAD_RUNNING "main" 4096 31 31 []
                 NEXT_NULL NULL 0 0 THREAD_MAGIC) 10)
    as (k' & cur' & Heq & Hcur' & _ & _ & Hp & _ & Hyield).
  - reflexivity.
  - apply ready_kernel_well_formed.
  - reflexivity.
  - apply (bool_decide_unpack _). by vm_compute.
  - constructor.
  - unfold PRI_MIN, PRI_MAX. lia.
  - exists k'. split; [exact Heq|]. simpl in Hcur'. rewrite Hcur'. simpl.
    rewrite (Hp eq_refl). split; [|done].
    apply Hyield. rewrite (Hp eq_refl). by vm_compute.
Defined.

(** X22: A priority outside [PRI_MIN, PRI_MAX] halts the kernel, in
    [thread_set_priority] under either scheduler, in [init_thread], and in
    [thread_create] once a page has been obtained. *)
Theorem priority_out_of_range_panics k p :
  ¬ (PRI_MIN <= p <= PRI_MAX) →
  thread_set_priority p k = Panic ∧
  (∀ t name, init_thread t name p k = Panic) ∧
  (∀ name function aux pg rest,
     function ≠ NULL → free_pages k = pg :: rest → pg ≠ NULL →
     thread_create name p function aux k = Panic).
Proof.
  intros Hp.
  assert (Hrange : (PRI_MIN <=? p) && (p <=? PRI_MAX) = false).
  { apply andb_false_iff.
    destruct (Z.leb_spec PRI_MIN p); [|by left].
    destruct (Z.leb_spec p PRI_MAX); [lia|by right]. }
  assert (Hinit : ∀ t name k0, init_thread t name p k0 = Panic).
  { intros t name k0. unfold init_thread.
    destruct (t =? NULL)%N; [done|]. kred. by rewrite Hrange. }
  split_and!.
  - unfold thread_set_priority. kred. by rewrite Hrange.
  - intros t name. apply Hinit.
  - intros name function aux pg rest Hf Hfree Hpg. unfold thread_create.
    assert (H0 : ASSERT (negb (function =? NULL)%N) k = Done tt k).
    { apply ASSERT_true. by destruct (N.eqb_spec function NULL). }
    kbind H0.
    assert (H1 : palloc_get_page k
                 = Done pg (set_free_pages rest
                              (set_threads (<[pg := zero_page]> (threads k))
                                 k))).
    { unfold palloc_get_page. by rewrite Hfree. }
    kbind H1. destruct (N.eqb_spec pg NULL) as [|_]; [done|].
    unfold mbind at 1, kern_bind at 1. by rewrite Hinit.
Qed.

Lemma priority_out_of_range_panics_witness :
  thread_set_priority 64 priority_kernel = Panic ∧
  thread_create "worker" (- 1) 100%N NULL priority_kernel = Panic.
Proof.
  destruct (priority_out_of_range_panics priority_kernel 64) as (Hset & _);
    [unfold PRI_MIN, PRI_MAX; lia|].
  destruct (priority_out_of_range_panics priority_kernel (- 1))
    as (_ & _ & Hcreate); [unfold PRI_MIN, PRI_MAX; lia|].
  split; [exact Hset|]. by apply (Hcreate _ _ _ 8%N []).
Defined.

(** X23: [thread_reset_priority] on a ready thread takes it out of the ready
    list and puts it back where its new priority belongs: the list keeps
    its members and stays in descending order. *)
Theorem thread_reset_priority_keeps_ready_sorted k t th :
  valid k t th →
  Forall (λ d, is_Some (threads k !! d)) (donations th) →
  status th = THREAD_READY →
  ready_sorted k →
  ∃ k' th',
    thread_reset_priority t k = Done tt k' ∧
    threads k' !! t = Some th' ∧
    priority th' = reset_priority_value k th ∧
    ready_list k' ≡ₚ t :: list_remove t (ready_list k) ∧
    ready_sorted k'.
Proof.
  intros Hv Hdon Hs Hsorted. pose proof Hv as (Hn & Ht & Hmagic).
  rewrite (thread_reset_priority_eq k t th Hv Hdon).
  unfold after_reset. rewrite bool_decide_true by done.
  set (v := reset_priority_value k th).
  set (k1 := set_threads (<[t := set_priority v th]> (threads k)) k).
  exists (set_ready_list
            (list_insert_ordered (thread_compare_priority k1) t
               (list_remove t (ready_list k))) k1), (set_priority v th).
  split; [done|]. simpl. split; [apply lookup_insert_eq|].
  split; [done|].
  split; [apply list_insert_ordered_Permutation|].
  unfold ready_sorted. simpl.
  change (Sorted Z.ge
            (map (priority_at k1)
               (list_insert_ordered (thread_compare_priority k1) t
                  (list_remove t (ready_list k))))).
  apply (list_insert_ordered_Sorted _ (priority_at k1)); [done|].
  rewrite (map_ext_in _ (priority_at k)).
  - by apply (list_remove_Sorted (priority_at k)).
  - intros t' Hin. unfold priority_at, k1. simpl.
    rewrite lookup_insert_ne; [done|]. intros <-.
    apply list_elem_of_In in Hin. by apply list_remove_not_elem in Hin.
Qed.

Lemma thread_reset_priority_keeps_ready_sorted_witness :
  ∃ k', thread_reset_priority 3%N (ready_kernel 31 INTR_ON) = Done tt k' ∧
        ready_sorted k'.
Proof.
  destruct (thread_reset_priority_keeps_ready_sorted
              (ready_kernel 31 INTR_ON) 3%N
              (mk_thread 3 THREAD_READY "b" 12288 20 20 []
                 NEXT_NULL NULL 0 0 THREAD_MAGIC))
    as (k' & _ & Heq & _ & _ & _ & Hsorted).
  - solve_valid.
  - constructor.
  - reflexivity.
  - unfold ready_sorted. simpl. repeat constructor; by vm_compute.
  - by exists k'.
Defined.

(** ** Donation along a chain *)

#[global] Instance same_links_preorder : PreOrder same_links.
Proof.
  split.
  - intros k. by split_and!.
  - intros k1 k2 k3 (Hl1 & Hr1 & Hv1 & Ht1) (Hl2 & Hr2 & Hv2 & Ht2).
    split_and!; [congruence..|]. intros t. by rewrite Ht2, Ht1.
Qed.

Lemma same_links_store k t th f :
  threads k !! t = Some th →
  required_lock (f th) = required_lock th → magic (f th) = magic th →
  status (f th) = status th →
  same_links k (set_threads (<[t := f th]> (threads k)) k).
Proof.
  intros Ht Hr Hm Hs. split_and!; try done. intros t'. simpl.
  destruct (decide (t' = t)) as [->|Hne].
  - rewrite lookup_insert_eq, Ht. simpl. by rewrite Hr, Hm, Hs.
  - by rewrite lookup_insert_ne.
Qed.

Lemma same_links_lookup k k' t th :
  same_links k k' → threads k !! t = Some th →
  ∃ th', threads k' !! t = Some th' ∧ required_lock th' = required_lock th ∧
         magic th' = magic th ∧ status th' = status th.
Proof.
  intros (_ & _ & _ & Hth) Ht. specialize (Hth t). rewrite Ht in Hth.
  destruct (threads k' !! t) as [th'|]; [|done]. exists th'.
  simpl in Hth. by injection Hth as -> -> ->.
Qed.

Lemma same_links_valid k k' t th :
  same_links k k' → valid k t th →
  ∃ th', valid k' t th' ∧ required_lock th' = required_lock th ∧
         status th' = status th.
Proof.
  intros Hsame (Hn & Ht & Hm).
  destruct (same_links_lookup _ _ _ _ Hsame Ht) as (th' & Ht' & Hr & Hm' & Hs).
  exists th'. split; [|done]. split; [done|]. split; [done|congruence].
Qed.

Lemma same_links_all_threads k k' :
  same_links k k' → all_threads k → all_threads k'.
Proof.
  intros Hsame Hall t th' Ht'.
  assert (Hsym : same_links k' k).
  { destruct Hsame as (? & ? & ? & Hth). by split_and!. }
  destruct (same_links_lookup _ _ _ _ Hsym Ht') as (th & Ht & _ & Hm & _).
  rewrite <- Hm. by apply (Hall t).
Qed.

Lemma donation_path_same k k' t n e :
  same_links k k' → donation_path k t n e → donation_path k' t n e.
Proof.
  intros Hsame Hpath. induction Hpath as [t th Ht Hr|t th lk n e Ht Hr Hl Hh _ IH].
  - destruct (same_links_lookup _ _ _ _ Hsame Ht) as (th' & Ht' & Hr' & _).
    apply (path_end k' t th'); [done|congruence].
  - destruct (same_links_lookup _ _ _ _ Hsame Ht) as (th' & Ht' & Hr' & _).
    destruct Hsame as (Hlocks & _).
    apply (path_step k' t th' lk); rewrite ?Hr', ?Hlocks; done.
Qed.

Lemma donation_path_length k t n e :
  donation_path k t n e → ∀ m e', donation_path k t m e' → n = m.
Proof.
  induction 1 as [t th Ht Hr|t th lk n e Ht Hr Hl Hh _ IH];
    intros m e' Hpath'; inversion Hpath' as [? th' Ht' Hr'|? th' lk' ? ? Ht' Hr' Hl' Hh' Hrest];
    subst.
  - done.
  - congruence.
  - congruence.
  - f_equal. assert (th' = th) as -> by congruence.
    assert (lk' = lk) as -> by congruence. by apply (IH _ e').
Qed.

Lemma donation_path_not_self k t th lk n e :
  threads k !! t = Some th → locks k !! required_lock th = Some lk →
  donation_path k t (S n) e → holder lk ≠ t.
Proof.
  intros Ht Hl Hpath.
  inversion Hpath as [|? th' lk' ? ? Ht' Hr' Hl' Hh' Hrest]; subst.
  assert (th' = th) as -> by congruence.
  assert (lk' = lk) as -> by congruence.
  intros Heq. rewrite Heq in Hrest.
  pose proof (donation_path_length _ _ _ _ Hpath _ _ Hrest). lia.
Qed.

Lemma donation_path_mapped k t n e :
  donation_path k t n e → is_Some (threads k !! t).
Proof. destruct 1; by eexists. Qed.

Lemma donors_mapped_update k k' :
  (∀ t, is_Some (threads k !! t) → is_Some (threads k' !! t)) →
  (∀ t th', threads k' !! t = Some th' →
            ∃ th, threads k !! t = Some th ∧
                  Forall (λ d, d ∈ donations th ∨ is_Some (threads k !! d))
                    (donations th')) →
  donors_mapped k → donors_mapped k'.
Proof.
  intros Hdom Hdon Hk t th' Ht'.
  destruct (Hdon t th' Ht') as (th & Ht & Hall).
  eapply Forall_impl; [exact Hall|]. intros d [Hd|Hd]; apply Hdom; [|done].
  pose proof (Hk t th Ht) as Hmapped. rewrite Forall_forall in Hmapped.
  by apply Hmapped.
Qed.

Lemma Forall_elem_of_self {A : Type} (l : list A) (P : A → Prop) :
  Forall (λ d, d ∈ l ∨ P d) l.
Proof. apply Forall_forall. intros d Hd. by left. Qed.

Lemma donors_mapped_store k t th f :
  threads k !! t = Some th → donations (f th) = donations th →
  donors_mapped k →
  donors_mapped (set_threads (<[t := f th]> (threads k)) k).
Proof.
  intros Ht Hd. apply donors_mapped_update; simpl.
  - intros t' Hsome. destruct (decide (t' = t)) as [->|Hne].
    + rewrite lookup_insert_eq. by eexists.
    + by rewrite lookup_insert_ne.
  - intros t' th'. destruct (decide (t' = t)) as [->|Hne].
    + rewrite lookup_insert_eq. intros [= <-]. exists th. split; [done|].
      rewrite Hd. apply Forall_elem_of_self.
    + rewrite lookup_insert_ne by done. intros Ht'. exists th'.
      split; [done|]. apply Forall_elem_of_self.
Qed.

Lemma after_reset_facts k t th :
  threads k !! t = Some th →
  let k' := after_reset k t th in
  threads k' = <[t := set_priority (reset_priority_value k th) th]> (threads k) ∧
  same_links k k' ∧ (donors_mapped k → donors_mapped k').
Proof.
  intros Ht k'.
  assert (Hth : threads k'
                = <[t := set_priority (reset_priority_value k th) th]>
                    (threads k)).
  { unfold k', after_reset. by destruct (bool_decide _). }
  split; [done|].
  pose proof (same_links_store k t th
                (set_priority (reset_priority_value k th)) Ht eq_refl eq_refl
                eq_refl) as Hsame.
  pose proof (donors_mapped_store k t th
                (set_priority (reset_priority_value k th)) Ht eq_refl)
    as Hdon.
  assert (Hfields : locks k' = locks k ∧ running k' = running k ∧
                    level k' = level k).
  { unfold k', after_reset. by destruct (bool_decide _). }
  destruct Hfields as (Hl & Hr & Hv).
  split.
  - destruct Hsame as (_ & _ & _ & Hsame). split_and!; try done.
    intros t'. rewrite Hth. apply Hsame.
  - intros Hk t' th'. rewrite Hth. apply (Hdon Hk).
Qed.

Lemma thread_remove_donation_returns k t th :
  level k = INTR_OFF → valid k t th →
  returns (thread_remove_donation t) k
    (λ _ k', same_links k k' ∧ (donors_mapped k → donors_mapped k') ∧
             ∀ x, priority_at k' x = priority_at k x).
Proof.
  intros Hl Hv. pose proof Hv as (Hn & Ht & Hm).
  unfold thread_remove_donation. ksteps.
  apply returns_ASSERT; [by apply bool_decide_eq_true_2|]. kstep.
  eapply returns_is_thread; [exact Hv|]. kstep.
  apply returns_ASSERT; [done|]. kstep.
  eapply returns_load; [exact Ht|].
  destruct (bool_decide (dona_elem_next th ≠ NEXT_NULL)).
  - kstep. unfold donations_remove. kstep.
    set (g := λ th0 : thread,
           set_donations (list_remove t (donations th0)) th0).
    eapply returns_store; [simpl; by rewrite lookup_fmap, Ht|]. simpl.
    split_and!.
    + split_and!; try done. intros x. simpl.
      destruct (decide (x = t)) as [->|Hne].
      * by rewrite lookup_insert_eq, Ht.
      * rewrite lookup_insert_ne, lookup_fmap by done.
        by destruct (threads k !! x).
    + apply donors_mapped_update; simpl.
      * intros x Hsome. destruct (decide (x = t)) as [->|Hne].
        -- rewrite lookup_insert_eq. by eexists.
        -- rewrite lookup_insert_ne, lookup_fmap by done.
           destruct Hsome as [? ->]. by eexists.
      * intros x th'. destruct (decide (x = t)) as [->|Hne].
        -- rewrite lookup_insert_eq. intros [= <-]. exists th.
           split; [done|]. simpl. rewrite list_remove_filter.
           apply Forall_forall. intros d Hd. left.
           by apply list_elem_of_filter in Hd as [_ Hd].
        -- rewrite lookup_insert_ne, lookup_fmap by done.
           destruct (threads k !! x) as [th0|]; [|done]. intros [= <-].
           exists th0. split; [done|]. simpl. rewrite list_remove_filter.
           apply Forall_forall. intros d Hd. left.
           by apply list_elem_of_filter in Hd as [_ Hd].
    + intros x. unfold priority_at. simpl.
      destruct (decide (x = t)) as [->|Hne].
      * by rewrite lookup_insert_eq, Ht.
      * rewrite lookup_insert_ne, lookup_fmap by done.
        by destruct (threads k !! x).
  - kstep. split_and!; done.
Qed.

Lemma donations_insert_ordered_returns k h t hth tth :
  threads k !! h = Some hth → threads k !! t = Some tth → h ≠ t →
  returns (donations_insert_ordered h t) k
    (λ _ k', same_links k k' ∧ (donors_mapped k → donors_mapped k') ∧
             (∀ x, priority_at k' x = priority_at k x) ∧
             ∃ hth', threads k' !! h = Some hth' ∧
                     base_priority hth' = base_priority hth ∧
                     donations hth'
                     = list_insert_ordered (thread_compare_donation k) t
                         (donations hth)).
Proof.
  intros Hh Ht Hne. unfold donations_insert_ordered. kstep.
  set (hth' := set_donations
                 (list_insert_ordered (thread_compare_donation k) t
                    (donations hth)) hth).
  eapply (returns_store h hth); [exact Hh|]. cbv beta. fold hth'.
  eapply returns_store; [simpl; by rewrite lookup_insert_ne|]. simpl.
  set (k1 := set_threads (<[h := hth']> (threads k)) k).
  assert (Hs1 : same_links k k1).
  { by apply (same_links_store k h hth
                (set_donations
                   (list_insert_ordered (thread_compare_donation k) t
                      (donations hth)))). }
  assert (Ht1 : threads k1 !! t = Some tth)
    by (simpl; by rewrite lookup_insert_ne).
  assert (Hs2 : same_links k1
                  (set_threads
                     (<[t := set_dona_elem_next NEXT_ELEM tth]> (threads k1))
                     k1)).
  { by apply (same_links_store k1 t tth (set_dona_elem_next NEXT_ELEM)). }
  split_and!.
  - by etrans.
  - intros Hk.
    apply (donors_mapped_store k1 t tth (set_dona_elem_next NEXT_ELEM));
      [done..|].
    revert Hk. apply donors_mapped_update; simpl.
    + intros x Hsome. destruct (decide (x = h)) as [->|Hnx].
      * rewrite lookup_insert_eq. by eexists.
      * by rewrite lookup_insert_ne.
    + intros x th'. destruct (decide (x = h)) as [->|Hnx].
      * rewrite lookup_insert_eq. intros [= <-]. exists hth.
        split; [done|]. simpl.
        apply list_insert_ordered_Forall; [right; by eexists|].
        apply Forall_elem_of_self.
      * rewrite lookup_insert_ne by done. intros Hx. exists th'.
        split; [done|]. apply Forall_elem_of_self.
  - intros x. etrans;
      [exact (priority_at_store k1 t tth (set_dona_elem_next NEXT_ELEM) x Ht1
                eq_refl)|].
    by apply (priority_at_store k h hth
                (set_donations
                   (list_insert_ordered (thread_compare_donation k) t
                      (donations hth)))).
  - exists hth'. split; [|done].
    rewrite lookup_insert_ne by done. apply lookup_insert_eq.
Qed.

Lemma hd_list_insert_ordered_ge {A : Type} (less : A → A → bool) (f : A → Z)
    (e d : A) (l : list A) :
  (∀ a b, less a b = (f a >? f b)) →
  f e <= f (hd d (list_insert_ordered less e l)).
Proof.
  intros Hless. destruct l as [|x l]; simpl; [lia|]. rewrite Hless.
  destruct (Z.gtb_spec (f e) (f x)); simpl; lia.
Qed.

Lemma reset_priority_value_ge_front k th d :
  priority_at k (hd d (donations th)) <= reset_priority_value k th ∨
  donations th = [].
Proof.
  destruct (donations th) as [|x l] eqn:Hd; [by right|]. left.
  unfold reset_priority_value, donated_priority. rewrite Hd. simpl.
  destruct (Z.gtb_spec (priority_at k x) (base_priority th)); lia.
Qed.

Lemma returns_load_lock l lk k (post : lock → kernel → Prop) :
  locks k !! l = Some lk → post lk k → returns (load_lock l) k post.
Proof. intros Hl Hp. exists lk, k. unfold load_lock. by rewrite Hl. Qed.

Lemma donate_walk_raises steps : ∀ k t th n e P,
  (n < steps)%nat → level k = INTR_OFF →
  (∃ cur, valid k (running k) cur ∧ status cur = THREAD_RUNNING) →
  all_threads k → donors_mapped k →
  valid k t th → donation_path k t n e →
  P <= reset_priority_value k th →
  returns (donate_walk steps t) k
    (λ r k', r = e ∧ level k' = INTR_OFF ∧ donors_mapped k' ∧
             ∃ the, valid k' e the ∧ P <= reset_priority_value k' the).
Proof.
  induction steps as [|steps IH];
    intros k t th n e P Hn Hl (cur & Hcur & Hrun) Hall Hdon Hv Hpath HP;
    [lia|].
  pose proof Hv as (Hnull & Ht & Hm).
  simpl. kstep. eapply returns_load; [exact Ht|].
  inversion Hpath as [? th0 Ht0 Hr0|? th0 lk n' ? Ht0 Hr0 Hlk Hh Hrest]; subst.
  - assert (th0 = th) as -> by congruence. rewrite Hr0. simpl. kstep.
    split_and!; try done. by exists th.
  - assert (th0 = th) as -> by congruence.
    destruct (N.eqb_spec (required_lock th) NULL) as [|_]; [done|].
    cbn [negb]. kstep.
    eapply returns_Done;
      [apply (thread_reset_priority_eq k t th Hv); by apply (Hdon t)|].
    destruct (after_reset_facts k t th Ht) as (Hth1 & Hsame1 & Hdon1).
    specialize (Hdon1 Hdon).
    set (v := reset_priority_value k th) in *.
    set (k1 := after_reset k t th) in *. clearbody k1.
    assert (Ht1 : threads k1 !! t = Some (set_priority v th))
      by (rewrite Hth1; apply lookup_insert_eq).
    kstep. eapply returns_load; [exact Ht1|]. kstep.
    eapply (returns_load_lock _ lk);
      [destruct Hsame1 as (-> & _); exact Hlk|].
    pose proof (donation_path_not_self k t th lk n' e Ht Hlk Hpath) as Hself.
    kstep. apply returns_ASSERT;
      [by destruct (N.eqb_spec (holder lk) t)|].
    kstep.
    destruct (same_links_valid _ _ _ _ Hsame1 Hcur) as (cur1 & Hcur1 & _ & Hs1).
    assert (Hrun1 : running k1 = running k) by by destruct Hsame1 as (_ & -> & _).
    assert (Hl1 : level k1 = INTR_OFF)
      by (destruct Hsame1 as (_ & _ & -> & _); done).
    rewrite <- Hrun1 in Hcur1.
    eapply returns_thread_current; [exact Hcur1|congruence|]. kstep.
    assert (Hv1 : valid k1 t (set_priority v th)) by by split_and!.
    eapply (returns_mono _ _
              (λ _ k2, same_links k1 k2 ∧ donors_mapped k2 ∧
                       ∀ x, priority_at k2 x = priority_at k1 x)).
    { destruct (negb (running k1 =? t)%N).
      - eapply returns_mono;
          [apply (thread_remove_donation_returns k1 t _ Hl1 Hv1)|].
        intros [] k2 (Hs2 & Hd2 & Hp2). split_and!; [done|by apply Hd2|done].
      - kstep. by split_and!. }
    intros [] k2 (Hsame2 & Hdon2 & Hprio2).
    destruct (N.eqb_spec (holder lk) NULL) as [|_]; [done|]. cbn [negb].
    assert (Hsame02 : same_links k k2) by by etrans.
    destruct (donation_path_mapped _ _ _ _ Hrest) as [hth Hhth].
    assert (Hhv : valid k (holder lk) hth).
    { split; [done|]. split; [done|]. by apply (Hall (holder lk)). }
    destruct (same_links_valid _ _ _ _ Hsame02 Hhv) as (hth2 & Hhv2 & _).
    kstep. eapply returns_is_thread; [exact Hhv2|]. kstep.
    apply returns_ASSERT; [done|]. kstep.
    destruct (same_links_lookup _ _ _ _ Hsame2 Ht1) as (tth2 & Ht2 & _).
    destruct Hhv2 as (_ & Hh2 & _).
    eapply returns_mono;
      [apply (donations_insert_ordered_returns k2 (holder lk) t hth2 tth2
                Hh2 Ht2 Hself)|].
    intros [] k3 (Hsame3 & Hdon3 & Hprio3 & hth3 & Hh3 & _ & Hdons3).
    specialize (Hdon3 Hdon2).
    assert (Hsame03 : same_links k k3) by by etrans.
    assert (Hall3 : all_threads k3)
      by by apply (same_links_all_threads k).
    assert (Hl3 : level k3 = INTR_OFF)
      by (destruct Hsame03 as (_ & _ & -> & _); done).
    apply (IH k3 (holder lk) hth3 n' e P); try done.
    + lia.
    + destruct (same_links_valid _ _ _ _ Hsame03 Hcur)
        as (cur3 & Hcur3 & _ & Hs3).
      exists cur3. destruct Hsame03 as (_ & -> & _). split; [done|congruence].
    + split; [done|]. split; [done|]. by apply (Hall3 (holder lk)).
    + by apply (donation_path_same k).
    + destruct (reset_priority_value_ge_front k3 hth3 NULL) as [Hge|Hnil].
      * etrans; [|exact Hge]. rewrite Hdons3.
        pose proof (hd_list_insert_ordered_ge (thread_compare_donation k2)
                      (priority_at k2) t NULL (donations hth2)
                      (λ a b, eq_refl)) as Hfront.
        rewrite Hprio3. etrans; [|exact Hfront].
        rewrite Hprio2. unfold priority_at. rewrite Ht1. simpl. lia.
      * rewrite Hdons3 in Hnil.
        by apply list_insert_ordered_not_nil in Hnil.
Qed.

(** X24: Donation reaches the end of a chain of locks: when every lock on the
    way has a holder, [thread_donate_priority] returns, and the thread at
    the end of the chain, the one that can run and release, then has at
    least the effective priority of the thread that started to wait. *)
Theorem thread_donate_priority_raises_holder k t th n e steps :
  level k = INTR_OFF → well_formed k →
  all_threads k → donors_mapped k →
  valid k t th → donation_path k t n e → (n < steps)%nat →
  ∃ k' the,
    thread_donate_priority steps t k = Done tt k' ∧
    threads k' !! e = Some the ∧
    base_priority th <= priority the ∧
    donated_priority k th <= priority the ∧
    base_priority the <= priority the.
Proof.
  intros Hl [Hcur _ _] Hall Hdon Hv Hpath Hn.
  enough (Hret : returns (thread_donate_priority steps t) k
            (λ _ k', ∃ the, threads k' !! e = Some the ∧
                            reset_priority_value k th <= priority the ∧
                            base_priority the <= priority the)).
  { destruct Hret as ([] & k' & Heq & the & He & Hge & Hbase).
    exists k', the. split; [exact Heq|]. split; [exact He|].
    unfold reset_priority_value in Hge.
    destruct (Z.gtb_spec (donated_priority k th) (base_priority th));
      split_and!; lia. }
  unfold thread_donate_priority. ksteps.
  apply returns_ASSERT; [by apply bool_decide_eq_true_2|]. kstep.
  eapply returns_is_thread; [exact Hv|]. kstep.
  apply returns_ASSERT; [done|]. kstep.
  eapply returns_mono;
    [apply (donate_walk_raises steps k t th n e (reset_priority_value k th));
     try done; lia|].
  intros r k1 (-> & Hl1 & Hdon1 & the & Hve & Hge).
  pose proof Hve as (_ & He & _).
  eapply returns_Done;
    [apply (thread_reset_priority_eq k1 e the Hve); by apply (Hdon1 e)|].
  destruct (after_reset_facts k1 e the He) as (Hth2 & _).
  exists (set_priority (reset_priority_value k1 the) the).
  split; [rewrite Hth2; apply lookup_insert_eq|]. split; [done|]. simpl.
  unfold reset_priority_value.
  destruct (Z.gtb_spec (donated_priority k1 the) (base_priority the)); lia.
Qed.

Lemma nested_kernel_path : donation_path nested_kernel 1%N 2 3%N.
Proof.
  eapply (path_step _ 1%N _ (mk_lock 2%N)); [reflexivity|done|reflexivity|done|].
  eapply (path_step _ 2%N _ (mk_lock 3%N)); [reflexivity|done|reflexivity|done|].
  eapply path_end; reflexivity.
Qed.

Lemma nested_kernel_threads t th :
  threads nested_kernel !! t = Some th →
  magic th = THREAD_MAGIC ∧ donations th = [].
Proof.
  intros Ht. unfold nested_kernel in Ht. cbn [threads] in Ht.
  apply lookup_insert_Some in Ht as [[<- <-]|[_ Ht]]; [done|].
  apply lookup_insert_Some in Ht as [[<- <-]|[_ Ht]]; [done|].
  apply lookup_singleton_Some in Ht as [<- <-]. done.
Qed.

Lemma thread_donate_priority_raises_holder_witness :
  ∃ k' the,
    thread_donate_priority 3 1%N nested_kernel = Done tt k' ∧
    threads k' !! 3%N = Some the ∧ 50 <= priority the.
Proof.
  destruct (thread_donate_priority_raises_holder nested_kernel 1%N
              (mk_thread 1 THREAD_RUNNING "high" 4096 50 50 []
                 NEXT_NULL 9%N 0 0 THREAD_MAGIC) 2 3%N 3)
    as (k' & the & Heq & He & Hbase & _).
  - reflexivity.
  - solve_well_formed.
  - intros t th Ht. by apply nested_kernel_threads in Ht as [? _].
  - intros t th Ht. apply nested_kernel_threads in Ht as [_ ->]. constructor.
  - solve_valid.
  - apply nested_kernel_path.
  - lia.
  - exists k', the. split; [exact Heq|]. split; [exact He|exact Hbase].
Defined.

(** X25: [thread_remove_donation] unlinks a linked donor from the list it is in:
    afterwards no donations list holds it, the other donors are where they
    were, and no priority has changed; the holder keeps the donated
    priority until its priority is reset. *)
Theorem thread_remove_donation_unlinks k t th :
  level k = INTR_OFF → valid k t th → dona_elem_next th ≠ NEXT_NULL →
  ∃ k',
    thread_remove_donation t k = Done tt k' ∧
    ready_list k' = ready_list k ∧
    ∀ h hth, threads k !! h = Some hth →
      ∃ hth', threads k' !! h = Some hth' ∧
              (t ∉ donations hth') ∧
              donations hth' = filter (λ d, d ≠ t) (donations hth) ∧
              priority hth' = priority hth ∧
              base_priority hth' = base_priority hth.
Proof.
  intros Hl Hv Hnext. pose proof Hv as (Hn & Ht & Hm).
  unfold thread_remove_donation.
  assert (H1 : intr_get_level k = Done INTR_OFF k)
    by (unfold intr_get_level, gets; by rewrite Hl).
  kbind H1. kbind (ASSERT_true (bool_decide (INTR_OFF = INTR_OFF)) k eq_refl).
  kbind (is_thread_valid k t th Hv). kbind (ASSERT_true true k eq_refl).
  kbind (load_Some k t th Ht). rewrite bool_decide_true by done.
  assert (H2 : donations_remove t k
               = Done tt
                   (set_threads
                      ((λ th0, set_donations (list_remove t (donations th0))
                                 th0) <$> threads k) k)) by done.
  kbind H2.
  set (g := λ th0 : thread,
         set_donations (list_remove t (donations th0)) th0).
  assert (Hgt : threads (set_threads (g <$> threads k) k) !! t = Some (g th))
    by (simpl; by rewrite lookup_fmap, Ht).
  rewrite (store_Some _ t (g th) (set_dona_elem_next NEXT_NULL) Hgt).
  eexists. split; [done|]. simpl. split; [done|].
  intros h hth Hh. destruct (decide (h = t)) as [->|Hne].
  - assert (hth = th) as -> by congruence.
    exists (set_dona_elem_next NEXT_NULL (g th)).
    split; [apply lookup_insert_eq|]. simpl.
    split; [apply list_remove_not_elem|].
    split; [apply list_remove_filter|done].
  - exists (g hth). rewrite lookup_insert_ne, lookup_fmap, Hh by done.
    split; [done|]. simpl.
    split; [apply list_remove_not_elem|].
    split; [apply list_remove_filter|done].
Qed.

Lemma thread_remove_donation_unlinks_witness :
  ∃ k' hth',
    thread_remove_donation 2%N priority_kernel = Done tt k' ∧
    threads k' !! 1%N = Some hth' ∧
    donations hth' = [3%N] ∧ priority hth' = 31.
Proof.
  destruct (thread_remove_donation_unlinks priority_kernel 2%N
              (mk_thread 2 THREAD_BLOCKED "high" 8192 40 40 []
                 NEXT_ELEM 9%N 0 0 THREAD_MAGIC))
    as (k' & Heq & _ & Hall); [reflexivity|solve_valid|done|].
  destruct (Hall 1%N (mk_thread 1 THREAD_RUNNING "main" 4096 31 31
                        [2%N; 3%N] NEXT_NULL NULL 0 0 THREAD_MAGIC)
              eq_refl) as (hth' & Hh & _ & Hdons & Hprio & _).
  exists k', hth'. split; [exact Heq|]. split; [exact Hh|].
  split; [exact Hdons|exact Hprio].
Defined.

(** ** Creation and preemption *)

Lemma list_insert_ordered_ext {A : Type} (less less' : A → A → bool) e
    (l : list A) :
  (∀ a b, less a b = less' a b) →
  list_insert_ordered less e l = list_insert_ordered less' e l.
Proof.
  intros Hext. induction l as [|x l IH]; simpl; [done|].
  by rewrite Hext, IH.
Qed.

(** [thread_create] up to its call of [thread_max_yield]: the new thread
    is in memory, initialised, and in the ready list. *)
Lemma thread_create_steps k name prio function aux p rest
    (post : Z → kernel → Prop) :
  function ≠ NULL →
  free_pages k = p :: rest → p ≠ NULL → threads k !! p = None →
  PRI_MIN <= prio <= PRI_MAX →
  (∀ kc pth,
     threads kc = <[p := pth]> (threads k) →
     status pth = THREAD_READY ∧ priority pth = prio ∧
     magic pth = THREAD_MAGIC ∧ tid pth = next_tid k →
     ready_list kc
     = list_insert_ordered (thread_compare_priority kc) p (ready_list k) →
     all_list kc = all_list k ++ [p] →
     running kc = running k ∧ idle_thread kc = idle_thread k ∧
     in_external_intr kc = in_external_intr k ∧
     thread_mlfqs kc = thread_mlfqs k →
     returns (thread_max_yield ≫= λ _, mret (next_tid k)) kc post) →
  returns (thread_create name prio function aux) k post.
Proof.
  intros Hf Hfp Hp Hfresh Hprio Hcont.
  assert (Hnew : ∀ th k0, threads k0 !! p = Some th →
            magic th = THREAD_MAGIC → valid k0 p th) by done.
  unfold thread_create.
  destruct (N.eqb_spec function NULL) as [|_]; [done|]. simpl.
  ksteps.
  eapply returns_Done.
  { unfold palloc_get_page. by rewrite Hfp. }
  destruct (N.eqb_spec p NULL) as [|_]; [done|]. kstep.
  eapply returns_Done.
  { eapply init_thread_eq; [done..|]. simpl. apply lookup_insert_eq. }
  kstep. unfold allocate_tid. ksteps. simpl.
  eapply returns_store; [simpl; apply lookup_insert_eq|]. ksteps.
  eapply returns_Done.
  { apply alloc_frame_eq; [|reflexivity].
    apply Hnew; [simpl; apply lookup_insert_eq|done]. }
  kstep. eapply returns_Done.
  { apply alloc_frame_eq; [|reflexivity].
    apply Hnew; [simpl; apply lookup_insert_eq|done]. }
  kstep. eapply returns_Done.
  { apply alloc_frame_eq; [|reflexivity].
    apply Hnew; [simpl; apply lookup_insert_eq|done]. }
  ksteps. eapply returns_Done.
  { eapply thread_unblock_eq.
    - apply Hnew; [simpl; apply lookup_insert_eq|done].
    - done. }
  simpl.
  match goal with |- returns _ ?k0 _ => set (kc := k0) end.
  eapply (Hcont kc).
  - simpl. rewrite !insert_insert_eq. reflexivity.
  - split_and!; reflexivity.
  - simpl. apply list_insert_ordered_ext. intros a b.
    unfold thread_compare_priority, priority_at. simpl.
    rewrite !insert_insert_eq.
    destruct (decide (a = p)) as [->|Ha], (decide (b = p)) as [->|Hb];
      rewrite ?lookup_insert_eq, ?lookup_insert_ne by done; done.
  - reflexivity.
  - split_and!; reflexivity.
Qed.

(** X26: Preemption on creation, in the priority scheduler: a new thread that
    outranks its creator runs at once and the creator waits in the ready
    list; otherwise the creator runs on and the new thread is ready. *)
Theorem thread_create_preempts k name prio function aux p rest cur :
  function ≠ NULL →
  free_pages k = p :: rest → p ≠ NULL → threads k !! p = None →
  well_formed k →
  thread_mlfqs k = false → in_external_intr k = false →
  threads k !! running k = Some cur →
  max_ready_priority k <= priority cur →
  PRI_MIN <= prio <= PRI_MAX →
  ∃ k' pth,
    thread_create name prio function aux k = Done (next_tid k) k' ∧
    threads k' !! p = Some pth ∧ priority pth = prio ∧
    if priority cur <? prio
    then running k' = p ∧ status pth = THREAD_RUNNING ∧
         status <$> threads k' !! running k = Some THREAD_READY
    else running k' = running k ∧ status pth = THREAD_READY ∧
         p ∈ ready_list k'.
Proof.
  intros Hf Hfp Hp Hfresh Hwf Hm Hintr Hcur Hmax Hprio.
  pose proof Hwf as [(cur0 & Hv & Hs) Hready Hall].
  pose proof Hv as (Hn & Ht & Hmagic).
  assert (cur0 = cur) as -> by congruence.
  assert (Hrun : running k ≠ p) by congruence.
  enough (Hret : returns (thread_create name prio function aux) k
            (λ r k', r = next_tid k ∧
               ∃ pth, threads k' !! p = Some pth ∧ priority pth = prio ∧
                 if priority cur <? prio
                 then running k' = p ∧ status pth = THREAD_RUNNING ∧
                      status <$> threads k' !! running k = Some THREAD_READY
                 else running k' = running k ∧ status pth = THREAD_READY ∧
                      p ∈ ready_list k')).
  { destruct Hret as (r & k' & Heq & -> & pth & Hrest). by exists k', pth. }
  apply (thread_create_steps k name prio function aux p rest); try done.
  intros kc pth Hthreads (Hps & Hpp & Hpm & Hptid) Hrl Hal
    (Hrunc & Hidlec & Hintrc & Hmc).
  assert (Hsame : ∀ t, t ≠ p → threads kc !! t = threads k !! t).
  { intros t Hne. rewrite Hthreads. by rewrite lookup_insert_ne. }
  assert (Hpc : threads kc !! p = Some pth)
    by (rewrite Hthreads; apply lookup_insert_eq).
  assert (Hok : ∀ t, thread_ok k t → thread_ok kc t).
  { intros t Hok. by eapply thread_ok_fresh. }
  assert (Hvc : valid kc (running kc) cur).
  { rewrite Hrunc. split; [done|]. split; [|done]. by rewrite Hsame. }
  assert (Hwfc : well_formed kc).
  { split.
    - by exists cur.
    - rewrite Hrl. apply list_insert_ordered_Forall; [by exists pth|].
      eapply Forall_impl; [exact Hready|done].
    - rewrite Hal. apply Forall_app. split; [|repeat constructor; by exists pth].
      eapply Forall_impl; [exact Hall|done]. }
  assert (Hpat : priority_at kc p = prio)
    by (unfold priority_at; by rewrite Hpc).
  assert (Hfront : ∀ x l, ready_list k = x :: l →
            priority_at kc x = priority_at k x ∧ priority_at k x <= priority cur).
  { intros x l Hx. rewrite Hx in Hready.
    apply Forall_cons in Hready as [(xth & _ & Hxt & _) _].
    assert (x ≠ p) by congruence.
    unfold priority_at. rewrite Hsame by done.
    split; [done|]. unfold max_ready_priority in Hmax. rewrite Hx in Hmax.
    unfold priority_at in Hmax. done. }
  pose proof (thread_max_yield_eq kc cur Hvc Hs (wf_ready _ Hwfc)) as Hmy.
  kstep.
  destruct (Z.ltb_spec (priority cur) prio) as [Hlt|Hge].
  - (* the new thread outranks its creator *)
    assert (Hins : ready_list kc = p :: ready_list k).
    { rewrite Hrl. destruct (ready_list k) as [|x l] eqn:Hx; [done|].
      destruct (Hfront x l eq_refl) as [Hxc Hxle].
      apply (list_insert_ordered_front _ (priority_at kc)); [done|]. lia. }
    assert (Hmaxc : max_ready_priority kc = prio).
    { unfold max_ready_priority. by rewrite Hins. }
    rewrite Hmaxc in Hmy.
    destruct (Z.gtb_spec prio (priority cur)); [|lia].
    rewrite Hintrc, Hintr in Hmy.
    assert (H1 : thread_mlfqs kc = false) by congruence.
    assert (H2 : in_external_intr kc = false) by congruence.
    assert (H3 : threads kc !! running kc = Some cur) by apply Hvc.
    assert (H4 : p ≠ running kc) by congruence.
    assert (H5 : priority cur <= priority pth) by lia.
    rewrite (thread_yield_front_runs kc cur p pth (ready_list k) Hwfc H1 H2
               H3 Hins H4 Hpc H5) in Hmy.
    eapply returns_Done; [exact Hmy|].
    kstep. split; [done|].
    exists (set_status THREAD_RUNNING pth). unfold dispatch. simpl.
    split; [apply lookup_insert_eq|]. split; [done|].
    split; [done|]. split; [done|].
    rewrite lookup_insert_ne by (rewrite <- Hrunc; congruence).
    by rewrite Hrunc, lookup_insert_eq.
  - assert (Hmaxc : max_ready_priority kc <= priority cur).
    { unfold max_ready_priority. rewrite Hrl.
      destruct (ready_list k) as [|x l] eqn:Hx; simpl; [lia|].
      destruct (Hfront x l eq_refl) as [Hxc Hxle].
      destruct (thread_compare_priority kc p x); simpl; lia. }
    destruct (Z.gtb_spec (max_ready_priority kc) (priority cur)); [lia|].
    eapply returns_Done; [exact Hmy|].
    kstep. split; [done|]. exists pth. split; [done|]. split; [done|].
    split; [done|]. split; [done|]. rewrite Hrl.
    eapply elem_of_Permutation_proper;
      [apply list_insert_ordered_Permutation|]. left.
Qed.

Lemma thread_create_preempts_witness :
  ∃ k', thread_create "worker" 40 100%N NULL (ready_kernel 31 INTR_ON)
        = Done 5 k' ∧
        running k' = 8%N.
Proof.
  destruct (thread_create_preempts (ready_kernel 31 INTR_ON) "worker" 40
              100%N NULL 8%N []
              (mk_thread 1 THREAD_RUNNING "main" 4096 31 31 []
                 NEXT_NULL NULL 0 0 THREAD_MAGIC))
    as (k' & pth & Heq & _ & _ & Hrun).
  - done.
  - reflexivity.
  - done.
  - reflexivity.
  - apply ready_kernel_well_formed.
  - reflexivity.
  - reflexivity.
  - reflexivity.
  - by vm_compute.
  - unfold PRI_MIN, PRI_MAX. lia.
  - exists k'. split; [exact Heq|]. by destruct Hrun.
Defined.

(** ** Start-up *)

(** X27: [thread_init] turns the code that runs at boot, with interrupts off,
    into the thread "main": afterwards the state is well formed,
    [thread_current] succeeds, the thread has the first tid, the default
    priority and is the only one on the list of all threads, and the ready
    list is empty. *)
Theorem thread_init_makes_main_thread k old :
  level k = INTR_OFF → running k ≠ NULL →
  threads k !! running k = Some old →
  0 < next_tid k < INT_MAX →
  ∃ k' main,
    thread_init k = Done tt k' ∧
    well_formed k' ∧
    initial_thread k' = running k ∧ running k' = running k ∧
    threads k' !! running k = Some main ∧
    tid main = next_tid k ∧ name main = "main"%string ∧
    priority main = PRI_DEFAULT ∧ base_priority main = PRI_DEFAULT ∧
    status main = THREAD_RUNNING ∧
    ready_list k' = [] ∧ all_list k' = [running k] ∧ load_avg k' = 0 ∧
    next_tid k' = next_tid k + 1 ∧
    thread_current k' = Done (running k) k' ∧
    thread_tid k' = Done (next_tid k) k' ∧
    thread_name k' = Done "main"%string k'.
Proof.
  intros Hl Hn Hold Htid.
  set (main := set_tid (next_tid k)
                 (set_status THREAD_RUNNING
                    (mk_thread 0 THREAD_BLOCKED "main"
                       (Z.of_N (running k) + PGSIZE) PRI_DEFAULT PRI_DEFAULT
                       [] NEXT_NULL NULL 0 0 THREAD_MAGIC))).
  set (k' := set_threads (<[running k := main]> (threads k))
               (set_next_tid (next_tid k + 1)
                  (set_all_list [running k]
                     (set_initial_thread (running k)
                        (set_load_avg 0
                           (set_all_list [] (set_ready_list [] k))))))).
  assert (Heq : thread_init k = Done tt k').
  { enough (Hret : returns thread_init k (λ _ k0, k0 = k')).
    { by destruct Hret as ([] & ? & ? & ->). }
    unfold thread_init. ksteps.
    apply returns_ASSERT; [by apply bool_decide_eq_true_2|]. ksteps.
    eapply returns_Done.
    { apply (init_thread_eq _ (running k) "main" PRI_DEFAULT old);
        [done|done|exact Hold]. }
    kstep. eapply returns_store; [simpl; apply lookup_insert_eq|]. kstep.
    unfold allocate_tid. ksteps.
    eapply returns_store; [simpl; apply lookup_insert_eq|].
    unfold k', main. simpl. rewrite !insert_insert_eq.
    rewrite (int32_small (next_tid k + 1)) by (unfold INT_MAX in Htid; lia).
    reflexivity. }
  assert (Hmain : threads k' !! running k' = Some main)
    by (simpl; apply lookup_insert_eq).
  assert (Hv : valid k' (running k') main) by done.
  exists k', main. split; [exact Heq|]. split.
  { split.
    - by exists main.
    - constructor.
    - repeat constructor. by exists main. }
  split_and!; try done.
  - by apply (thread_current_eq k' main).
  - unfold thread_tid. kbind (thread_current_eq k' main Hv eq_refl).
    by kbind (load_Some k' _ _ Hmain).
  - unfold thread_name. kbind (thread_current_eq k' main Hv eq_refl).
    by kbind (load_Some k' _ _ Hmain).
Qed.

Lemma thread_init_makes_main_thread_witness :
  ∃ k', thread_init
          (mk_kernel {[ 1%N := zero_page ]} ∅ [] [] NULL NULL 0 0 0 0 0 false
             1 1%N INTR_OFF false false 0 [])
        = Done tt k' ∧
        thread_tid k' = Done 1 k' ∧ all_list k' = [1%N].
Proof.
  destruct (thread_init_makes_main_thread
              (mk_kernel {[ 1%N := zero_page ]} ∅ [] [] NULL NULL 0 0 0 0 0
                 false 1 1%N INTR_OFF false false 0 [])
              zero_page)
    as (k' & main & Heq & _ & _ & _ & _ & _ & _ & _ & _ & _ & _ & Hall & _
        & _ & _ & Htid & _);
    [reflexivity|done|reflexivity|unfold INT_MAX; simpl; lia|].
  by exists k'.
Defined.

(** ** Calls from the wrong context *)

Lemma thread_current_cases k :
  thread_current k = Done (running k) k ∨ thread_current k = Panic.
Proof.
  unfold thread_current, running_thread, is_thread. kred.
  destruct (running k =? NULL)%N; [by right|]. unfold load.
  destruct (threads k !! running k) as [th|] eqn:Ht; simpl; [|by right].
  destruct (magic th =? THREAD_MAGIC); simpl; [|by right].
  rewrite Ht. simpl. destruct (bool_decide (status th = THREAD_RUNNING));
    simpl; [by left|by right].
Qed.

(** X28: The functions that switch threads halt the kernel when they are called
    from an external interrupt handler. *)
Theorem no_switch_in_interrupt_context k :
  in_external_intr k = true →
  thread_yield k = Panic ∧ thread_block k = Panic ∧ thread_exit k = Panic.
Proof.
  intros Hintr. split_and!.
  - unfold thread_yield.
    destruct (thread_current_cases k) as [Hc|Hc].
    + kbind Hc. kred. by rewrite Hintr.
    + unfold mbind, kern_bind. by rewrite Hc.
  - unfold thread_block. kred. by rewrite Hintr.
  - unfold thread_exit. kred. by rewrite Hintr.
Qed.

Lemma no_switch_in_interrupt_context_witness :
  thread_yield (mlfqs_kernel INTR_OFF true) = Panic ∧
  thread_exit (mlfqs_kernel INTR_OFF true) = Panic.
Proof.
  destruct (no_switch_in_interrupt_context (mlfqs_kernel INTR_OFF true)
              eq_refl) as (Hyield & _ & Hexit).
  by split.
Defined.

(** X29: The functions that rely on interrupts being off halt the kernel when
    they are on. *)
Theorem interrupts_off_assertions k :
  level k = INTR_ON →
  (∀ func, thread_foreach func k = Panic) ∧
  (∀ prev, thread_schedule_tail prev k = Panic) ∧
  (∀ t, thread_remove_donation t k = Panic) ∧
  (∀ steps t, thread_donate_priority steps t k = Panic) ∧
  thread_block k = Panic ∧ thread_init k = Panic.
Proof.
  intros Hl. split_and!.
  - intros func. unfold thread_foreach. kred. by rewrite Hl.
  - intros prev. unfold thread_schedule_tail. kred. by rewrite Hl.
  - intros t. unfold thread_remove_donation. kred. by rewrite Hl.
  - intros steps t. unfold thread_donate_priority. kred. by rewrite Hl.
  - unfold thread_block. kred.
    destruct (in_external_intr k); [done|]. simpl. by rewrite Hl.
  - unfold thread_init. kred. by rewrite Hl.
Qed.

Lemma interrupts_off_assertions_witness :
  thread_block (ready_kernel 31 INTR_ON) = Panic ∧
  thread_remove_donation 2%N (ready_kernel 31 INTR_ON) = Panic.
Proof.
  destruct (interrupts_off_assertions (ready_kernel 31 INTR_ON) eq_refl)
    as (_ & _ & Hremove & _ & Hblock & _).
  split; [exact Hblock|apply Hremove].
Defined.

(** X30: The priority the feedback-queue formula gives does not rise when
    recent_cpu or nice rises. *)
Theorem bsd_priority_antitone rc rc' n n' :
  - 2 ^ 31 <= rc → rc <= rc' → rc' < 2 ^ 31 →
  NICE_MIN <= n → n <= n' → n' <= NICE_MAX →
  bsd_priority rc' n' <= bsd_priority rc n.
Proof.
  intros Hrc Hle Hrc' Hn Hnle Hn'.
  rewrite (bsd_priority_formula rc n), (bsd_priority_formula rc' n') by lia.
  assert (HF : F = 16384) by reflexivity.
  assert (Hq : Z.quot rc 4 <= Z.quot rc' 4) by (apply Z.quot_le_mono; lia).
  assert (Hin : Z.quot (PRI_MAX * F - Z.quot rc' 4 - 2 * n' * F) F
                <= Z.quot (PRI_MAX * F - Z.quot rc 4 - 2 * n * F) F).
  { apply Z.quot_le_mono; lia. }
  lia.
Qed.

Lemma bsd_priority_antitone_witness :
  bsd_priority (200 * F) 5 <= bsd_priority (40 * F) 0.
Proof.
  apply (bsd_priority_antitone (40 * F) (200 * F) 0 5);
    unfold NICE_MIN, NICE_MAX; by vm_compute.
Defined.
